(** * cursor-agent MCP wrapper: the secure process-invocation engine

    A shallow embedding of [src/server.js]: the executable / path validators,
    the environment sanitizer, the argument composer, the stream-event
    handler and the process supervisor of [invokeCursorAgent].

    Conventions.
    - JS strings are [string]; one [ascii] stands for one code unit, so the
      model covers strings whose code units are below 256.
    - JS numbers are [Z]; the model is exact on the safe-integer range.
    - [undefined] is [None].
    - A thrown [Error] is the right injection of a sum, carrying the message
      the code builds and the taxonomy tag of the throw site. *)

From Stdlib Require Import ZArith Ascii String DecimalString DecimalPos Lia.
From stdpp Require Import gmap strings list.

Local Open Scope Z_scope.

(** ** JavaScript string primitives *)

Module Js.

Definition dq : string := String "034"%char EmptyString.
Definition nl : string := String "010"%char EmptyString.
Definition bs : string := String "092"%char EmptyString.
Definition nl_char : ascii := "010"%char.

(** Truthiness of a string value. *)
Definition truthy (s : string) : bool :=
  match s with EmptyString => false | String _ _ => true end.

(** Truthiness of a possibly-undefined string. *)
Definition truthy_opt (o : option string) : bool :=
  match o with Some s => truthy s | None => false end.

(** [a || b] on strings. *)
Definition or_else (a b : string) : string := if truthy a then a else b.

(** White space stripped by [String.prototype.trim], on the code units of
    the model: TAB, LF, VT, FF, CR, SPACE and NO-BREAK SPACE. *)
Definition is_ws (c : ascii) : bool :=
  Ascii.is_space c || Nat.eqb (nat_of_ascii c) 160.

Fixpoint trimStart (s : string) : string :=
  match s with
  | EmptyString => EmptyString
  | String c t => if is_ws c then trimStart t else s
  end.

Definition trim (s : string) : string :=
  String.rev (trimStart (String.rev (trimStart s))).

(** [s.startsWith(p)]. *)
Definition startsWith (s p : string) : bool := String.prefix p s.

(** [s.includes(needle)]. *)
Fixpoint includes (s needle : string) : bool :=
  String.prefix needle s ||
  match s with
  | EmptyString => false
  | String _ t => includes t needle
  end.

(** Lower-casing of one code unit: A-Z, and the Latin-1 capitals
    (U+00C0 to U+00DE, the multiplication sign excepted). *)
Definition lower_char (c : ascii) : ascii :=
  let n := nat_of_ascii c in
  if (Nat.leb 65 n && Nat.leb n 90) ||
     (Nat.leb 192 n && Nat.leb n 222 && negb (Nat.eqb n 215))
  then ascii_of_nat (n + 32) else c.

Fixpoint toLowerCase (s : string) : string :=
  match s with
  | EmptyString => EmptyString
  | String c t => String (lower_char c) (toLowerCase t)
  end.

(** [String(n)] for an integer: its decimal digits.  This is what JS prints
    for every integer below 10^21 that a number holds exactly, the safe
    integers among them; larger numbers are printed in exponent form, which
    this does not model. *)
Definition of_Z (n : Z) : string := NilZero.string_of_int (Z.to_int n).

(** Last code unit of a string. *)
Fixpoint last_char (s : string) : option ascii :=
  match s with
  | EmptyString => None
  | String c EmptyString => Some c
  | String _ t => last_char t
  end.

Definition first_char (s : string) : option ascii :=
  match s with EmptyString => None | String c _ => Some c end.

Definition is_slash (o : option ascii) : bool :=
  match o with Some c => Ascii.eqb c "/" | None => false end.

Definition eqb (a b : string) : bool := String.eqb a b.

(** [Array.prototype.join] on strings. *)
Fixpoint join (sep : string) (l : list string) : string :=
  match l with
  | [] => EmptyString
  | [x] => x
  | x :: rest => x +:+ sep +:+ join sep rest
  end.

(** [s.split(c)] for a one-character separator: never empty. *)
Fixpoint split (c : ascii) (s : string) : list string :=
  match s with
  | EmptyString => [EmptyString]
  | String d t =>
      if Ascii.eqb d c then EmptyString :: split c t
      else match split c t with
           | seg :: rest => String d seg :: rest
           | [] => [String d EmptyString]
           end
  end.

End Js.

(** ** The [node:path] module

    [server.js] imports [path] and uses [path.sep], [path.resolve],
    [path.normalize] and [path.isAbsolute].  Node provides one implementation
    per platform; the interface is a class and the POSIX implementation is
    the instance used for concrete runs.  [resolve] takes the process working
    directory explicitly. *)

Class PathModule := {
  sep : string;
  resolve : string -> string -> string;
  normalize : string -> string;
  isAbsolute : string -> bool
}.

Module Posix.

(** Segment-wise reading of Node's [normalizeString]: empty and [.]
    segments are dropped, [..] removes the previous segment unless there is
    none or it is itself [..]; above the root [..] is kept only when
    [allowAboveRoot].  [stack] holds the kept segments, last first. *)
Fixpoint normalizeSegments (allowAboveRoot : bool) (stack segs : list string)
  : list string :=
  match segs with
  | [] => rev stack
  | seg :: rest =>
      if Js.eqb seg EmptyString || Js.eqb seg "." then
        normalizeSegments allowAboveRoot stack rest
      else if Js.eqb seg ".." then
        match stack with
        | top :: below =>
            if Js.eqb top ".." then
              normalizeSegments allowAboveRoot
                (if allowAboveRoot then ".." :: stack else stack) rest
            else normalizeSegments allowAboveRoot below rest
        | [] =>
            normalizeSegments allowAboveRoot
              (if allowAboveRoot then [".."] else []) rest
        end
      else normalizeSegments allowAboveRoot (seg :: stack) rest
  end.

Definition normalizeString (path : string) (allowAboveRoot : bool) : string :=
  Js.join "/" (normalizeSegments allowAboveRoot [] (Js.split "/" path)).

Definition isAbsolute (path : string) : bool :=
  Js.is_slash (Js.first_char path).

Definition normalize (path : string) : string :=
  match path with
  | EmptyString => "."
  | _ =>
      let isAbs := isAbsolute path in
      let trailingSeparator := Js.is_slash (Js.last_char path) in
      let p := normalizeString path (negb isAbs) in
      match p with
      | EmptyString =>
          if isAbs then "/" else if trailingSeparator then "./" else "."
      | _ =>
          let p := if trailingSeparator then p +:+ "/" else p in
          if isAbs then "/" +:+ p else p
      end
  end.

(** [path.resolve(p)] with one argument; [cwd] is [process.cwd()]. *)
Definition resolve (cwd p : string) : string :=
  let r0 := match p with EmptyString => EmptyString | _ => p +:+ "/" end in
  let abs0 := isAbsolute p in
  let '(r, abs) :=
    if abs0 then (r0, true)
    else match cwd with
         | EmptyString => (r0, false)
         | _ => (cwd +:+ "/" +:+ r0, isAbsolute cwd)
         end in
  let resolved := normalizeString r (negb abs) in
  if abs then "/" +:+ resolved
  else match resolved with EmptyString => "." | _ => resolved end.

End Posix.

#[export] Instance posix : PathModule := {|
  sep := "/";
  resolve := Posix.resolve;
  normalize := Posix.normalize;
  isAbsolute := Posix.isAbsolute
|}.

(** ** Errors *)

Inductive ErrorKind :=
  | InvalidExecutable
  | PathEscape
  | MissingPath
  | InvalidConfig.

Record JsError := mkError { kind : ErrorKind; message : string }.

Definition Result (A : Type) : Type := A + JsError.
Definition Ok {A} (a : A) : Result A := inl a.
Definition Throw {A} (k : ErrorKind) (msg : string) : Result A :=
  inr (mkError k msg).

Definition bindR {A B} (r : Result A) (f : A -> Result B) : Result B :=
  match r with inl a => f a | inr e => inr e end.

Notation "'try!' x ':=' r 'in' k" := (bindR r (fun x => k))
  (at level 10, x name, r at level 100, k at level 200).

(** ** Validated configuration ([ENV_SCHEMA], [getValidatedEnv])

    [process.env] is a finite map from names to strings. *)

Record ValidatedEnv := {
  EXECUTING_CLIENT : option string;
  CURSOR_AGENT_PATH : option string;
  DEBUG_CURSOR_MCP : bool;
  CURSOR_AGENT_ECHO_PROMPT : bool;
  CURSOR_AGENT_MODEL : option string;
  CURSOR_AGENT_FORCE : bool;
  CURSOR_AGENT_IDLE_EXIT_MS : option Z;
  CURSOR_AGENT_TIMEOUT_MS : option Z
}.

(** [booleanEnvSchema]: '1', 'true', 'yes', 'on' in any case. *)
Definition booleanEnvSchema (val : option string) : bool :=
  match val with
  | None => false
  | Some v =>
      if negb (Js.truthy v) then false
      else
        let lower := Js.trim (Js.toLowerCase v) in
        Js.eqb lower "1" || Js.eqb lower "true" ||
        Js.eqb lower "yes" || Js.eqb lower "on"
  end.

(** [Number.parseInt(s, 10)]: optional sign, then the longest run of decimal
    digits; [None] is NaN.  The value is the exact integer the digits
    denote, which is the number JS computes as long as it is a safe integer
    (at most 2^53 - 1 in absolute value); beyond that JS rounds to a double,
    and to Infinity past the double range, which this does not model. *)
Fixpoint parseDigits (acc : option Z) (s : string) : option Z :=
  match s with
  | EmptyString => acc
  | String c t =>
      match Ascii.is_nat c with
      | Some d => parseDigits (Some (10 * default 0 acc + Z.of_nat d)) t
      | None => acc
      end
  end.

Definition parseInt10 (s : string) : option Z :=
  match Js.trimStart s with
  | String "-" t => Z.opp <$> parseDigits None t
  | String "+" t => parseDigits None t
  | t => parseDigits None t
  end.

(** [positiveIntMsSchema]. *)
Definition positiveIntMsSchema (val : option string) : option Z :=
  match val with
  | None => None
  | Some v =>
      if negb (Js.truthy v) then None
      else match parseInt10 (Js.trim v) with
           | None => None
           | Some parsed => if parsed <? 0 then None else Some parsed
           end
  end.

(** [executablePathSchema]. *)
Definition executablePathSchema `{PathModule} (val : option string)
  : Result (option string) :=
  match val with
  | None => Ok None
  | Some v =>
      if negb (Js.truthy v) || negb (Js.truthy (Js.trim v)) then Ok None
      else
        let trimmed := Js.trim v in
        let normalized := normalize trimmed in
        if Js.includes normalized ".." ||
           (negb (isAbsolute normalized) && Js.includes normalized "/")
        then Throw InvalidConfig "CURSOR_AGENT_PATH contains invalid path traversal"
        else Ok (Some (if isAbsolute normalized then normalized else trimmed))
  end.

(** [z.enum(['cursor', 'clause']).optional()]; [None] on the right is a
    schema issue. *)
Definition executingClientSchema (val : option string)
  : option (option string) :=
  match val with
  | None => Some None
  | Some v => if Js.eqb v "cursor" || Js.eqb v "clause" then Some (Some v) else None
  end.

(** [z.string().trim().min(1).optional()]. *)
Definition modelSchema (val : option string) : option (option string) :=
  match val with
  | None => Some None
  | Some v => let t := Js.trim v in if Js.truthy t then Some (Some t) else None
  end.

(** [getValidatedEnv]: [ENV_SCHEMA.parse] of the eight recognised variables.
    The cache is keyed by exactly those eight raw values, so the function of
    [process.env] it computes is this one.  A throwing transform propagates
    at once; schema issues are collected and thrown as one error at the end
    (its message stands for zod's issue list).  During startup the same
    failure ends the process instead of throwing. *)
Definition getValidatedEnv `{PathModule} (penv : gmap string string)
  : Result ValidatedEnv :=
  let client := executingClientSchema (penv !! "EXECUTING_CLIENT") in
  try! agentPath := executablePathSchema (penv !! "CURSOR_AGENT_PATH") in
  let model := modelSchema (penv !! "CURSOR_AGENT_MODEL") in
  match client, model with
  | Some client, Some model =>
      Ok {| EXECUTING_CLIENT := client;
            CURSOR_AGENT_PATH := agentPath;
            DEBUG_CURSOR_MCP := booleanEnvSchema (penv !! "DEBUG_CURSOR_MCP");
            CURSOR_AGENT_ECHO_PROMPT :=
              booleanEnvSchema (penv !! "CURSOR_AGENT_ECHO_PROMPT");
            CURSOR_AGENT_MODEL := model;
            CURSOR_AGENT_FORCE := booleanEnvSchema (penv !! "CURSOR_AGENT_FORCE");
            CURSOR_AGENT_IDLE_EXIT_MS :=
              positiveIntMsSchema (penv !! "CURSOR_AGENT_IDLE_EXIT_MS");
            CURSOR_AGENT_TIMEOUT_MS :=
              positiveIntMsSchema (penv !! "CURSOR_AGENT_TIMEOUT_MS") |}
  | None, _ => Throw InvalidConfig "ZodError: EXECUTING_CLIENT"
  | _, None => Throw InvalidConfig "ZodError: CURSOR_AGENT_MODEL"
  end.

(** ** Security validation utilities *)

Definition blank (o : option string) : bool :=
  match o with
  | None => true
  | Some s => negb (Js.truthy s) || negb (Js.truthy (Js.trim s))
  end.

(** [validateExecutablePath]. *)
Definition validateExecutablePath `{PathModule} (penv : gmap string string)
  (explicit : option string) : Result string :=
  try! env := getValidatedEnv penv in
  if blank explicit then
    match CURSOR_AGENT_PATH env with
    | Some envPath => if Js.truthy envPath then Ok envPath else Ok "cursor-agent"
    | None => Ok "cursor-agent"
    end
  else
    let trimmed := Js.trim (default EmptyString explicit) in
    let reject : Result string :=
      Throw InvalidExecutable
        ("Invalid executable path: " +:+ Js.dq +:+ trimmed +:+ Js.dq +:+
         ". Only " +:+ Js.dq +:+ "cursor-agent" +:+ Js.dq +:+
         " or exact match to CURSOR_AGENT_PATH is allowed.") in
    if Js.eqb trimmed "cursor-agent" then Ok "cursor-agent"
    else
      match CURSOR_AGENT_PATH env with
      | Some envPath =>
          if Js.truthy envPath && Js.eqb trimmed envPath then Ok envPath
          else reject
      | None => reject
      end.

(** The containment test both path validators apply:
    [resolved !== base && !resolved.startsWith(base + path.sep)]. *)
Definition outside `{PathModule} (resolved baseDirResolved : string) : bool :=
  negb (Js.eqb resolved baseDirResolved) &&
  negb (Js.startsWith resolved (baseDirResolved +:+ sep)).

(** [validateWorkingDirectory]; [cwd0] is [process.cwd()]. *)
Definition validateWorkingDirectory `{PathModule} (cwd0 : string)
  (cwd : option string) : Result string :=
  if blank cwd then Ok cwd0
  else
    let trimmed := Js.trim (default EmptyString cwd) in
    let resolved := resolve cwd0 trimmed in
    let baseDir := cwd0 in
    let baseDirResolved := resolve cwd0 baseDir in
    if outside resolved baseDirResolved then
      Throw PathEscape
        ("Working directory " +:+ Js.dq +:+ trimmed +:+ Js.dq +:+
         " is outside allowed path " +:+ Js.dq +:+ baseDir +:+ Js.dq)
    else
      let normalized := normalize trimmed in
      if Js.includes normalized ".." &&
         outside (resolve cwd0 normalized) baseDirResolved
      then
        Throw PathEscape
          ("Working directory " +:+ Js.dq +:+ trimmed +:+ Js.dq +:+
           " contains invalid path traversal")
      else Ok resolved.

(** [validateFilePath]. *)
Definition validateFilePath `{PathModule} (cwd0 : string)
  (filePath : option string) : Result string :=
  if blank filePath then Throw MissingPath "File path is required"
  else
    let trimmed := Js.trim (default EmptyString filePath) in
    let resolved := resolve cwd0 trimmed in
    let baseDir := cwd0 in
    let baseDirResolved := resolve cwd0 baseDir in
    if outside resolved baseDirResolved then
      Throw PathEscape
        ("File path " +:+ Js.dq +:+ trimmed +:+ Js.dq +:+
         " is outside allowed directory " +:+ Js.dq +:+ baseDir +:+ Js.dq)
    else
      let normalized := normalize trimmed in
      if Js.includes normalized ".." &&
         outside (resolve cwd0 normalized) baseDirResolved
      then
        Throw PathEscape
          ("File path " +:+ Js.dq +:+ trimmed +:+ Js.dq +:+
           " contains invalid path traversal")
      else Ok resolved.

(** ** Environment sanitizer ([getSafeEnvironment]) *)

Definition whitelist : list string :=
  [ "PATH"; "HOME"; "USER"; "USERNAME"; "SHELL"; "TMPDIR"; "TEMP"; "TMP";
    "NODE_VERSION"; "LANG"; "LANGUAGE"; "EXECUTING_CLIENT" ].

Definition cursorAgentPrefix : string := "CURSOR_AGENT_".
Definition npmConfigPrefix : string := "NPM_CONFIG_".
Definition lcPrefix : string := "LC_".

(** The loop's test on an ambient key. *)
Definition allowedKey (key : string) : bool :=
  bool_decide (key ∈ whitelist) ||
  Js.startsWith key cursorAgentPrefix ||
  Js.startsWith key npmConfigPrefix ||
  Js.startsWith key lcPrefix.

(** [process.env.X || '1']. *)
Definition rawOrOne (penv : gmap string string) (key : string) : string :=
  Js.or_else (default EmptyString (penv !! key)) "1".

(** One iteration of the loop over [Object.entries(process.env)]. *)
Definition copyEntry (safeEnv : gmap string string) (entry : string * string)
  : gmap string string :=
  let '(key, value) := entry in
  if allowedKey key then
    if bool_decide (is_Some (safeEnv !! key)) then safeEnv
    else <[key := value]> safeEnv
  else safeEnv.

(** The part of [getSafeEnvironment] that writes the validated values back. *)
Definition validatedPart (penv : gmap string string) (env : ValidatedEnv)
  : gmap string string :=
  let safeEnv : gmap string string := ∅ in
  let safeEnv :=
    if Js.truthy_opt (EXECUTING_CLIENT env)
    then <["EXECUTING_CLIENT" := default EmptyString (EXECUTING_CLIENT env)]> safeEnv
    else safeEnv in
  let safeEnv :=
    if Js.truthy_opt (CURSOR_AGENT_PATH env)
    then <["CURSOR_AGENT_PATH" := default EmptyString (CURSOR_AGENT_PATH env)]> safeEnv
    else safeEnv in
  let safeEnv :=
    if DEBUG_CURSOR_MCP env
    then <["DEBUG_CURSOR_MCP" := rawOrOne penv "DEBUG_CURSOR_MCP"]> safeEnv
    else safeEnv in
  let safeEnv :=
    if CURSOR_AGENT_ECHO_PROMPT env
    then <["CURSOR_AGENT_ECHO_PROMPT" := rawOrOne penv "CURSOR_AGENT_ECHO_PROMPT"]> safeEnv
    else safeEnv in
  let safeEnv :=
    if Js.truthy_opt (CURSOR_AGENT_MODEL env)
    then <["CURSOR_AGENT_MODEL" := default EmptyString (CURSOR_AGENT_MODEL env)]> safeEnv
    else safeEnv in
  let safeEnv :=
    if CURSOR_AGENT_FORCE env
    then <["CURSOR_AGENT_FORCE" := rawOrOne penv "CURSOR_AGENT_FORCE"]> safeEnv
    else safeEnv in
  let safeEnv :=
    match CURSOR_AGENT_IDLE_EXIT_MS env with
    | Some n => <["CURSOR_AGENT_IDLE_EXIT_MS" := Js.of_Z n]> safeEnv
    | None => safeEnv
    end in
  let safeEnv :=
    match CURSOR_AGENT_TIMEOUT_MS env with
    | Some n => <["CURSOR_AGENT_TIMEOUT_MS" := Js.of_Z n]> safeEnv
    | None => safeEnv
    end in
  safeEnv.

Definition getSafeEnvironment `{PathModule} (penv : gmap string string)
  : Result (gmap string string) :=
  try! env := getValidatedEnv penv in
  Ok (map_fold (fun key value safeEnv => copyEntry safeEnv (key, value))
        (validatedPart penv env) penv).

(** The eight variables [ENV_SCHEMA] recognises. *)
Definition recognized : list string :=
  [ "EXECUTING_CLIENT"; "CURSOR_AGENT_PATH"; "DEBUG_CURSOR_MCP";
    "CURSOR_AGENT_ECHO_PROMPT"; "CURSOR_AGENT_MODEL"; "CURSOR_AGENT_FORCE";
    "CURSOR_AGENT_IDLE_EXIT_MS"; "CURSOR_AGENT_TIMEOUT_MS" ].

(** ** Invocation requests and the argument composer *)

(** An [AbortSignal] as a caller may pass it. *)
Record AbortSignal := { aborted : bool; reason : string }.

(** The options object handed to [invokeCursorAgent].  [onProgress] records
    whether a progress consumer is attached; its calls are logged in the
    supervisor state.  [signal] is a property callers may set: the parameter
    pattern of [invokeCursorAgent] binds [argv], [output_format], [cwd],
    [executable], [model], [force], [print] and [onProgress] only. *)
Record Request := {
  argv : option (list string);
  output_format : option string;
  cwd : option string;
  executable : option string;
  model : option string;
  force : option bool;
  print : option bool;
  onProgress : bool;
  signal : option AbortSignal
}.

(** [a === '-m' || a === '--model' || /^(?:-m=|--model=)/.test(a)]. *)
Definition isModelFlag (a : string) : bool :=
  Js.eqb a "-m" || Js.eqb a "--model" ||
  Js.startsWith a "-m=" || Js.startsWith a "--model=".

Definition isForceFlag (a : string) : bool :=
  Js.eqb a "-f" || Js.eqb a "--force".

(** [model?.trim?.() || envModel]. *)
Definition effectiveModel (env : ValidatedEnv) (req : Request) : option string :=
  match model req with
  | Some m => if Js.truthy (Js.trim m) then Some (Js.trim m) else CURSOR_AGENT_MODEL env
  | None => CURSOR_AGENT_MODEL env
  end.

(** [typeof force === 'boolean' ? force : envForce]. *)
Definition effectiveForce (env : ValidatedEnv) (req : Request) : bool :=
  match force req with
  | Some f => f
  | None => CURSOR_AGENT_FORCE env
  end.

(** The trailing prompt: the last argument when it is non-empty and does not
    start with '-'. *)
Definition promptArg (userArgs : list string) : option string :=
  match last userArgs with
  | Some lastArg =>
      if Js.truthy lastArg && negb (Js.startsWith lastArg "-")
      then Some lastArg else None
  | None => None
  end.

Definition argsWithoutPrompt (userArgs : list string) : list string :=
  match promptArg userArgs with
  | Some _ => removelast userArgs
  | None => userArgs
  end.

Definition useStreamJson (req : Request) : bool := onProgress req.

Definition finalOutputFormat (req : Request) : string :=
  if useStreamJson req then "stream-json"
  else default "text" (output_format req).

Definition finalArgv (env : ValidatedEnv) (req : Request) : list string :=
  let userArgs := default [] (argv req) in
  let hasModelFlag := existsb isModelFlag userArgs in
  let hasForceFlag := existsb isForceFlag userArgs in
  let print := default true (print req) in
  (if print then ["--print"; "--output-format"; finalOutputFormat req] else []) ++
  (if useStreamJson req && print then ["--stream-partial-output"] else []) ++
  argsWithoutPrompt userArgs ++
  (if hasForceFlag || negb (effectiveForce env req) then [] else ["-f"]) ++
  (match effectiveModel env req with
   | Some m => if hasModelFlag || negb (Js.truthy m) then [] else ["--model"; m]
   | None => []
   end) ++
  (match promptArg userArgs with
   | Some p => [p]
   | None => []
   end).

(** ** Stream events

    The values [JSON.parse] produces.  Numbers are integers in the model. *)

#[warnings="-register-all"] Inductive Json :=
  | JNull
  | JBool (b : bool)
  | JNum (n : Z)
  | JStr (s : string)
  | JArr (items : list Json)
  | JObj (fields : list (string * Json)).

Module JsVal.

Definition truthy (v : option Json) : bool :=
  match v with
  | None | Some JNull => false
  | Some (JBool b) => b
  | Some (JNum n) => negb (n =? 0)
  | Some (JStr s) => Js.truthy s
  | Some (JArr _) | Some (JObj _) => true
  end.

Fixpoint assoc (k : string) (fields : list (string * Json)) : option Json :=
  match fields with
  | [] => None
  | (k', v) :: rest => if Js.eqb k k' then Some v else assoc k rest
  end.

(** [v?.k] for the property names the handler reads (none of them is
    inherited from a prototype). *)
Definition get (v : option Json) (k : string) : option Json :=
  match v with
  | Some (JObj fields) => assoc k fields
  | _ => None
  end.

(** [v?.[0]]. *)
Definition get0 (v : option Json) : option Json :=
  match v with
  | Some (JObj fields) => assoc "0" fields
  | Some (JArr items) => head items
  | Some (JStr (String c _)) => Some (JStr (String c EmptyString))
  | _ => None
  end.

(** [a || b]. *)
Definition or_else (a : option Json) (b : Json) : Json :=
  if truthy a then default b a else b.

(** String conversion, as in a template literal or a string concatenation;
    [None] when it throws a TypeError.  A parsed object is converted by the
    [toString] it inherits, unless it has a property of that name of its
    own: no parsed value is callable, and the inherited [valueOf] returns
    the object, so the conversion throws.  An array joins the conversions
    of its elements, [null] giving the empty string. *)
Fixpoint toString (v : Json) : option string :=
  match v with
  | JNull => Some "null"
  | JBool b => Some (if b then "true" else "false")
  | JNum n => Some (Js.of_Z n)
  | JStr s => Some s
  | JArr items =>
      Js.join "," <$>
      (fix elements (l : list Json) : option (list string) :=
         match l with
         | [] => Some []
         | x :: rest =>
             match (match x with JNull => Some EmptyString | _ => toString x end),
                   elements rest with
             | Some a, Some b => Some (a :: b)
             | _, _ => None
             end
         end) items
  | JObj fields =>
      match assoc "toString" fields with
      | Some _ => None
      | None => Some "[object Object]"
      end
  end.

Definition isStr (v : option Json) (s : string) : bool :=
  match v with
  | Some (JStr t) => Js.eqb t s
  | _ => false
  end.

(** [typeof v === 'object'] for a truthy value. *)
Definition isObject (v : Json) : bool :=
  match v with
  | JArr _ | JObj _ => true
  | _ => false
  end.

End JsVal.

(** [JSON.parse], [None] when it throws. *)
Class JsonParser := JSON_parse : string -> option Json.

(** What is passed to [onProgress]. *)
Record ProgressEvent := {
  progress : Z;
  total : option Z;
  progress_message : string
}.

Definition mkProgress (p : Z) (msg : string) : ProgressEvent :=
  {| progress := p; total := None; progress_message := msg |}.

Definition check_mark : string :=
  String "226"%char (String "156"%char (String "133"%char EmptyString)).

(** ** The process supervisor *)

(** The resolved value of the promise: [content[0].text] and [isError]. *)
Record InvocationResult := { text : string; isError : bool }.

(** A timer variable: never set, holding a pending timer, or holding a
    timer that has fired or was cleared. *)
Inductive Timer := TNull | TPending | TStale.

Definition clearTimeout (t : Timer) : Timer :=
  match t with
  | TNull => TNull
  | _ => TStale
  end.

(** The variables the promise executor closes over, and logs of the
    observable effects: calls of [spawn] (command and arguments), calls of
    [resolve], calls of [onProgress], and kill signals sent to the child. *)
Record State := {
  settled : bool;
  out : string;
  err : string;
  idleTimer : Timer;
  mainTimer : Timer;
  killedByIdle : bool;
  accumulatedText : string;
  toolCount : Z;
  partialLine : string;
  spawned : list (string * list string);
  resolved : list InvocationResult;
  reported : list ProgressEvent;
  kills : nat
}.

Definition set_settled (v : bool) (s : State) : State :=
  {| settled := v;
     out := out s;
     err := err s;
     idleTimer := idleTimer s;
     mainTimer := mainTimer s;
     killedByIdle := killedByIdle s;
     accumulatedText := accumulatedText s;
     toolCount := toolCount s;
     partialLine := partialLine s;
     spawned := spawned s;
     resolved := resolved s;
     reported := reported s;
     kills := kills s |}.

Definition set_out (v : string) (s : State) : State :=
  {| settled := settled s;
     out := v;
     err := err s;
     idleTimer := idleTimer s;
     mainTimer := mainTimer s;
     killedByIdle := killedByIdle s;
     accumulatedText := accumulatedText s;
     toolCount := toolCount s;
     partialLine := partialLine s;
     spawned := spawned s;
     resolved := resolved s;
     reported := reported s;
     kills := kills s |}.

Definition set_err (v : string) (s : State) : State :=
  {| settled := settled s;
     out := out s;
     err := v;
     idleTimer := idleTimer s;
     mainTimer := mainTimer s;
     killedByIdle := killedByIdle s;
     accumulatedText := accumulatedText s;
     toolCount := toolCount s;
     partialLine := partialLine s;
     spawned := spawned s;
     resolved := resolved s;
     reported := reported s;
     kills := kills s |}.

Definition set_idleTimer (v : Timer) (s : State) : State :=
  {| settled := settled s;
     out := out s;
     err := err s;
     idleTimer := v;
     mainTimer := mainTimer s;
     killedByIdle := killedByIdle s;
     accumulatedText := accumulatedText s;
     toolCount := toolCount s;
     partialLine := partialLine s;
     spawned := spawned s;
     resolved := resolved s;
     reported := reported s;
     kills := kills s |}.

Definition set_mainTimer (v : Timer) (s : State) : State :=
  {| settled := settled s;
     out := out s;
     err := err s;
     idleTimer := idleTimer s;
     mainTimer := v;
     killedByIdle := killedByIdle s;
     accumulatedText := accumulatedText s;
     toolCount := toolCount s;
     partialLine := partialLine s;
     spawned := spawned s;
     resolved := resolved s;
     reported := reported s;
     kills := kills s |}.

Definition set_killedByIdle (v : bool) (s : State) : State :=
  {| settled := settled s;
     out := out s;
     err := err s;
     idleTimer := idleTimer s;
     mainTimer := mainTimer s;
     killedByIdle := v;
     accumulatedText := accumulatedText s;
     toolCount := toolCount s;
     partialLine := partialLine s;
     spawned := spawned s;
     resolved := resolved s;
     reported := reported s;
     kills := kills s |}.

Definition set_accumulatedText (v : string) (s : State) : State :=
  {| settled := settled s;
     out := out s;
     err := err s;
     idleTimer := idleTimer s;
     mainTimer := mainTimer s;
     killedByIdle := killedByIdle s;
     accumulatedText := v;
     toolCount := toolCount s;
     partialLine := partialLine s;
     spawned := spawned s;
     resolved := resolved s;
     reported := reported s;
     kills := kills s |}.

Definition set_toolCount (v : Z) (s : State) : State :=
  {| settled := settled s;
     out := out s;
     err := err s;
     idleTimer := idleTimer s;
     mainTimer := mainTimer s;
     killedByIdle := killedByIdle s;
     accumulatedText := accumulatedText s;
     toolCount := v;
     partialLine := partialLine s;
     spawned := spawned s;
     resolved := resolved s;
     reported := reported s;
     kills := kills s |}.

Definition set_partialLine (v : string) (s : State) : State :=
  {| settled := settled s;
     out := out s;
     err := err s;
     idleTimer := idleTimer s;
     mainTimer := mainTimer s;
     killedByIdle := killedByIdle s;
     accumulatedText := accumulatedText s;
     toolCount := toolCount s;
     partialLine := v;
     spawned := spawned s;
     resolved := resolved s;
     reported := reported s;
     kills := kills s |}.

Definition resolve_with (r : InvocationResult) (s : State) : State :=
  {| settled := settled s;
     out := out s;
     err := err s;
     idleTimer := idleTimer s;
     mainTimer := mainTimer s;
     killedByIdle := killedByIdle s;
     accumulatedText := accumulatedText s;
     toolCount := toolCount s;
     partialLine := partialLine s;
     spawned := spawned s;
     resolved := resolved s ++ [r];
     reported := reported s;
     kills := kills s |}.

Definition report (p : ProgressEvent) (s : State) : State :=
  {| settled := settled s;
     out := out s;
     err := err s;
     idleTimer := idleTimer s;
     mainTimer := mainTimer s;
     killedByIdle := killedByIdle s;
     accumulatedText := accumulatedText s;
     toolCount := toolCount s;
     partialLine := partialLine s;
     spawned := spawned s;
     resolved := resolved s;
     reported := reported s ++ [p];
     kills := kills s |}.

Definition kill (s : State) : State :=
  {| settled := settled s;
     out := out s;
     err := err s;
     idleTimer := idleTimer s;
     mainTimer := mainTimer s;
     killedByIdle := killedByIdle s;
     accumulatedText := accumulatedText s;
     toolCount := toolCount s;
     partialLine := partialLine s;
     spawned := spawned s;
     resolved := resolved s;
     reported := reported s;
     kills := S (kills s) |}.

(** What the synchronous prefix of [invokeCursorAgent] computes and hands to
    [spawn]. *)
Record Invocation := {
  cmd : string;
  validatedCwd : string;
  safeEnv : gmap string string;
  spawnArgv : list string;
  streamJson : bool;
  hasProgress : bool;
  idleMs : Z;
  timeoutMs : Z
}.

Definition defaultTimeout : Z := 30000.

Definition strlen (s : string) : Z := Z.of_nat (String.length s).

(** *** [handleStreamEvent]

    The body of the handler runs inside [try]; its [catch] clause only logs.
    A string conversion that throws therefore ends the call: what was
    assigned before it stays, and nothing is reported. *)

Definition handleStreamEvent (inv : Invocation) (event : Json) (s : State)
  : State :=
  if negb (hasProgress inv) || negb (JsVal.truthy (Some event)) ||
     negb (JsVal.isObject event)
  then s
  else
    let type := JsVal.get (Some event) "type" in
    let subtype := JsVal.get (Some event) "subtype" in
    if JsVal.isStr type "system" then
      if JsVal.isStr subtype "init" then
        let modelName :=
          JsVal.or_else (JsVal.get (Some event) "model") (JStr "unknown") in
        match JsVal.toString modelName with
        | Some name =>
            report (mkProgress 0
                      ("Initializing cursor-agent (model: " +:+ name +:+ ")...")) s
        | None => s
        end
      else s
    else if JsVal.isStr type "assistant" then
      let text :=
        JsVal.or_else
          (JsVal.get
             (JsVal.get0 (JsVal.get (JsVal.get (Some event) "message") "content"))
             "text")
          (JStr EmptyString) in
      if JsVal.truthy (Some text) then
        match JsVal.toString text with
        | Some delta =>
            let s := set_accumulatedText (accumulatedText s +:+ delta) s in
            report (mkProgress (strlen (accumulatedText s))
                      ("Generating response... (" +:+
                       Js.of_Z (strlen (accumulatedText s)) +:+ " characters)")) s
        | None => s
        end
      else s
    else if JsVal.isStr type "tool_call" then
      if JsVal.isStr subtype "started" then
        let s := set_toolCount (toolCount s + 1) s in
        let toolCall := JsVal.get (Some event) "tool_call" in
        if JsVal.truthy (JsVal.get toolCall "writeToolCall") then
          let path :=
            JsVal.or_else
              (JsVal.get (JsVal.get (JsVal.get toolCall "writeToolCall") "args") "path")
              (JStr "unknown") in
          match JsVal.toString path with
          | Some name =>
              report (mkProgress (toolCount s) ("Writing file: " +:+ name)) s
          | None => s
          end
        else if JsVal.truthy (JsVal.get toolCall "readToolCall") then
          let path :=
            JsVal.or_else
              (JsVal.get (JsVal.get (JsVal.get toolCall "readToolCall") "args") "path")
              (JStr "unknown") in
          match JsVal.toString path with
          | Some name =>
              report (mkProgress (toolCount s) ("Reading file: " +:+ name)) s
          | None => s
          end
        else
          report (mkProgress (toolCount s)
                    ("Executing tool #" +:+ Js.of_Z (toolCount s) +:+ "...")) s
      else if JsVal.isStr subtype "completed" then
        let toolCall := JsVal.get (Some event) "tool_call" in
        let writeResult := JsVal.get (JsVal.get toolCall "writeToolCall") "result" in
        let readResult := JsVal.get (JsVal.get toolCall "readToolCall") "result" in
        if JsVal.truthy (JsVal.get writeResult "success") then
          let success := JsVal.get writeResult "success" in
          let linesCreated := JsVal.or_else (JsVal.get success "linesCreated") (JNum 0) in
          let fileSize := JsVal.or_else (JsVal.get success "fileSize") (JNum 0) in
          match JsVal.toString linesCreated, JsVal.toString fileSize with
          | Some lines, Some bytes =>
              report (mkProgress (toolCount s)
                        (check_mark +:+ " Created " +:+ lines +:+
                         " lines (" +:+ bytes +:+ " bytes)")) s
          | _, _ => s
          end
        else if JsVal.truthy (JsVal.get readResult "success") then
          let success := JsVal.get readResult "success" in
          let totalLines := JsVal.or_else (JsVal.get success "totalLines") (JNum 0) in
          match JsVal.toString totalLines with
          | Some lines =>
              report (mkProgress (toolCount s)
                        (check_mark +:+ " Read " +:+ lines +:+ " lines")) s
          | None => s
          end
        else if JsVal.truthy writeResult || JsVal.truthy readResult then
          report (mkProgress (toolCount s)
                    (check_mark +:+ " Tool #" +:+ Js.of_Z (toolCount s) +:+
                     " completed")) s
        else s
      else s
    else if JsVal.isStr type "result" then
      let duration :=
        JsVal.or_else (JsVal.get (Some event) "duration_ms") (JNum 0) in
      match JsVal.toString duration with
      | Some ms =>
          report {| progress := 100; total := Some 100;
                    progress_message := "Completed in " +:+ ms +:+ "ms" |} s
      | None => s
      end
    else s.

(** *** [JSON.stringify] of an array of strings *)

Definition hexDigit (n : nat) : ascii :=
  if Nat.ltb n 10 then ascii_of_nat (48 + n) else ascii_of_nat (87 + n).

Definition jsonEscapeChar (c : ascii) : string :=
  let n := nat_of_ascii c in
  if Nat.eqb n 34 then Js.bs +:+ Js.dq
  else if Nat.eqb n 92 then Js.bs +:+ Js.bs
  else if Nat.eqb n 8 then Js.bs +:+ "b"
  else if Nat.eqb n 12 then Js.bs +:+ "f"
  else if Nat.eqb n 10 then Js.bs +:+ "n"
  else if Nat.eqb n 13 then Js.bs +:+ "r"
  else if Nat.eqb n 9 then Js.bs +:+ "t"
  else if Nat.ltb n 32 then
    Js.bs +:+ "u00" +:+
    String (hexDigit (Nat.div n 16)) (String (hexDigit (Nat.modulo n 16)) EmptyString)
  else String c EmptyString.

Fixpoint jsonEscape (s : string) : string :=
  match s with
  | EmptyString => EmptyString
  | String c t => jsonEscapeChar c +:+ jsonEscape t
  end.

Definition jsonQuote (s : string) : string := Js.dq +:+ jsonEscape s +:+ Js.dq.

Definition JSON_stringify_strings (l : list string) : string :=
  "[" +:+ Js.join "," (List.map jsonQuote l) +:+ "]".

(** *** Event handlers of the promise executor *)

(** [cleanup]. *)
Definition cleanup (s : State) : State :=
  set_idleTimer (clearTimeout (idleTimer s))
    (set_mainTimer (clearTimeout (mainTimer s)) s).

(** [scheduleIdleKill]. *)
Definition scheduleIdleKill (inv : Invocation) (s : State) : State :=
  if (idleMs inv =? 0) || (idleMs inv <=? 0) then s
  else set_idleTimer TPending (set_idleTimer (clearTimeout (idleTimer s)) s).

(** The callback of the idle timer. *)
Definition onIdleTimer (s : State) : State :=
  kill (set_killedByIdle true s).

(** One complete line of stream-json output. *)
Definition decodeLine `{JsonParser} (inv : Invocation) (s : State)
  (line : string) : State :=
  let trimmed := Js.trim line in
  if negb (Js.truthy trimmed) then s
  else match JSON_parse trimmed with
       | Some event => handleStreamEvent inv event s
       | None => s
       end.

(** [child.stdout.on('data', ...)]. *)
Definition onStdoutData `{JsonParser} (inv : Invocation) (chunk : string)
  (s : State) : State :=
  let s := set_out (out s +:+ chunk) s in
  let s := scheduleIdleKill inv s in
  if streamJson inv && hasProgress inv then
    let data := partialLine s +:+ chunk in
    let lines := Js.split Js.nl_char data in
    let s := set_partialLine (default EmptyString (last lines)) s in
    foldl (decodeLine inv) s (removelast lines)
  else if hasProgress inv then
    report (mkProgress (strlen (out s))
              ("Received " +:+ Js.of_Z (strlen (out s)) +:+
               " bytes of output...")) s
  else s.

(** [child.stderr.on('data', ...)]. *)
Definition onStderrData (chunk : string) (s : State) : State :=
  set_err (err s +:+ chunk) s.

(** [child.on('error', ...)]: [msg] is [e.message], [str] is [String(e)]. *)
Definition onError (inv : Invocation) (msg str : string) (s : State) : State :=
  if settled s then s
  else
    let s := cleanup (set_settled true s) in
    let text :=
      "Failed to start " +:+ Js.dq +:+ cmd inv +:+ Js.dq +:+ ": " +:+
      Js.or_else msg str +:+ Js.nl +:+
      "Args: " +:+ JSON_stringify_strings (spawnArgv inv) +:+ Js.nl +:+
      (if Js.truthy_opt (safeEnv inv !! "CURSOR_AGENT_PATH")
       then "CURSOR_AGENT_PATH=" +:+
            default EmptyString (safeEnv inv !! "CURSOR_AGENT_PATH") +:+ Js.nl
       else EmptyString) in
    resolve_with {| text := text; isError := true |} s.

(** The callback of the main timer. *)
Definition onMainTimer (inv : Invocation) (s : State) : State :=
  let s := kill s in
  if settled s then s
  else
    let s := cleanup (set_settled true s) in
    resolve_with
      {| text := "cursor-agent timed out after " +:+ Js.of_Z (timeoutMs inv) +:+ "ms";
         isError := true |} s.

(** [`${code}`] for an exit code that is a number or [null]. *)
Definition codeString (code : option Z) : string :=
  match code with
  | Some n => Js.of_Z n
  | None => "null"
  end.

(** [child.on('close', ...)]. *)
Definition onClose `{JsonParser} (inv : Invocation) (code : option Z)
  (s : State) : State :=
  if settled s then s
  else
    let s := cleanup (set_settled true s) in
    let s :=
      if streamJson inv && hasProgress inv && Js.truthy (Js.trim (partialLine s))
      then match JSON_parse (Js.trim (partialLine s)) with
           | Some event => handleStreamEvent inv event s
           | None => s
           end
      else s in
    if bool_decide (code = Some 0) || (killedByIdle s && Js.truthy (out s)) then
      resolve_with {| text := Js.or_else (out s) "(no output)"; isError := false |} s
    else
      resolve_with
        {| text := "cursor-agent exited with code " +:+ codeString code +:+ Js.nl +:+
                   Js.or_else (err s) (Js.or_else (out s) "(no output)");
           isError := true |} s.

(** What the event loop can deliver to one invocation. *)
Inductive Event :=
  | StdoutData (chunk : string)
  | StderrData (chunk : string)
  | ProcessError (msg str : string)
  | ProcessClose (code : option Z)
  | MainTimerFires
  | IdleTimerFires.

(** One turn of the event loop.  A timer callback runs only while its timer
    is pending, and running it uses the timer up. *)
Definition step `{JsonParser} (inv : Invocation) (s : State) (e : Event)
  : State :=
  match e with
  | StdoutData chunk => onStdoutData inv chunk s
  | StderrData chunk => onStderrData chunk s
  | ProcessError msg str => onError inv msg str s
  | ProcessClose code => onClose inv code s
  | MainTimerFires =>
      match mainTimer s with
      | TPending => onMainTimer inv (set_mainTimer TStale s)
      | _ => s
      end
  | IdleTimerFires =>
      match idleTimer s with
      | TPending => onIdleTimer (set_idleTimer TStale s)
      | _ => s
      end
  end.

(** The promise executor up to its return: the child is spawned and the main
    timer armed. *)
Definition executor (inv : Invocation) : State :=
  {| settled := false; out := EmptyString; err := EmptyString;
     idleTimer := TNull; mainTimer := TPending; killedByIdle := false;
     accumulatedText := EmptyString; toolCount := 0;
     partialLine := EmptyString;
     spawned := [(cmd inv, spawnArgv inv)];
     resolved := []; reported := []; kills := 0 |}.

Definition run `{JsonParser} (inv : Invocation) (events : list Event) : State :=
  foldl (step inv) (executor inv) events.

(** The synchronous prefix of [invokeCursorAgent]: validation and argument
    composition.  A throw here rejects the returned promise. *)
Definition prepare `{PathModule} (penv : gmap string string) (cwd0 : string)
  (req : Request) : Result Invocation :=
  try! cmd := validateExecutablePath penv (executable req) in
  try! validatedCwd := validateWorkingDirectory cwd0 (cwd req) in
  try! safeEnv := getSafeEnvironment penv in
  try! env := getValidatedEnv penv in
  Ok {| cmd := cmd;
        validatedCwd := validatedCwd;
        safeEnv := safeEnv;
        spawnArgv := finalArgv env req;
        streamJson := useStreamJson req;
        hasProgress := onProgress req;
        idleMs := default 0 (CURSOR_AGENT_IDLE_EXIT_MS env);
        timeoutMs := default defaultTimeout (CURSOR_AGENT_TIMEOUT_MS env) |}.

(** [invokeCursorAgent] against the events the loop delivers to it. *)
Definition invokeCursorAgent `{PathModule} `{JsonParser}
  (penv : gmap string string) (cwd0 : string) (req : Request)
  (events : list Event) : Result State :=
  try! inv := prepare penv cwd0 req in
  Ok (run inv events).

(** A parser that knows no document: enough when no progress consumer is
    attached, since [JSON.parse] is then never called. *)
Definition noJson : JsonParser := fun _ => None.

(** A parser given by a table of lines, for concrete runs. *)
Definition tableJson (table : list (string * Json)) : JsonParser :=
  fun line => JsVal.assoc line table.

(** ** Vocabulary of the properties *)

(** The PATH-lookup sentinel. *)
Definition sentinel : string := "cursor-agent".

(** The configured override: the validated [CURSOR_AGENT_PATH], when set. *)
Definition configuredOverride (env : ValidatedEnv) : option string :=
  match CURSOR_AGENT_PATH env with
  | Some p => if Js.truthy p then Some p else None
  | None => None
  end.

(** A request that sets nothing but its argument vector. *)
Definition requestOf (args : list string) : Request :=
  {| argv := Some args; output_format := None; cwd := None;
     executable := None; model := None; force := None; print := None;
     onProgress := false; signal := None |}.

(** An [assistant] stream event carrying one text delta. *)
Definition assistantEvent (delta : string) : Json :=
  JObj [("type", JStr "assistant");
        ("message", JObj [("content", JArr [JObj [("text", JStr delta)]])])].

(** Feeding decoded events to the handler, in order. *)
Definition handleAll (inv : Invocation) (events : list Json) (s : State) : State :=
  foldl (fun s event => handleStreamEvent inv event s) s events.

(** All keys of a map satisfy [P]. *)
Definition keysWithin (P : string -> Prop) (m : gmap string string) : Prop :=
  forall key, is_Some (m !! key) -> P key.

(** An ambient environment holding credentials next to configuration. *)
Definition ambientSample : gmap string string :=
  {[ "SECRET_KEY" := "s3cr3t"; "GITHUB_TOKEN" := "ghp"; "PATH" := "/usr/bin";
     "LC_ALL" := "C"; "CURSOR_AGENT_TOKEN" := "zz";
     "CURSOR_AGENT_MODEL" := "gpt-x" ]}.

(** The part of the supervisor state that only a terminal transition
    changes. *)
Definition core (s : State) : bool * list InvocationResult * Timer :=
  (settled s, resolved s, mainTimer s).

(** The variables the stream-event handler never writes. *)
Definition frame (s : State) :=
  (settled s, out s, err s, idleTimer s, mainTimer s, killedByIdle s,
   partialLine s, spawned s, resolved s, kills s).

(** The completion sources that call [resolve]. *)
Definition terminal (e : Event) : bool :=
  match e with
  | ProcessError _ _ | ProcessClose _ | MainTimerFires => true
  | StdoutData _ | StderrData _ | IdleTimerFires => false
  end.

(** The first-settle guard and what it protects: before settling the main
    timer is pending and nothing was resolved; after settling the main timer
    is spent and exactly one result was resolved. *)
Definition guarded (s : State) : Prop :=
  if settled s
  then mainTimer s = TStale /\ exists r, resolved s = [r]
  else mainTimer s = TPending /\ resolved s = [].

(** An invocation with idle-kill at 100 ms and no progress consumer. *)
Definition idleInvocation : Invocation :=
  {| cmd := "cursor-agent"; validatedCwd := "/x/repo"; safeEnv := ∅;
     spawnArgv := ["--print"; "--output-format"; "text"; "test"];
     streamJson := false; hasProgress := false;
     idleMs := 100; timeoutMs := defaultTimeout |}.

(** An invocation with a progress consumer attached. *)
Definition progressInvocation : Invocation :=
  {| cmd := "cursor-agent"; validatedCwd := "/x/repo"; safeEnv := ∅;
     spawnArgv := ["--print"; "--output-format"; "stream-json";
                   "--stream-partial-output"; "test"];
     streamJson := true; hasProgress := true;
     idleMs := 0; timeoutMs := defaultTimeout |}.

(** A request carrying a cancellation signal that is already triggered. *)
Definition abortedRequest : Request :=
  {| argv := Some ["test"]; output_format := None; cwd := None;
     executable := None; model := None; force := None; print := None;
     onProgress := false;
     signal := Some {| aborted := true; reason := "Test cancellation" |} |}.

(** Replacing the [signal] property of a request. *)
Definition withSignal (sig : option AbortSignal) (req : Request) : Request :=
  {| argv := argv req; output_format := output_format req; cwd := cwd req;
     executable := executable req; model := model req; force := force req;
     print := print req; onProgress := onProgress req; signal := sig |}.

(** What a caller observes of an invocation: the spawn calls, the resolved
    results and the guard; [None] when the promise is rejected. *)
Definition observed (r : Result State)
  : option (list (string * list string) * list InvocationResult * bool) :=
  match r with
  | inl s => Some (spawned s, resolved s, settled s)
  | inr _ => None
  end.

(** Two ambient environments agree on the given variables. *)
Definition agreeOn (keys : list string) (e1 e2 : gmap string string) : Prop :=
  forall key, In key keys -> e1 !! key = e2 !! key.

(** What the event handlers read of an invocation: everything but the
    sanitized environment, of which only [CURSOR_AGENT_PATH] is read. *)
Definition view (inv : Invocation) :=
  (cmd inv, validatedCwd inv, spawnArgv inv, streamJson inv, hasProgress inv,
   idleMs inv, timeoutMs inv, safeEnv inv !! "CURSOR_AGENT_PATH").

(** The value the close handler resolves with, from the exit code and the
    state it finds. *)
Definition closeResult (code : option Z) (s : State) : InvocationResult :=
  if bool_decide (code = Some 0) || (killedByIdle s && Js.truthy (out s)) then
    {| text := Js.or_else (out s) "(no output)"; isError := false |}
  else
    {| text := "cursor-agent exited with code " +:+ codeString code +:+ Js.nl +:+
               Js.or_else (err s) (Js.or_else (out s) "(no output)");
       isError := true |}.

(** Two ambient environments that differ in their credentials only. *)
Definition ambientAlpha : gmap string string :=
  {[ "CURSOR_AGENT_PATH" := "/opt/tools/agent"; "SECRET_KEY" := "alpha";
     "PATH" := "/usr/bin" ]}.
Definition ambientBeta : gmap string string :=
  {[ "CURSOR_AGENT_PATH" := "/opt/tools/agent"; "SECRET_KEY" := "beta";
     "AWS_TOKEN" := "t0k3n"; "PATH" := "/bin" ]}.

(** The line [JSON.stringify] prints for an assistant event. *)
Definition assistantLine (delta : string) : string :=
  "{" +:+ jsonQuote "type" +:+ ":" +:+ jsonQuote "assistant" +:+ "," +:+
  jsonQuote "message" +:+ ":{" +:+ jsonQuote "content" +:+ ":[{" +:+
  jsonQuote "text" +:+ ":" +:+ jsonQuote delta +:+ "}]}}".

(** A parser that knows the two lines of the Hello / world run. *)
Definition helloWorldParser : JsonParser :=
  tableJson [ (assistantLine "Hello", assistantEvent "Hello");
              (assistantLine " world", assistantEvent " world") ].

(** A request with a progress consumer attached. *)
Definition progressRequest : Request :=
  {| argv := Some ["test"]; output_format := None; cwd := None;
     executable := None; model := None; force := None; print := None;
     onProgress := true; signal := None |}.

(** What a progress consumer receives. *)
Definition messages (r : Result State) : option (list (Z * string)) :=
  match r with
  | inl s => Some (List.map (fun p => (progress p, progress_message p)) (reported s))
  | inr _ => None
  end.

(** The stdout and stderr of the child, as delivered by a trace. *)
Fixpoint stdoutOf (events : list Event) : string :=
  match events with
  | [] => EmptyString
  | StdoutData chunk :: rest => chunk +:+ stdoutOf rest
  | _ :: rest => stdoutOf rest
  end.

Fixpoint stderrOf (events : list Event) : string :=
  match events with
  | [] => EmptyString
  | StderrData chunk :: rest => chunk +:+ stderrOf rest
  | _ :: rest => stderrOf rest
  end.

(** Whether a trace delivers any stdout data. *)
Definition isStdout (e : Event) : bool :=
  match e with
  | StdoutData _ => true
  | _ => false
  end.

(** A [tool_call] event announcing the start of a tool. *)
Definition isToolStarted (event : Json) : bool :=
  JsVal.isObject event &&
  JsVal.isStr (JsVal.get (Some event) "type") "tool_call" &&
  JsVal.isStr (JsVal.get (Some event) "subtype") "started".

(** The timer events of a trace. *)
Definition isTimer (e : Event) : bool :=
  match e with
  | MainTimerFires | IdleTimerFires => true
  | _ => false
  end.
(** The variables the stream decoder owns. *)
Definition decoderView (s : State) : string * Z * list ProgressEvent :=
  (accumulatedText s, toolCount s, reported s).
(** ** The tool layer: [runCursorAgent] and the registered tools *)

(** The public result shape: the texts of the content parts and [isError]. *)
Record ToolResult := { content : list string; toolError : bool }.

(** The options every tool schema shares ([COMMON]). *)
Record CommonArgs := {
  arg_output_format : option string;
  arg_extra_args : option (list string);
  arg_cwd : option string;
  arg_executable : option string;
  arg_model : option string;
  arg_force : option bool;
  arg_echo_prompt : option bool
}.

(** A flat arguments object of [runCursorAgent]. *)
Record RunSource := { src_prompt : option string; src_common : CommonArgs }.

(** The input of [runCursorAgent]: a flat object that may also carry a
    nested [arguments] object. *)
Record RunInput := {
  input_source : RunSource;
  input_arguments : option RunSource
}.

(** [String(prompt)] for a prompt that may be undefined. *)
Definition promptString (prompt : option string) : string :=
  default "undefined" prompt.

(** The object [runCursorAgent] reads its fields from. *)
Definition sourceOf (input : RunInput) : RunSource :=
  match input_arguments input, src_prompt (input_source input) with
  | Some nested, None => nested
  | _, _ => input_source input
  end.

(** The request [runCursorAgent] hands to [invokeCursorAgent]. *)
Definition runRequest (source : RunSource) (progress : bool) : Request :=
  {| argv := Some (default [] (arg_extra_args (src_common source)) ++
                   [promptString (src_prompt source)]);
     output_format := Some (default "text" (arg_output_format (src_common source)));
     cwd := arg_cwd (src_common source);
     executable := arg_executable (src_common source);
     model := arg_model (src_common source);
     force := arg_force (src_common source);
     print := None;
     onProgress := progress;
     signal := None |}.

Definition toolResultOf (r : InvocationResult) : ToolResult :=
  {| content := [text r]; toolError := isError r |}.

(** What a caller holds after the events delivered so far: the supervisor
    state of the child it started, and the resolved value if there is one. *)
Record Handled := { child : option State; answer : option ToolResult }.

(** [runCursorAgent]: the awaited result of the invocation, with the prompt
    echoed in front when echoing is enabled.  The right injection is a
    rejected promise. *)
Definition runCursorAgent `{PathModule} `{JsonParser}
  (penv : gmap string string) (cwd0 : string) (input : RunInput)
  (progress : bool) (events : list Event) : Result Handled :=
  let source := sourceOf input in
  let usedPrompt := promptString (src_prompt source) in
  try! debugEnv := getValidatedEnv penv in
  try! s := invokeCursorAgent penv cwd0 (runRequest source progress) events in
  try! echoEnv := getValidatedEnv penv in
  let echoEnabled :=
    CURSOR_AGENT_ECHO_PROMPT echoEnv ||
    bool_decide (arg_echo_prompt (src_common source) = Some true) in
  Ok {| child := Some s;
        answer :=
          match resolved s with
          | r :: _ =>
              Some (if echoEnabled
                    then {| content := ("Prompt used:" +:+ Js.nl +:+ usedPrompt)
                                       :: content (toolResultOf r);
                            toolError := isError r |}
                    else toolResultOf r)
          | [] => None
          end |}.

(** The [extra] context of a tool call, as far as it is read. *)
Record Extra := { progressToken : option Json; sendNotification : bool }.

(** [createProgressCallback]: whether it returns a callback. *)
Definition createProgressCallback (extra : Extra) : bool :=
  JsVal.truthy (progressToken extra) && sendNotification extra.

(** The [catch] clause every tool handler ends with. *)
Definition invalidParams (e : JsError) : ToolResult :=
  {| content := ["Invalid params: " +:+ Js.or_else (message e) "Error"];
     toolError := true |}.

Definition caught (r : Result Handled) : Handled :=
  match r with
  | inl h => h
  | inr e => {| child := None; answer := Some (invalidParams e) |}
  end.

(** [cursor_agent_run]. *)
Definition cursor_agent_run `{PathModule} `{JsonParser}
  (penv : gmap string string) (cwd0 : string) (args : RunInput) (extra : Extra)
  (events : list Event) : Handled :=
  caught (runCursorAgent penv cwd0 args (createProgressCallback extra) events).

(** [cursor_agent_chat]: the prompt is taken from the flat object or else
    from the nested one, the other fields from the nested object when there
    is one. *)
Definition cursor_agent_chat `{PathModule} `{JsonParser}
  (penv : gmap string string) (cwd0 : string) (args : RunInput) (extra : Extra)
  (events : list Event) : Handled :=
  let prompt :=
    match src_prompt (input_source args) with
    | Some p => Some p
    | None => match input_arguments args with
              | Some nested => src_prompt nested
              | None => None
              end
    end in
  let flat :=
    {| src_prompt := prompt;
       src_common := match input_arguments args with
                     | Some nested => src_common nested
                     | None => src_common (input_source args)
                     end |} in
  caught (runCursorAgent penv cwd0
            {| input_source := flat; input_arguments := None |}
            (createProgressCallback extra) events).

(** [cursor_agent_raw]. *)
Definition cursor_agent_raw `{PathModule} `{JsonParser}
  (penv : gmap string string) (cwd0 : string) (rawArgv : list string)
  (common : CommonArgs) (extra : Extra) (events : list Event) : Handled :=
  caught
    (try! s := invokeCursorAgent penv cwd0
                 {| argv := Some rawArgv;
                    output_format := Some (default "text" (arg_output_format common));
                    cwd := arg_cwd common;
                    executable := arg_executable common;
                    model := arg_model common;
                    force := arg_force common;
                    print := Some false;
                    onProgress := createProgressCallback extra;
                    signal := None |} events in
     Ok {| child := Some s; answer := toolResultOf <$> head (resolved s) |}).

(** The flat object the prompt-composing tools pass on: the composed prompt
    and the common options, [echo_prompt] left out. *)
Definition composedSource (prompt : string) (common : CommonArgs) : RunSource :=
  {| src_prompt := Some prompt;
     src_common :=
       {| arg_output_format := Some (default "text" (arg_output_format common));
          arg_extra_args := arg_extra_args common;
          arg_cwd := arg_cwd common;
          arg_executable := arg_executable common;
          arg_model := arg_model common;
          arg_force := arg_force common;
          arg_echo_prompt := None |} |}.

Definition runComposed `{PathModule} `{JsonParser}
  (penv : gmap string string) (cwd0 : string) (prompt : string)
  (common : CommonArgs) (extra : Extra) (events : list Event) : Result Handled :=
  runCursorAgent penv cwd0
    {| input_source := composedSource prompt common; input_arguments := None |}
    (createProgressCallback extra) events.

(** The prompt of [cursor_agent_edit_file]. *)
Definition editFilePrompt (validatedFile instruction : string)
  (apply dry_run : bool) (prompt : option string) : string :=
  "Edit the repository file:" +:+ Js.nl +:+
  "- File: " +:+ validatedFile +:+ Js.nl +:+
  "- Instruction: " +:+ instruction +:+ Js.nl +:+
  (if apply then "- Apply changes if safe." +:+ Js.nl
   else "- Propose a patch/diff without applying." +:+ Js.nl) +:+
  (if dry_run then "- Treat as dry-run; do not write to disk." +:+ Js.nl
   else EmptyString) +:+
  (if Js.truthy_opt prompt
   then "- Additional context: " +:+ default EmptyString prompt +:+ Js.nl
   else EmptyString).

(** [cursor_agent_edit_file]. *)
Definition cursor_agent_edit_file `{PathModule} `{JsonParser}
  (penv : gmap string string) (cwd0 : string)
  (file instruction : string) (apply dry_run : option bool)
  (prompt : option string) (common : CommonArgs) (extra : Extra)
  (events : list Event) : Handled :=
  caught
    (try! validatedFile := validateFilePath cwd0 (Some file) in
     runComposed penv cwd0
       (editFilePrompt validatedFile instruction
          (default false apply) (default false dry_run) prompt)
       common extra events).

(** [list.map((p) => validateFilePath(p))]: the first throw ends the map. *)
Fixpoint validateAll `{PathModule} (cwd0 : string) (paths : list string)
  : Result (list string) :=
  match paths with
  | [] => Ok []
  | p :: rest =>
      try! v := validateFilePath cwd0 (Some p) in
      try! vs := validateAll cwd0 rest in
      Ok (v :: vs)
  end.

(** The prompt of [cursor_agent_analyze_files]. *)
Definition analyzeFilesPrompt (validatedPaths : list string)
  (prompt : option string) : string :=
  "Analyze the following paths in the repository:" +:+ Js.nl +:+
  Js.join Js.nl (List.map (fun p => "- " +:+ p) validatedPaths) +:+ Js.nl +:+
  (if Js.truthy_opt prompt
   then "Additional prompt: " +:+ default EmptyString prompt +:+ Js.nl
   else EmptyString).

(** The handler registered as [cursor_agent_analyze_files]; [paths] is one
    path or a list of paths.  The server calls it with arguments that have
    passed [ANALYZE_FILES_SCHEMA]. *)
Definition cursor_agent_analyze_files `{PathModule} `{JsonParser}
  (penv : gmap string string) (cwd0 : string)
  (paths : string + list string) (prompt : option string)
  (common : CommonArgs) (extra : Extra) (events : list Event) : Handled :=
  let list := match paths with inl p => [p] | inr l => l end in
  caught
    (try! validatedPaths := validateAll cwd0 list in
     runComposed penv cwd0 (analyzeFilesPrompt validatedPaths prompt)
       common extra events).

(** [include == null ? [] : (Array.isArray(include) ? include : [include])]. *)
Definition globList (g : option (string + list string)) : list string :=
  match g with
  | None => []
  | Some (inl one) => [one]
  | Some (inr many) => many
  end.

Definition globLines (globs : list string) : string :=
  Js.join Js.nl (List.map (fun p => "  - " +:+ p) globs).

(** The prompt of [cursor_agent_search_repo]. *)
Definition searchRepoPrompt (query : string) (inc exc : list string) : string :=
  "Search the repository for occurrences relevant to:" +:+ Js.nl +:+
  "- Query: " +:+ query +:+ Js.nl +:+
  (match inc with
   | [] => EmptyString
   | _ => "- Include globs:" +:+ Js.nl +:+ globLines inc +:+ Js.nl
   end) +:+
  (match exc with
   | [] => EmptyString
   | _ => "- Exclude globs:" +:+ Js.nl +:+ globLines exc +:+ Js.nl
   end) +:+
  "Return concise findings with file paths and line references.".

(** [cursor_agent_search_repo]. *)
Definition cursor_agent_search_repo `{PathModule} `{JsonParser}
  (penv : gmap string string) (cwd0 : string) (query : string)
  (include exclude : option (string + list string))
  (common : CommonArgs) (extra : Extra) (events : list Event) : Handled :=
  caught
    (runComposed penv cwd0
       (searchRepoPrompt query (globList include) (globList exclude))
       common extra events).

(** The prompt of [cursor_agent_plan_task]. *)
Definition planTaskPrompt (goal : string) (cons : list string) : string :=
  "Create a step-by-step plan to accomplish the following goal:" +:+ Js.nl +:+
  "- Goal: " +:+ goal +:+ Js.nl +:+
  (match cons with
   | [] => EmptyString
   | _ => "- Constraints:" +:+ Js.nl +:+ globLines cons +:+ Js.nl
   end) +:+
  "Provide a numbered list of actions.".

(** [cursor_agent_plan_task]. *)
Definition cursor_agent_plan_task `{PathModule} `{JsonParser}
  (penv : gmap string string) (cwd0 : string) (goal : string)
  (constraints : option (list string))
  (common : CommonArgs) (extra : Extra) (events : list Event) : Handled :=
  caught
    (runComposed penv cwd0 (planTaskPrompt goal (default [] constraints))
       common extra events).

(** The tools the server registers, by the validated [EXECUTING_CLIENT]. *)
Definition registeredTools (executingClient : option string) : list string :=
  ["cursor_agent_chat"; "cursor_agent_raw"] ++
  (if bool_decide (executingClient = Some "cursor") then []
   else ["cursor_agent_edit_file"; "cursor_agent_analyze_files";
         "cursor_agent_search_repo"; "cursor_agent_plan_task";
         "cursor_agent_run"]).

(** Common options with nothing set. *)
Definition noOptions : CommonArgs :=
  {| arg_output_format := None; arg_extra_args := None; arg_cwd := None;
     arg_executable := None; arg_model := None; arg_force := None;
     arg_echo_prompt := None |}.

(** A tool call without progress token. *)
Definition noExtra : Extra := {| progressToken := None; sendNotification := false |}.
(** The child a tool call started was spawned once, with [prompt] as its
    last argument. *)
Definition spawnsWithPrompt (h : Handled) (prompt : string) : Prop :=
  forall s, child h = Some s ->
    exists cmd args, spawned s = [(cmd, args)] /\ last args = Some prompt.

(** Replacing the [echo_prompt] option. *)
Definition withEcho (echo : option bool) (common : CommonArgs) : CommonArgs :=
  {| arg_output_format := arg_output_format common;
     arg_extra_args := arg_extra_args common;
     arg_cwd := arg_cwd common;
     arg_executable := arg_executable common;
     arg_model := arg_model common;
     arg_force := arg_force common;
     arg_echo_prompt := echo |}.

(** A string of decimal digits. *)
Fixpoint isDigits (s : string) : bool :=
  match s with
  | EmptyString => true
  | String c t =>
      match Ascii.is_nat c with
      | Some _ => isDigits t
      | None => false
      end
  end.

(** [Number.MAX_SAFE_INTEGER]: up to here a JS number is an exact integer
    and [String] renders it in plain decimal. *)
Definition MAX_SAFE_INTEGER : Z := 2 ^ 53 - 1.
(** Segments [normalizeSegments] skips. *)
Definition isDot (seg : string) : bool :=
  Js.eqb seg EmptyString || Js.eqb seg ".".

(** The stack [normalizeSegments] ends with (last kept segment first). *)
Fixpoint segmentStack (allowAboveRoot : bool) (stack segs : list string)
  : list string :=
  match segs with
  | [] => stack
  | seg :: rest =>
      if isDot seg then segmentStack allowAboveRoot stack rest
      else if Js.eqb seg ".." then
        match stack with
        | top :: below =>
            if Js.eqb top ".." then
              segmentStack allowAboveRoot
                (if allowAboveRoot then ".." :: stack else stack) rest
            else segmentStack allowAboveRoot below rest
        | [] =>
            segmentStack allowAboveRoot
              (if allowAboveRoot then [".."] else []) rest
        end
      else segmentStack allowAboveRoot (seg :: stack) rest
  end.

(** The segments of a path that [normalizeSegments] looks at. *)
Definition words (s : string) : list string :=
  List.filter (fun seg => negb (isDot seg)) (Js.split "/" s).


(** The validated form of a configured [CURSOR_AGENT_PATH], as far as it
    can serve as override: the configured value trimmed and, when its
    normalization is absolute, normalized; none when the variable is unset,
    empty or blank. *)
Definition validatedOverride `{PathModule} (raw : option string) : option string :=
  match raw with
  | Some v =>
      let trimmed := Js.trim v in
      let normalized := normalize trimmed in
      let p := if isAbsolute normalized then normalized else trimmed in
      if Js.truthy trimmed && Js.truthy p then Some p else None
  | None => None
  end.

(** Whether the idle timer has fired in a trace without terminal event,
    given whether it is armed at the start: a chunk of stdout arms it when
    idle-kill is enabled, and once fired it has to be armed again. *)
Fixpoint idleFired (idleMs : Z) (armed : bool) (events : list Event) : bool :=
  match events with
  | [] => false
  | StdoutData _ :: rest => idleFired idleMs (armed || (0 <? idleMs)) rest
  | IdleTimerFires :: rest => armed || idleFired idleMs false rest
  | _ :: rest => idleFired idleMs armed rest
  end.

(** The part of [COMMON] that can refuse a value of the right type:
    [output_format] is one of three names. *)
Definition COMMON (common : CommonArgs) : bool :=
  match arg_output_format common with
  | None => true
  | Some f => Js.eqb f "text" || Js.eqb f "json" || Js.eqb f "markdown"
  end.

(** [ANALYZE_FILES_SCHEMA]: [paths] is a non-empty string or a non-empty
    array of non-empty strings. *)
Definition ANALYZE_FILES_SCHEMA (paths : string + list string)
  (common : CommonArgs) : bool :=
  match paths with
  | inl p => Js.truthy p
  | inr l => negb (bool_decide (l = [])) && forallb Js.truthy l
  end && COMMON common.

(** A call of a registered tool: the server parses the arguments with the
    schema the tool was registered with and runs the handler only when they
    pass; [None] stands for the server's own input-validation error. *)
Definition callTool (accepted : bool) (handler : Handled) : option Handled :=
  if accepted then Some handler else None.

(** * Properties *)

(** ** String facts *)

Lemma eqb_true (a b : string) : Js.eqb a b = true <-> a = b.
Proof. apply String.eqb_eq. Qed.

Lemma eqb_false (a b : string) : Js.eqb a b = false <-> a <> b.
Proof. apply String.eqb_neq. Qed.

Lemma truthy_false (s : string) : Js.truthy s = false <-> s = EmptyString.
Proof. destruct s; simpl; split; congruence. Qed.

Lemma strlen_append (a b : string) : strlen (a +:+ b) = strlen a + strlen b.
Proof.
  unfold strlen. induction a as [|c a IH]; [reflexivity|].
  change (String c a +:+ b) with (String c (a +:+ b)).
  cbn [String.length]. lia.
Qed.

Lemma blank_trim (p : string) : blank (Some p) = true -> Js.trim p = EmptyString.
Proof.
  unfold blank. intros Hb. apply orb_true_iff in Hb as [Hp | Ht].
  - apply negb_true_iff, truthy_false in Hp. subst p. reflexivity.
  - apply negb_true_iff, truthy_false in Ht. exact Ht.
Qed.

Lemma not_blank_trim (p : string) :
  blank (Some p) = false -> Js.truthy (Js.trim p) = true.
Proof.
  unfold blank. intros Hb. apply orb_false_iff in Hb as [_ Ht].
  now apply negb_false_iff in Ht.
Qed.

(** ** Path containment (C2) *)

Section Containment.
Context `{PathModule}.
Variable cwd0 : string.

(** Resolving the empty path yields the resolved base directory, as
    [path.resolve] does for the absolute [process.cwd()]. *)
Hypothesis resolve_empty : resolve cwd0 EmptyString = resolve cwd0 cwd0.

Lemma outside_true (resolved base : string) :
  outside resolved base = true <->
  resolved <> base /\ Js.startsWith resolved (base +:+ sep) = false.
Proof.
  unfold outside. rewrite andb_true_iff, !negb_true_iff, eqb_false. tauto.
Qed.

Lemma escaping_not_blank (p : string) :
  resolve cwd0 (Js.trim p) <> resolve cwd0 cwd0 -> blank (Some p) = false.
Proof.
  intros Hne. destruct (blank (Some p)) eqn:Hb; [|reflexivity].
  apply blank_trim in Hb. rewrite Hb, resolve_empty in Hne. congruence.
Qed.

Lemma validateWorkingDirectory_escape (p : string) :
  resolve cwd0 (Js.trim p) <> resolve cwd0 cwd0 ->
  Js.startsWith (resolve cwd0 (Js.trim p)) (resolve cwd0 cwd0 +:+ sep) = false ->
  exists msg, validateWorkingDirectory cwd0 (Some p) = Throw PathEscape msg.
Proof.
  intros Hne Hpre. unfold validateWorkingDirectory.
  rewrite (escaping_not_blank p Hne).
  change (default EmptyString (Some p)) with p. cbv zeta.
  assert (Ho : outside (resolve cwd0 (Js.trim p)) (resolve cwd0 cwd0) = true)
    by (apply outside_true; auto).
  rewrite Ho. eauto.
Qed.

Lemma validateFilePath_escape (p : string) :
  resolve cwd0 (Js.trim p) <> resolve cwd0 cwd0 ->
  Js.startsWith (resolve cwd0 (Js.trim p)) (resolve cwd0 cwd0 +:+ sep) = false ->
  exists msg, validateFilePath cwd0 (Some p) = Throw PathEscape msg.
Proof.
  intros Hne Hpre. unfold validateFilePath.
  rewrite (escaping_not_blank p Hne).
  change (default EmptyString (Some p)) with p. cbv zeta.
  assert (Ho : outside (resolve cwd0 (Js.trim p)) (resolve cwd0 cwd0) = true)
    by (apply outside_true; auto).
  rewrite Ho. eauto.
Qed.

End Containment.

(** On POSIX the hypothesis on the empty path holds for every absolute
    working directory. *)
Lemma posix_resolve_empty (cwd0 : string) :
  Posix.isAbsolute cwd0 = true ->
  Posix.resolve cwd0 EmptyString = Posix.resolve cwd0 cwd0.
Proof.
  destruct cwd0 as [|c t]; [discriminate|]. intros Habs.
  unfold Posix.resolve. rewrite Habs.
  change (Posix.isAbsolute EmptyString) with false. cbv iota.
  replace (String c t +:+ "/" +:+ EmptyString) with (String c t +:+ "/"); [reflexivity|].
  f_equal.
Qed.

(** C2. Every working-directory or file-path input whose absolute resolution
    is neither the base directory nor a string starting with the base
    directory followed by the path separator is rejected with a PathEscape
    error by [validateWorkingDirectory] and by [validateFilePath]. *)
Theorem validators_reject_escape `{PathModule} (cwd0 p : string) :
  resolve cwd0 EmptyString = resolve cwd0 cwd0 ->
  resolve cwd0 (Js.trim p) <> resolve cwd0 cwd0 ->
  Js.startsWith (resolve cwd0 (Js.trim p)) (resolve cwd0 cwd0 +:+ sep) = false ->
  (exists msg, validateWorkingDirectory cwd0 (Some p) = Throw PathEscape msg) /\
  (exists msg, validateFilePath cwd0 (Some p) = Throw PathEscape msg).
Proof.
  intros Hempty Hne Hpre. split.
  - now apply validateWorkingDirectory_escape.
  - now apply validateFilePath_escape.
Qed.

(** The sibling directory [/x/repo-evil] against the base [/x/repo]. *)
Lemma validators_reject_escape_witness :
  (exists msg, @validateWorkingDirectory posix "/x/repo" (Some "/x/repo-evil")
               = Throw PathEscape msg) /\
  (exists msg, @validateFilePath posix "/x/repo" (Some "/x/repo-evil")
               = Throw PathEscape msg).
Proof.
  apply (@validators_reject_escape posix "/x/repo" "/x/repo-evil").
  - reflexivity.
  - vm_compute. discriminate.
  - reflexivity.
Defined.

(** ** Executable policy (C3) *)

(** Under a configuration that validates: the override, or the sentinel
    when there is none, for an empty or whitespace argument; the sentinel
    when the argument trims to it; the override when the argument trims to
    exactly the override; InvalidExecutable for every other argument. *)
Lemma validateExecutablePath_cases `{PathModule}
  (penv : gmap string string) (env : ValidatedEnv) (explicit : option string) :
  getValidatedEnv penv = Ok env ->
  (blank explicit = true ->
   validateExecutablePath penv explicit
   = Ok (default sentinel (configuredOverride env))) /\
  (blank explicit = false ->
   let trimmed := Js.trim (default EmptyString explicit) in
   (trimmed = sentinel -> validateExecutablePath penv explicit = Ok sentinel) /\
   (configuredOverride env = Some trimmed ->
    validateExecutablePath penv explicit = Ok trimmed) /\
   (trimmed <> sentinel -> configuredOverride env <> Some trimmed ->
    exists msg, validateExecutablePath penv explicit = Throw InvalidExecutable msg)).
Proof.
  intros Henv. unfold validateExecutablePath, configuredOverride, sentinel.
  rewrite Henv. cbn [bindR Ok]. split.
  - intros ->. destruct (CURSOR_AGENT_PATH env) as [p|]; [|reflexivity].
    destruct (Js.truthy p); reflexivity.
  - intros ->. cbv zeta. repeat split.
    + intros ->. reflexivity.
    + destruct (CURSOR_AGENT_PATH env) as [p|]; [|discriminate].
      destruct (Js.truthy p) eqn:Hp; [|discriminate].
      intros [= <-]. destruct (Js.eqb p "cursor-agent") eqn:Hs.
      * apply eqb_true in Hs. now rewrite Hs.
      * cbn [andb]. now rewrite (proj2 (eqb_true p p) eq_refl).
    + intros Hs Hov. rewrite (proj2 (eqb_false _ _) Hs).
      destruct (CURSOR_AGENT_PATH env) as [p|]; [|eauto].
      destruct (Js.truthy p) eqn:Hp; cbn [andb]; [|eauto].
      destruct (Js.eqb (Js.trim (default EmptyString explicit)) p) eqn:He; [|eauto].
      apply eqb_true in He. congruence.
Qed.


(** ** Argument composition (C8) *)

(** C8. For the argument vector [-m custom-model "prompt text"] the composed
    argv holds exactly one model flag, the caller's [-m custom-model]; no
    [--model] is injected whatever default model the environment configures;
    and ["prompt text"] is the last element. *)
Theorem finalArgv_custom_model (env : ValidatedEnv) :
  let composed := finalArgv env (requestOf ["-m"; "custom-model"; "prompt text"]) in
  composed
  = ["--print"; "--output-format"; "text"; "-m"; "custom-model"] ++
    (if CURSOR_AGENT_FORCE env then ["-f"] else []) ++ ["prompt text"] /\
  List.filter isModelFlag composed = ["-m"] /\
  ~ In "--model" composed /\
  last composed = Some "prompt text" /\
  match @prepare posix {[ "CURSOR_AGENT_MODEL" := "gpt-x" ]} "/x/repo"
          (requestOf ["-m"; "custom-model"; "prompt text"]) with
  | inl inv => Some (cmd inv, spawnArgv inv)
  | inr _ => None
  end
  = Some ("cursor-agent",
          ["--print"; "--output-format"; "text"; "-m"; "custom-model"; "prompt text"]).
Proof.
  assert (Hcomposed :
    finalArgv env (requestOf ["-m"; "custom-model"; "prompt text"])
    = ["--print"; "--output-format"; "text"; "-m"; "custom-model"] ++
      (if CURSOR_AGENT_FORCE env then ["-f"] else []) ++ ["prompt text"]).
  { unfold finalArgv, requestOf, effectiveForce, effectiveModel; cbn.
    destruct (CURSOR_AGENT_FORCE env), (CURSOR_AGENT_MODEL env); reflexivity. }
  cbv zeta. rewrite Hcomposed.
  destruct (CURSOR_AGENT_FORCE env); repeat split; try reflexivity.
  - cbn. intros [|[|[|[|[|[|[|[]]]]]]]]; discriminate.
  - cbn. intros [|[|[|[|[|[|[]]]]]]]; discriminate.
Qed.

(** ** Sanitized environment (C4) *)

Section SafeEnvironment.

(** What the loop over the ambient entries leaves under a key: the value
    already written from the validated configuration, else the ambient
    value when the key is allow-listed, else nothing. *)
Lemma copied_lookup (start penv : gmap string string) (key : string) :
  map_fold (fun key value safeEnv => copyEntry safeEnv (key, value)) start penv
    !! key
  = match start !! key with
    | Some v => Some v
    | None => if allowedKey key then penv !! key else None
    end.
Proof.
  revert key.
  apply (map_fold_weak_ind
           (fun (r m : gmap string string) =>
              forall key, r !! key
                = match start !! key with
                  | Some v => Some v
                  | None => if allowedKey key then m !! key else None
                  end)).
  - intros key. rewrite lookup_empty.
    destruct (start !! key); [reflexivity|]. now destruct (allowedKey key).
  - intros i x m r Hfresh IH key. unfold copyEntry.
    destruct (decide (key = i)) as [->|Hne].
    + specialize (IH i). rewrite Hfresh in IH.
      destruct (allowedKey i) eqn:Hallowed.
      * case_bool_decide as Hin.
        -- rewrite IH. destruct (start !! i); [reflexivity|].
           rewrite IH in Hin. now destruct Hin.
        -- rewrite lookup_insert_eq.
           destruct (start !! i) eqn:Hs; [|now rewrite lookup_insert_eq].
           exfalso. apply Hin. rewrite IH. eauto.
      * exact IH.
    + specialize (IH key).
      assert (Hm : <[i:=x]> m !! key = m !! key) by now apply lookup_insert_ne.
      rewrite Hm.
      destruct (allowedKey i); [|exact IH].
      case_bool_decide; [exact IH|].
      rewrite lookup_insert_ne by congruence. exact IH.
Qed.

Lemma keysWithin_empty P : keysWithin P ∅.
Proof. intros key [v Hv]. now rewrite lookup_empty in Hv. Qed.

Lemma keysWithin_insert P (m : gmap string string) k v :
  P k -> keysWithin P m -> keysWithin P (<[k:=v]> m).
Proof.
  intros Hk Hm key Hsome. destruct (decide (key = k)) as [->|Hne]; [exact Hk|].
  apply Hm. now rewrite lookup_insert_ne in Hsome by congruence.
Qed.

Lemma validatedPart_keys penv env :
  keysWithin (fun key => In key recognized) (validatedPart penv env).
Proof.
  unfold validatedPart. cbv zeta.
  repeat match goal with
         | |- keysWithin _ (if ?c then _ else _) => destruct c
         | |- keysWithin _ (match ?o with Some _ => _ | None => _ end) => destruct o
         | |- keysWithin _ (<[_:=_]> _) =>
             apply keysWithin_insert; [unfold recognized; cbn; tauto|]
         | |- keysWithin _ ∅ => apply keysWithin_empty
         end.
Qed.

End SafeEnvironment.

Lemma allowedKey_true (key : string) :
  allowedKey key = true ->
  In key whitelist \/ Js.startsWith key cursorAgentPrefix = true \/
  Js.startsWith key npmConfigPrefix = true \/ Js.startsWith key lcPrefix = true.
Proof.
  unfold allowedKey. rewrite !orb_true_iff, bool_decide_eq_true, list_elem_of_In.
  tauto.
Qed.

Lemma listed_not_secret (key : string) :
  In key recognized \/ In key whitelist ->
  Js.includes key "SECRET" = false /\ Js.includes key "TOKEN" = false.
Proof.
  unfold recognized, whitelist. cbn [In].
  intros H; repeat destruct H as [H|H]; try contradiction; subst key;
    split; reflexivity.
Qed.

(** C4. Every key of the object [getSafeEnvironment] returns is a recognised
    configuration variable, a member of the fixed allow-list, or starts with
    one of the three allow-listed prefixes; so a key containing SECRET or
    TOKEN is present only when it carries one of those prefixes. *)
Theorem getSafeEnvironment_keys `{PathModule}
  (penv safe : gmap string string) (key : string) :
  getSafeEnvironment penv = Ok safe ->
  is_Some (safe !! key) ->
  (In key recognized \/ In key whitelist \/
   Js.startsWith key cursorAgentPrefix = true \/
   Js.startsWith key npmConfigPrefix = true \/
   Js.startsWith key lcPrefix = true) /\
  (Js.includes key "SECRET" = true \/ Js.includes key "TOKEN" = true ->
   Js.startsWith key cursorAgentPrefix = true \/
   Js.startsWith key npmConfigPrefix = true \/
   Js.startsWith key lcPrefix = true).
Proof.
  unfold getSafeEnvironment. intros Hsafe Hsome.
  destruct (getValidatedEnv penv) as [env|e] eqn:Henv; [|discriminate].
  cbn [bindR] in Hsafe. injection Hsafe as <-.
  rewrite copied_lookup in Hsome.
  assert (Hkey : In key recognized \/ In key whitelist \/
                 Js.startsWith key cursorAgentPrefix = true \/
                 Js.startsWith key npmConfigPrefix = true \/
                 Js.startsWith key lcPrefix = true).
  { destruct (validatedPart penv env !! key) eqn:Hv.
    - left. apply (validatedPart_keys penv env). eauto.
    - destruct (allowedKey key) eqn:Hallowed.
      + right. now apply allowedKey_true.
      + now destruct Hsome. }
  split; [exact Hkey|].
  intros Hsecret.
  destruct Hkey as [Hr | [Hw | Hp]]; [| |exact Hp].
  - destruct (listed_not_secret key (or_introl Hr)) as [Hs Ht].
    destruct Hsecret; congruence.
  - destruct (listed_not_secret key (or_intror Hw)) as [Hs Ht].
    destruct Hsecret; congruence.
Qed.

(** The sample environment: credentials are dropped, the prefixed key stays. *)
Lemma getSafeEnvironment_keys_witness :
  exists safe,
    @getSafeEnvironment posix ambientSample = Ok safe /\
    safe !! "SECRET_KEY" = None /\ safe !! "GITHUB_TOKEN" = None /\
    safe !! "CURSOR_AGENT_TOKEN" = Some "zz" /\
    (Js.startsWith "CURSOR_AGENT_TOKEN" cursorAgentPrefix = true \/
     Js.startsWith "CURSOR_AGENT_TOKEN" npmConfigPrefix = true \/
     Js.startsWith "CURSOR_AGENT_TOKEN" lcPrefix = true).
Proof.
  assert (Hrun : exists safe,
             @getSafeEnvironment posix ambientSample = Ok safe /\
             safe !! "SECRET_KEY" = None /\ safe !! "GITHUB_TOKEN" = None /\
             safe !! "CURSOR_AGENT_TOKEN" = Some "zz").
  { eexists. split; [vm_compute; reflexivity|].
    repeat split; vm_compute; reflexivity. }
  destruct Hrun as (safe & Hsafe & Hsecret & Htoken & Hkept).
  exists safe. repeat split; try assumption.
  apply (@getSafeEnvironment_keys posix ambientSample safe "CURSOR_AGENT_TOKEN" Hsafe).
  - rewrite Hkept. eauto.
  - right. reflexivity.
Defined.

(** ** The supervisor's single resolution (C1) *)

Section Supervisor.
Context `{JsonParser}.
Variable inv : Invocation.

Lemma handleStreamEvent_frame (event : Json) (s : State) :
  frame (handleStreamEvent inv event s) = frame s.
Proof.
  unfold handleStreamEvent. repeat case_match; reflexivity.
Qed.

Lemma decodeLine_frame (s : State) (line : string) :
  frame (decodeLine inv s line) = frame s.
Proof.
  unfold decodeLine. repeat case_match; try reflexivity.
  apply handleStreamEvent_frame.
Qed.

Lemma decodeLines_frame (lines : list string) (s : State) :
  frame (foldl (decodeLine inv) s lines) = frame s.
Proof.
  revert s. induction lines as [|line lines IH]; intros s; [reflexivity|].
  cbn [foldl]. rewrite IH. apply decodeLine_frame.
Qed.

Lemma frame_core (s t : State) : frame s = frame t -> core s = core t.
Proof. unfold frame, core. intros [= -> _ _ _ -> _ _ _ -> _]. reflexivity. Qed.

Lemma scheduleIdleKill_core (s : State) : core (scheduleIdleKill inv s) = core s.
Proof. unfold scheduleIdleKill. case_match; reflexivity. Qed.

Lemma onStdoutData_core (chunk : string) (s : State) :
  core (onStdoutData inv chunk s) = core s.
Proof.
  unfold onStdoutData. cbv zeta.
  repeat case_match.
  - etransitivity; [apply frame_core, decodeLines_frame|].
    etransitivity; [|apply (scheduleIdleKill_core (set_out (out s +:+ chunk) s))].
    reflexivity.
  - etransitivity; [|apply (scheduleIdleKill_core (set_out (out s +:+ chunk) s))].
    reflexivity.
  - etransitivity; [|apply (scheduleIdleKill_core (set_out (out s +:+ chunk) s))].
    reflexivity.
Qed.

(** Output, stderr data and the idle timer never touch the guard. *)
Lemma step_nonterminal_core (s : State) (e : Event) :
  terminal e = false -> core (step inv s e) = core s.
Proof.
  destruct e; try discriminate; intros _; cbn [step].
  - apply onStdoutData_core.
  - reflexivity.
  - destruct (idleTimer s); reflexivity.
Qed.

(** Once settled, close, error and the main timer leave the state as it
    is. *)
Lemma step_terminal_settled (s : State) (e : Event) :
  guarded s -> settled s = true -> terminal e = true -> step inv s e = s.
Proof.
  unfold guarded. intros Hg Hs Ht. rewrite Hs in Hg. destruct Hg as [Hm _].
  destruct e; try discriminate; cbn [step].
  - unfold onError. now rewrite Hs.
  - unfold onClose. now rewrite Hs.
  - now rewrite Hm.
Qed.

Lemma onClose_settles (code : option Z) (s : State) :
  settled s = false ->
  exists r, core (onClose inv code s)
            = (true, resolved s ++ [r], clearTimeout (mainTimer s)) /\
            idleTimer (onClose inv code s) = clearTimeout (idleTimer s).
Proof.
  intros Hs. unfold onClose. rewrite Hs. cbv zeta.
  set (s1 := cleanup (set_settled true s)).
  set (s2 := if streamJson inv && hasProgress inv && Js.truthy (Js.trim (partialLine s1))
             then match JSON_parse (Js.trim (partialLine s1)) with
                  | Some event => handleStreamEvent inv event s1
                  | None => s1
                  end
             else s1).
  assert (Hf : frame s2 = frame s1).
  { unfold s2. repeat case_match; try reflexivity. apply handleStreamEvent_frame. }
  assert (Hc : settled s2 = true /\ resolved s2 = resolved s /\
               mainTimer s2 = clearTimeout (mainTimer s) /\
               idleTimer s2 = clearTimeout (idleTimer s)).
  { unfold frame in Hf. injection Hf as Hse _ _ Hi Hm _ _ _ Hr _.
    rewrite Hse, Hr, Hm, Hi. repeat split. }
  destruct Hc as (Hse & Hr & Hm & Hi). clearbody s2.
  case_match; eexists; unfold core; cbn; rewrite Hse, Hr, Hm, Hi; split; reflexivity.
Qed.

(** Every turn of the event loop keeps the guard. *)
Lemma step_guarded (s : State) (e : Event) :
  guarded s -> guarded (step inv s e).
Proof.
  intros Hg. destruct (terminal e) eqn:Ht.
  - destruct (settled s) eqn:Hs.
    + now rewrite (step_terminal_settled s e Hg Hs Ht).
    + unfold guarded in *. rewrite Hs in Hg. destruct Hg as [Hm Hr].
      destruct e; try discriminate; cbn [step].
      * unfold onError. rewrite Hs. cbn. rewrite Hm, Hr. eauto.
      * destruct (onClose_settles code s Hs) as (r & Hc & _).
        unfold core in Hc. injection Hc as -> -> ->.
        rewrite Hm, Hr. cbn. eauto.
      * rewrite Hm. unfold onMainTimer. cbn. rewrite Hs. cbn. rewrite Hr. eauto.
  - pose proof (step_nonterminal_core s e Ht) as Hc.
    unfold core in Hc. injection Hc as Hse Hr Hm.
    unfold guarded in *. now rewrite Hse, Hr, Hm.
Qed.

Lemma run_snoc (events : list Event) (e : Event) :
  run inv (events ++ [e]) = step inv (run inv events) e.
Proof. unfold run. now rewrite foldl_app. Qed.

Lemma run_guarded (events : list Event) : guarded (run inv events).
Proof.
  induction events as [|e events IH] using rev_ind.
  - cbn. auto.
  - rewrite run_snoc. now apply step_guarded.
Qed.

(** A turn settles exactly when it is a terminal source or the invocation
    was settled already. *)
Lemma step_settled_iff (s : State) (e : Event) :
  guarded s ->
  settled (step inv s e) = settled s || terminal e.
Proof.
  intros Hg. destruct (terminal e) eqn:Ht.
  - rewrite orb_true_r. destruct (settled s) eqn:Hs.
    + now rewrite (step_terminal_settled s e Hg Hs Ht).
    + unfold guarded in Hg. rewrite Hs in Hg. destruct Hg as [Hm _].
      destruct e; try discriminate; cbn [step].
      * unfold onError. now rewrite Hs.
      * destruct (onClose_settles code s Hs) as (r & Hc & _).
        unfold core in Hc. now injection Hc.
      * rewrite Hm. unfold onMainTimer. cbn. now rewrite Hs.
  - rewrite orb_false_r.
    pose proof (step_nonterminal_core s e Ht) as Hc.
    unfold core in Hc. now injection Hc.
Qed.

Lemma run_settled_iff (events : list Event) :
  settled (run inv events) = existsb terminal events.
Proof.
  induction events as [|e events IH] using rev_ind; [reflexivity|].
  rewrite run_snoc, step_settled_iff by apply run_guarded.
  rewrite IH, existsb_app. cbn. now rewrite orb_false_r.
Qed.

(** The turn that settles leaves no timer pending. *)
Lemma step_settling_clears (s : State) (e : Event) :
  guarded s -> settled s = false -> settled (step inv s e) = true ->
  mainTimer (step inv s e) = TStale /\ idleTimer (step inv s e) <> TPending.
Proof.
  intros Hg Hs Hafter.
  rewrite step_settled_iff, Hs in Hafter by assumption. cbn in Hafter.
  unfold guarded in Hg. rewrite Hs in Hg. destruct Hg as [Hm _].
  destruct e; try discriminate; cbn [step].
  - unfold onError. rewrite Hs. cbn. rewrite Hm. split; [reflexivity|].
    destruct (idleTimer s); discriminate.
  - destruct (onClose_settles code s Hs) as (r & Hc & Hi).
    unfold core in Hc. injection Hc as _ _ ->. rewrite Hi, Hm.
    split; [reflexivity|]. destruct (idleTimer s); discriminate.
  - rewrite Hm. unfold onMainTimer. cbn. rewrite Hs. cbn.
    split; [reflexivity|]. destruct (idleTimer s); discriminate.
Qed.

(** After settling no turn resolves again or unsets the guard. *)
Lemma step_settled_keeps (s : State) (e : Event) :
  guarded s -> settled s = true ->
  settled (step inv s e) = true /\ resolved (step inv s e) = resolved s.
Proof.
  intros Hg Hs. destruct (terminal e) eqn:Ht.
  - now rewrite (step_terminal_settled s e Hg Hs Ht).
  - pose proof (step_nonterminal_core s e Ht) as Hc.
    unfold core in Hc. injection Hc as Hse Hr _. now rewrite Hse, Hr.
Qed.

(** The close handler of an unsettled invocation resolves once, with
    [closeResult] of the state it was entered in. *)
Lemma onClose_resolves (code : option Z) (s : State) :
  settled s = false ->
  resolved (onClose inv code s) = resolved s ++ [closeResult code s].
Proof.
  intros Hs. unfold onClose, closeResult. rewrite Hs. cbv zeta.
  set (s1 := cleanup (set_settled true s)).
  set (s2 := if streamJson inv && hasProgress inv && Js.truthy (Js.trim (partialLine s1))
             then match JSON_parse (Js.trim (partialLine s1)) with
                  | Some event => handleStreamEvent inv event s1
                  | None => s1
                  end
             else s1).
  assert (Hf : frame s2 = frame s1).
  { unfold s2. repeat case_match; try reflexivity. apply handleStreamEvent_frame. }
  assert (Hc : out s2 = out s /\ err s2 = err s /\
               killedByIdle s2 = killedByIdle s /\ resolved s2 = resolved s).
  { unfold frame in Hf. injection Hf as _ Ho He _ _ Hk _ _ Hr _.
    rewrite Ho, He, Hk, Hr. repeat split. }
  destruct Hc as (Ho & He & Hk & Hr). clearbody s2. rewrite Ho, He, Hk.
  case_match; cbn; rewrite Hr; reflexivity.
Qed.

End Supervisor.

(** C1 (amended). Whatever events the loop delivers, the promise is
    resolved at most once and exactly when a terminal source (close, error,
    main timer) occurred; once the guard is set every later event leaves
    guard and result alone, and close, error and the main timer leave the
    whole state alone; the turn that settles resolves one result with no
    timer left pending.  The idle timer is not behind the guard: when stdout
    arriving after settling has re-armed it, its callback still sets the
    idle flag and sends a kill signal, leaving guard, result, output and
    main timer as they were. *)
Theorem single_resolution `{JsonParser} (inv : Invocation) (events : list Event) :
  let s := run inv events in
  settled s = existsb terminal events /\
  length (resolved s) = (if settled s then 1%nat else 0%nat) /\
  (forall e, settled s = true ->
     settled (step inv s e) = true /\ resolved (step inv s e) = resolved s) /\
  (forall e, settled s = true -> terminal e = true -> step inv s e = s) /\
  (settled s = true -> idleTimer s = TPending ->
   let s' := step inv s IdleTimerFires in
   killedByIdle s' = true /\ kills s' = S (kills s) /\ idleTimer s' = TStale /\
   settled s' = true /\ resolved s' = resolved s /\ mainTimer s' = mainTimer s /\
   out s' = out s /\ err s' = err s /\ reported s' = reported s) /\
  (forall e, settled s = false -> settled (step inv s e) = true ->
     terminal e = true /\
     mainTimer (step inv s e) = TStale /\
     idleTimer (step inv s e) <> TPending /\
     exists r, resolved (step inv s e) = [r]).
Proof.
  cbv zeta. pose proof (run_guarded inv events) as Hg.
  split; [apply run_settled_iff|].
  split.
  { unfold guarded in Hg. destruct (settled (run inv events)).
    - destruct Hg as (_ & r & ->). reflexivity.
    - destruct Hg as (_ & ->). reflexivity. }
  split; [intros e Hs; now apply step_settled_keeps|].
  split; [intros e Hs Ht; now apply step_terminal_settled|].
  split.
  { intros Hs Hidle. cbn [step]. rewrite Hidle. cbn. now rewrite Hs. }
  intros e Hs Hafter.
  pose proof (step_settled_iff inv _ e Hg) as Hiff.
  rewrite Hs, Hafter in Hiff. cbn in Hiff.
  destruct (step_settling_clears inv _ e Hg Hs Hafter) as [Hm Hi].
  repeat split; auto.
  pose proof (step_guarded inv _ e Hg) as Hg'.
  unfold guarded in Hg'. rewrite Hafter in Hg'. tauto.
Qed.

(** The claim as stated fails for the idle timer: with idle-kill at 100 ms,
    after the main timer has settled the invocation a late chunk of stdout
    re-arms the idle timer, and its fire is not a no-op: it sets the idle
    flag and sends a second kill signal. *)
Lemma late_idle_timer_is_not_a_noop :
  let s := @run noJson idleInvocation [MainTimerFires; StdoutData "late"] in
  settled s = true /\ idleTimer s = TPending /\
  killedByIdle s = false /\ kills s = 1%nat /\
  killedByIdle (@step noJson idleInvocation s IdleTimerFires) = true /\
  kills (@step noJson idleInvocation s IdleTimerFires) = 2%nat /\
  @step noJson idleInvocation s IdleTimerFires <> s.
Proof.
  cbv zeta. repeat split; try (vm_compute; reflexivity).
  intros Heq. apply (f_equal kills) in Heq. vm_compute in Heq. discriminate.
Qed.

(** ** Result on process close (C5) *)

(** The close handler on an unsettled state: a success exactly when the
    exit code is zero or the idle flag is set with non-empty stdout. *)
Lemma onClose_cases `{JsonParser} (inv : Invocation) (code : option Z)
  (s : State) :
  settled s = false ->
  exists r,
    resolved (onClose inv code s) = resolved s ++ [r] /\
    (isError r = false <->
     code = Some 0 \/ (killedByIdle s = true /\ out s <> EmptyString)) /\
    (isError r = false ->
     text r = if Js.truthy (out s) then out s else "(no output)") /\
    (isError r = true ->
     text r = "cursor-agent exited with code " +:+ codeString code +:+ Js.nl +:+
              (if Js.truthy (err s) then err s
               else if Js.truthy (out s) then out s else "(no output)")).
Proof.
  intros Hs. exists (closeResult code s).
  split; [now apply onClose_resolves|]. unfold closeResult.
  destruct (bool_decide (code = Some 0) || killedByIdle s && Js.truthy (out s))
    eqn:Hok; cbn [isError text].
  - split; [|split; [reflexivity|discriminate]].
    split; [intros _|reflexivity].
    apply orb_true_iff in Hok as [Hz|Hidle].
    + left. now apply bool_decide_eq_true in Hz.
    + right. apply andb_true_iff in Hidle as [Hk' Ht]. split; [exact Hk'|].
      intros Hempty. rewrite Hempty in Ht. discriminate.
  - split; [|split; [discriminate|reflexivity]].
    split; [discriminate|]. intros Hcase. exfalso.
    apply orb_false_iff in Hok as [Hz Hidle].
    destruct Hcase as [Hcode|[Hk' Hout]].
    + apply bool_decide_eq_false in Hz. contradiction.
    + rewrite Hk' in Hidle. cbn in Hidle.
      apply truthy_false in Hidle. contradiction.
Qed.


(** ** Cancellation (C6) *)

(** C6. What the code does with a signal that is already triggered: the
    [signal] property is never read, so the child is spawned and the promise
    stays pending; and no invocation depends on its signal. *)
Theorem aborted_signal_still_spawns :
  observed (@invokeCursorAgent posix noJson ∅ "/x/repo" abortedRequest [])
  = Some ([("cursor-agent", ["--print"; "--output-format"; "text"; "test"])],
          [], false) /\
  forall (P : PathModule) (J : JsonParser) penv cwd0 req sig events,
    @invokeCursorAgent P J penv cwd0 (withSignal sig req) events
    = @invokeCursorAgent P J penv cwd0 req events.
Proof.
  split; [vm_compute; reflexivity|].
  intros. reflexivity.
Qed.

(** ** Assistant deltas (C7) *)

Lemma handleStreamEvent_assistant (inv : Invocation) (delta : string) (s : State) :
  hasProgress inv = true -> delta <> EmptyString ->
  handleStreamEvent inv (assistantEvent delta) s
  = report
      (mkProgress (strlen (accumulatedText s +:+ delta))
         ("Generating response... (" +:+
          Js.of_Z (strlen (accumulatedText s +:+ delta)) +:+ " characters)"))
      (set_accumulatedText (accumulatedText s +:+ delta) s).
Proof.
  intros Hp Hd. unfold handleStreamEvent, assistantEvent. rewrite Hp.
  destruct delta as [|c t]; [contradiction|]. reflexivity.
Qed.

(** The progress value of an assistant event is the cumulative length, so it
    never decreases. *)
Lemma assistant_progress_monotone (inv : Invocation) (delta : string) (s : State) :
  hasProgress inv = true -> delta <> EmptyString ->
  exists p,
    reported (handleStreamEvent inv (assistantEvent delta) s) = reported s ++ [p] /\
    progress p = strlen (accumulatedText s) + strlen delta /\
    accumulatedText (handleStreamEvent inv (assistantEvent delta) s)
    = accumulatedText s +:+ delta.
Proof.
  intros Hp Hd. rewrite handleStreamEvent_assistant by assumption.
  eexists. split; [reflexivity|]. split; [|reflexivity].
  cbn. apply strlen_append.
Qed.

(** C7. What the code reports for the deltas "Hello" and " world": one
    callback per event, with the cumulative character count as progress and
    a message that states that count, not the delta. *)
Theorem assistant_deltas_reported_as_counts :
  List.map (fun p => (progress p, progress_message p))
    (reported
       (handleAll progressInvocation
          [assistantEvent "Hello"; assistantEvent " world"]
          (executor progressInvocation)))
  = [(5, "Generating response... (5 characters)");
     (11, "Generating response... (11 characters)")] /\
  messages
    (@invokeCursorAgent posix helloWorldParser ∅ "/x/repo" progressRequest
       [StdoutData (assistantLine "Hello" +:+ Js.nl);
        StdoutData (assistantLine " world" +:+ Js.nl)])
  = Some [(5, "Generating response... (5 characters)");
          (11, "Generating response... (11 characters)")].
Proof. split; vm_compute; reflexivity. Qed.

(** ** The configured override at parse time (C10) *)

(** A value whose normalized form contains [..] makes parsing throw. *)
Lemma executablePathSchema_dotdot `{PathModule} (val : string) :
  blank (Some val) = false ->
  Js.includes (normalize (Js.trim val)) ".." = true ->
  executablePathSchema (Some val)
  = Throw InvalidConfig "CURSOR_AGENT_PATH contains invalid path traversal".
Proof.
  unfold executablePathSchema, blank. intros -> ->. reflexivity.
Qed.

(** A value whose normalized form is relative and contains a separator makes
    parsing throw. *)
Lemma executablePathSchema_relative `{PathModule} (val : string) :
  blank (Some val) = false ->
  isAbsolute (normalize (Js.trim val)) = false ->
  Js.includes (normalize (Js.trim val)) "/" = true ->
  executablePathSchema (Some val)
  = Throw InvalidConfig "CURSOR_AGENT_PATH contains invalid path traversal".
Proof.
  unfold executablePathSchema, blank. intros -> -> ->.
  now rewrite orb_true_r.
Qed.

(** C10. What the code does with relative overrides that contain a
    separator: [./cursor-agent] and [x/../agent] normalize to names without
    separator, pass the test made on the normalized form, and are returned
    as written; [bin/cursor-agent] is refused. *)
Theorem relative_override_accepted :
  @executablePathSchema posix (Some "./cursor-agent") = Ok (Some "./cursor-agent") /\
  @validateExecutablePath posix {[ "CURSOR_AGENT_PATH" := "./cursor-agent" ]} None
  = Ok "./cursor-agent" /\
  @executablePathSchema posix (Some "x/../agent") = Ok (Some "x/../agent") /\
  @executablePathSchema posix (Some "bin/cursor-agent")
  = Throw InvalidConfig "CURSOR_AGENT_PATH contains invalid path traversal".
Proof. repeat split; vm_compute; reflexivity. Qed.

(** A bare command name: without separator, [normalize] returns its
    argument. *)
Lemma no_slash_cons (c : ascii) (t : string) :
  Js.includes (String c t) "/" = false ->
  Ascii.eqb c "/" = false /\ Js.includes t "/" = false.
Proof.
  cbn [Js.includes]. intros Hn. apply orb_false_iff in Hn as [Hp Ht].
  split; [|exact Ht].
  cbn [String.prefix] in Hp.
  destruct (Ascii.ascii_dec "/" c) as [<-|Hne]; [now destruct t|].
  apply Ascii.eqb_neq. congruence.
Qed.

Lemma split_no_slash (s : string) :
  Js.includes s "/" = false -> Js.split "/" s = [s].
Proof.
  induction s as [|c t IH]; [reflexivity|].
  intros Hn. apply no_slash_cons in Hn as [Hc Ht].
  cbn [Js.split]. rewrite Hc, (IH Ht). reflexivity.
Qed.

Lemma last_no_slash (s : string) :
  Js.includes s "/" = false -> Js.is_slash (Js.last_char s) = false.
Proof.
  induction s as [|c t IH]; [reflexivity|].
  intros Hn. apply no_slash_cons in Hn as [Hc Ht].
  destruct t as [|d t']; [exact Hc|]. exact (IH Ht).
Qed.

Lemma posix_normalize_bare (s : string) :
  s <> EmptyString -> Js.includes s "/" = false -> Posix.normalize s = s.
Proof.
  intros Hne Hn. destruct s as [|c t]; [contradiction|].
  unfold Posix.normalize, Posix.normalizeString.
  rewrite (split_no_slash _ Hn), (last_no_slash _ Hn).
  destruct (no_slash_cons c t Hn) as [Hc _].
  unfold Posix.isAbsolute. cbn [Js.first_char Js.is_slash]. rewrite Hc.
  cbn [Posix.normalizeSegments negb].
  change (Js.eqb (String c t) EmptyString) with false. cbn [orb].
  destruct (Js.eqb (String c t) ".") eqn:Hdot.
  { apply eqb_true in Hdot. rewrite Hdot. reflexivity. }
  destruct (Js.eqb (String c t) "..") eqn:Hdd.
  { apply eqb_true in Hdd. rewrite Hdd. reflexivity. }
  reflexivity.
Qed.

(** A bare command name without [..] is accepted and returned trimmed,
    although it is not an absolute path. *)
Lemma executablePathSchema_bare (val : string) :
  blank (Some val) = false ->
  Js.includes (Js.trim val) "/" = false ->
  Js.includes (Js.trim val) ".." = false ->
  @executablePathSchema posix (Some val) = Ok (Some (Js.trim val)) /\
  Posix.isAbsolute (Js.trim val) = false.
Proof.
  intros Hb Hslash Hdots.
  assert (Hne : Js.trim val <> EmptyString).
  { apply not_blank_trim in Hb. intros Heq. rewrite Heq in Hb. discriminate. }
  assert (Habs : Posix.isAbsolute (Js.trim val) = false).
  { destruct (Js.trim val) as [|c t]; [reflexivity|].
    now destruct (no_slash_cons c t Hslash). }
  split; [|exact Habs].
  unfold executablePathSchema. unfold blank in Hb. rewrite Hb.
  cbn [normalize isAbsolute posix].
  rewrite (posix_normalize_bare _ Hne Hslash), Hdots, Habs, Hslash.
  reflexivity.
Qed.

(** ** Error texts and the ambient environment (C9) *)

Lemma prefix_append (b c : string) : String.prefix b (b +:+ c) = true.
Proof.
  induction b as [|x b IH]; [now destruct c|].
  change (String x b +:+ c) with (String x (b +:+ c)). cbn [String.prefix].
  destruct (Ascii.ascii_dec x x); [exact IH|contradiction].
Qed.

Lemma includes_prefix (s needle : string) :
  String.prefix needle s = true -> Js.includes s needle = true.
Proof. intros Hp. destruct s; cbn [Js.includes]; now rewrite Hp. Qed.

Lemma includes_append_r (a s needle : string) :
  Js.includes s needle = true -> Js.includes (a +:+ s) needle = true.
Proof.
  intros Hs. induction a as [|x a IH]; [exact Hs|].
  change (String x a +:+ s) with (String x (a +:+ s)).
  cbn [Js.includes]. rewrite IH. apply orb_true_r.
Qed.

Lemma includes_middle (a b c : string) :
  Js.includes (a +:+ b +:+ c) b = true.
Proof. apply includes_append_r, includes_prefix, prefix_append. Qed.

Section AmbientIndependence.
Context `{PathModule} `{JsonParser}.

Lemma getValidatedEnv_agree (penv1 penv2 : gmap string string) :
  agreeOn recognized penv1 penv2 ->
  getValidatedEnv penv1 = getValidatedEnv penv2.
Proof.
  intros Ha. unfold getValidatedEnv.
  rewrite !(Ha _) by (unfold recognized; cbn; tauto). reflexivity.
Qed.

Lemma validatedPart_agree (penv1 penv2 : gmap string string) env :
  agreeOn recognized penv1 penv2 ->
  validatedPart penv1 env = validatedPart penv2 env.
Proof.
  intros Ha. unfold validatedPart, rawOrOne.
  rewrite !(Ha _) by (unfold recognized; cbn; tauto). reflexivity.
Qed.

Lemma handleStreamEvent_view (inv1 inv2 : Invocation) event s :
  hasProgress inv1 = hasProgress inv2 ->
  handleStreamEvent inv1 event s = handleStreamEvent inv2 event s.
Proof. intros Hp. unfold handleStreamEvent. now rewrite Hp. Qed.

Lemma decodeLines_view (inv1 inv2 : Invocation) lines s :
  hasProgress inv1 = hasProgress inv2 ->
  foldl (decodeLine inv1) s lines = foldl (decodeLine inv2) s lines.
Proof.
  intros Hp. revert s. induction lines as [|line lines IH]; intros s; [reflexivity|].
  cbn [foldl]. rewrite IH. f_equal. unfold decodeLine.
  repeat case_match; try reflexivity. now apply handleStreamEvent_view.
Qed.

(** The handlers read an invocation through its [view] only. *)
Lemma step_view (inv1 inv2 : Invocation) s e :
  view inv1 = view inv2 -> step inv1 s e = step inv2 s e.
Proof.
  unfold view. intros [= Hcmd Hcwd Hargv Hstream Hprog Hidle Htimeout Hpath].
  destruct e; cbn [step].
  - unfold onStdoutData, scheduleIdleKill. rewrite Hstream, Hprog, Hidle.
    cbv zeta. repeat case_match; try reflexivity; now apply decodeLines_view.
  - reflexivity.
  - unfold onError. now rewrite Hcmd, Hargv, Hpath.
  - unfold onClose. rewrite Hstream, Hprog. cbv zeta.
    destruct (settled s); [reflexivity|].
    destruct (streamJson inv2 && hasProgress inv2 &&
              Js.truthy (Js.trim (partialLine (cleanup (set_settled true s)))));
      [|reflexivity].
    destruct (JSON_parse (Js.trim (partialLine (cleanup (set_settled true s)))));
      [|reflexivity].
    now rewrite (handleStreamEvent_view inv1 inv2).
  - unfold onMainTimer. now rewrite Htimeout.
  - reflexivity.
Qed.

Lemma run_view (inv1 inv2 : Invocation) events :
  view inv1 = view inv2 -> run inv1 events = run inv2 events.
Proof.
  intros Hv. induction events as [|e events IH] using rev_ind.
  - unfold run, executor. cbn [foldl]. unfold view in Hv.
    injection Hv as Hcmd _ Hargv _ _ _ _ _. now rewrite Hcmd, Hargv.
  - rewrite !run_snoc, IH. now apply step_view.
Qed.

Lemma invoke_agree (penv1 penv2 : gmap string string) cwd0 req events :
  agreeOn recognized penv1 penv2 ->
  invokeCursorAgent penv1 cwd0 req events
  = invokeCursorAgent penv2 cwd0 req events.
Proof.
  intros Ha. unfold invokeCursorAgent, prepare, validateExecutablePath,
    getSafeEnvironment.
  rewrite <- (getValidatedEnv_agree penv1 penv2 Ha).
  destruct (getValidatedEnv penv1) as [env|e]; [|reflexivity].
  cbn [bindR Ok].
  match goal with
  | |- context [bindR ?r _] => destruct r as [exe|e]; [|reflexivity]
  end.
  cbn [bindR].
  destruct (validateWorkingDirectory cwd0 (cwd req)) as [dir|e]; [|reflexivity].
  unfold Ok. cbn [bindR]. f_equal. apply run_view. unfold view.
  cbn [cmd validatedCwd spawnArgv streamJson hasProgress idleMs timeoutMs safeEnv].
  rewrite !copied_lookup, (validatedPart_agree penv1 penv2 env Ha).
  rewrite (Ha "CURSOR_AGENT_PATH") by (unfold recognized; cbn; tauto).
  reflexivity.
Qed.

End AmbientIndependence.

(** The claim as stated fails: with [CURSOR_AGENT_PATH] set in the ambient
    environment, the spawn-failure text embeds its value, both as the
    command that failed to start and on a line of its own. *)
Lemma spawn_failure_embeds_agent_path :
  exists s r,
    @invokeCursorAgent posix noJson ambientAlpha "/x/repo" (requestOf ["hello"])
      [ProcessError "spawn ENOENT" "Error: spawn ENOENT"] = Ok s /\
    resolved s = [r] /\ isError r = true /\
    ambientAlpha !! "CURSOR_AGENT_PATH" = Some "/opt/tools/agent" /\
    Js.includes (text r) "CURSOR_AGENT_PATH=/opt/tools/agent" = true.
Proof.
  eexists. eexists. split; [vm_compute; reflexivity|].
  split; [reflexivity|]. repeat split; vm_compute; reflexivity.
Qed.

(** ** Sample runs *)

(** The timeout wins the race; the close that follows the kill is ignored. *)
Example timeout_then_close :
  observed (@invokeCursorAgent posix noJson {[ "CURSOR_AGENT_TIMEOUT_MS" := "100" ]}
              "/x/repo" (requestOf ["test"])
              [StdoutData "partial"; MainTimerFires; ProcessClose None])
  = Some ([("cursor-agent", ["--print"; "--output-format"; "text"; "test"])],
          [{| text := "cursor-agent timed out after 100ms"; isError := true |}],
          true).
Proof. vm_compute. reflexivity. Qed.

(** A traversal that nets out inside the base directory is accepted. *)
Example traversal_inside_base :
  @validateWorkingDirectory posix "/x/repo" (Some "test/../test")
  = Ok "/x/repo/test".
Proof. vm_compute. reflexivity. Qed.

(** A traversal that escapes the base directory is rejected. *)
Example traversal_escapes_base :
  kind <$> (match @validateWorkingDirectory posix "/x/repo" (Some "/x/repo/../../tmp") with
            | inl _ => None
            | inr e => Some e
            end)
  = Some PathEscape.
Proof. vm_compute. reflexivity. Qed.

(** * Further properties of the code *)

(** ** Path validators: what they return *)

Lemma outside_false `{PathModule} (resolved base : string) :
  outside resolved base = false ->
  resolved = base \/ Js.startsWith resolved (base +:+ sep) = true.
Proof.
  unfold outside. intros Ho. apply andb_false_iff in Ho as [Heq|Hpre].
  - left. apply negb_false_iff in Heq. now apply eqb_true.
  - right. now apply negb_false_iff in Hpre.
Qed.

(** X1. Whatever [validateWorkingDirectory] returns is the process working
    directory itself (blank input) or the resolution of the trimmed input,
    and that resolution is the resolved base or lies below it. *)
Theorem validateWorkingDirectory_contained `{PathModule}
  (cwd0 : string) (dir : option string) (r : string) :
  validateWorkingDirectory cwd0 dir = Ok r ->
  (blank dir = true /\ r = cwd0) \/
  (blank dir = false /\
   r = resolve cwd0 (Js.trim (default EmptyString dir)) /\
   (r = resolve cwd0 cwd0 \/
    Js.startsWith r (resolve cwd0 cwd0 +:+ sep) = true)).
Proof.
  unfold validateWorkingDirectory. destruct (blank dir) eqn:Hb.
  - intros [= <-]. left. auto.
  - cbv zeta.
    destruct (outside (resolve cwd0 (Js.trim (default EmptyString dir)))
                (resolve cwd0 cwd0)) eqn:Ho; [discriminate|].
    case_match; [discriminate|]. intros [= <-]. right.
    split; [reflexivity|]. split; [reflexivity|]. now apply outside_false.
Qed.

(** A relative directory below the base. *)
Lemma validateWorkingDirectory_contained_witness :
  (blank (Some "./test") = true /\ "/x/repo/test" = "/x/repo") \/
  (blank (Some "./test") = false /\
   "/x/repo/test" = @resolve posix "/x/repo" (Js.trim "./test") /\
   ("/x/repo/test" = @resolve posix "/x/repo" "/x/repo" \/
    Js.startsWith "/x/repo/test" (@resolve posix "/x/repo" "/x/repo" +:+ @sep posix)
    = true)).
Proof.
  apply (@validateWorkingDirectory_contained posix "/x/repo" (Some "./test")).
  vm_compute. reflexivity.
Defined.

(** X2. [validateFilePath] refuses a missing, empty or whitespace path with
    the MissingPath error, and whatever it returns is the resolution of the
    trimmed input, which is the resolved base or lies below it. *)
Theorem validateFilePath_contained `{PathModule}
  (cwd0 : string) (filePath : option string) :
  (blank filePath = true ->
   validateFilePath cwd0 filePath = Throw MissingPath "File path is required") /\
  (forall r, validateFilePath cwd0 filePath = Ok r ->
     blank filePath = false /\
     r = resolve cwd0 (Js.trim (default EmptyString filePath)) /\
     (r = resolve cwd0 cwd0 \/
      Js.startsWith r (resolve cwd0 cwd0 +:+ sep) = true)).
Proof.
  unfold validateFilePath. split.
  - intros ->. reflexivity.
  - intros r. destruct (blank filePath) eqn:Hb; [discriminate|]. cbv zeta.
    destruct (outside (resolve cwd0 (Js.trim (default EmptyString filePath)))
                (resolve cwd0 cwd0)) eqn:Ho; [discriminate|].
    case_match; [discriminate|]. intros [= <-].
    split; [reflexivity|]. split; [reflexivity|]. now apply outside_false.
Qed.

(** ** Sanitized environment: what the child sees *)

Lemma validatedPart_unrecognized penv env key :
  ~ In key recognized -> validatedPart penv env !! key = None.
Proof.
  intros Hn. destruct (validatedPart penv env !! key) eqn:Hv; [|reflexivity].
  exfalso. apply Hn. apply (validatedPart_keys penv env). eauto.
Qed.

(** X3. For a key that is not one of the eight recognised variables the
    sanitized environment holds exactly the ambient value when the key is
    allow-listed, and nothing otherwise. *)
Theorem getSafeEnvironment_passthrough `{PathModule}
  (penv safe : gmap string string) (key : string) :
  getSafeEnvironment penv = Ok safe ->
  ~ In key recognized ->
  safe !! key = if allowedKey key then penv !! key else None.
Proof.
  unfold getSafeEnvironment. intros Hsafe Hn.
  destruct (getValidatedEnv penv) as [env|e]; [|discriminate].
  cbn [bindR] in Hsafe. injection Hsafe as <-.
  rewrite copied_lookup. now rewrite validatedPart_unrecognized.
Qed.

(** In the sample environment [PATH] and [LC_ALL] pass, [SECRET_KEY] does
    not. *)
Lemma getSafeEnvironment_passthrough_witness :
  exists safe,
    @getSafeEnvironment posix ambientSample = Ok safe /\
    safe !! "LC_ALL" = (if allowedKey "LC_ALL" then ambientSample !! "LC_ALL" else None) /\
    safe !! "SECRET_KEY"
    = (if allowedKey "SECRET_KEY" then ambientSample !! "SECRET_KEY" else None).
Proof.
  assert (Hlc : ~ In "LC_ALL" recognized).
  { unfold recognized. cbn [In]. intros H. decompose [or] H; discriminate || assumption. }
  assert (Hsk : ~ In "SECRET_KEY" recognized).
  { unfold recognized. cbn [In]. intros H. decompose [or] H; discriminate || assumption. }
  assert (Hrun : exists safe, @getSafeEnvironment posix ambientSample = Ok safe).
  { eexists. vm_compute. reflexivity. }
  destruct Hrun as [safe Hsafe]. exists safe. split; [exact Hsafe|]. split.
  - exact (@getSafeEnvironment_passthrough posix ambientSample safe "LC_ALL" Hsafe Hlc).
  - exact (@getSafeEnvironment_passthrough posix ambientSample safe "SECRET_KEY" Hsafe Hsk).
Defined.

(** A file below the base, and the empty path. *)
Lemma validateFilePath_contained_witness :
  @validateFilePath posix "/x/repo" (Some "  ")
  = Throw MissingPath "File path is required" /\
  (blank (Some "src/a.txt") = false /\
   "/x/repo/src/a.txt" = @resolve posix "/x/repo" (Js.trim "src/a.txt") /\
   ("/x/repo/src/a.txt" = @resolve posix "/x/repo" "/x/repo" \/
    Js.startsWith "/x/repo/src/a.txt"
      (@resolve posix "/x/repo" "/x/repo" +:+ @sep posix) = true)).
Proof.
  split.
  - apply (@validateFilePath_contained posix "/x/repo" (Some "  ")). reflexivity.
  - apply (@validateFilePath_contained posix "/x/repo" (Some "src/a.txt")).
    vm_compute. reflexivity.
Defined.

(** The fields of a validated configuration, read off the ambient values. *)
Lemma getValidatedEnv_fields `{PathModule} (penv : gmap string string) env :
  getValidatedEnv penv = Ok env ->
  executingClientSchema (penv !! "EXECUTING_CLIENT") = Some (EXECUTING_CLIENT env) /\
  executablePathSchema (penv !! "CURSOR_AGENT_PATH") = Ok (CURSOR_AGENT_PATH env) /\
  modelSchema (penv !! "CURSOR_AGENT_MODEL") = Some (CURSOR_AGENT_MODEL env) /\
  DEBUG_CURSOR_MCP env = booleanEnvSchema (penv !! "DEBUG_CURSOR_MCP") /\
  CURSOR_AGENT_ECHO_PROMPT env = booleanEnvSchema (penv !! "CURSOR_AGENT_ECHO_PROMPT") /\
  CURSOR_AGENT_FORCE env = booleanEnvSchema (penv !! "CURSOR_AGENT_FORCE") /\
  CURSOR_AGENT_IDLE_EXIT_MS env
  = positiveIntMsSchema (penv !! "CURSOR_AGENT_IDLE_EXIT_MS") /\
  CURSOR_AGENT_TIMEOUT_MS env
  = positiveIntMsSchema (penv !! "CURSOR_AGENT_TIMEOUT_MS").
Proof.
  unfold getValidatedEnv.
  destruct (executablePathSchema (penv !! "CURSOR_AGENT_PATH")) as [agentPath|e];
    [|discriminate].
  cbn [bindR].
  destruct (executingClientSchema (penv !! "EXECUTING_CLIENT")) as [client|];
    [|discriminate].
  destruct (modelSchema (penv !! "CURSOR_AGENT_MODEL")) as [model|];
    [|discriminate].
  intros [= <-]. cbn. repeat split.
Qed.

Lemma validatedPart_timeout penv env :
  validatedPart penv env !! "CURSOR_AGENT_TIMEOUT_MS"
  = Js.of_Z <$> CURSOR_AGENT_TIMEOUT_MS env.
Proof.
  unfold validatedPart. cbv zeta.
  destruct (CURSOR_AGENT_TIMEOUT_MS env); [now rewrite lookup_insert_eq|].
  repeat case_match; now simplify_map_eq.
Qed.

Lemma validatedPart_idle penv env :
  validatedPart penv env !! "CURSOR_AGENT_IDLE_EXIT_MS"
  = Js.of_Z <$> CURSOR_AGENT_IDLE_EXIT_MS env.
Proof.
  unfold validatedPart. cbv zeta.
  repeat case_match; now simplify_map_eq.
Qed.

Lemma validatedPart_model penv env :
  validatedPart penv env !! "CURSOR_AGENT_MODEL"
  = match CURSOR_AGENT_MODEL env with
    | Some m => if Js.truthy m then Some m else None
    | None => None
    end.
Proof.
  unfold validatedPart. cbv zeta.
  destruct (CURSOR_AGENT_MODEL env) as [m|]; cbn [Js.truthy_opt default from_option id].
  - destruct (Js.truthy m); repeat case_match; now simplify_map_eq.
  - repeat case_match; now simplify_map_eq.
Qed.

(** ** Argument composition in general *)

Lemma last_removelast {A} (l : list A) (x : A) :
  last l = Some x -> l = removelast l ++ [x].
Proof.
  intros Hl. apply last_Some in Hl as [l' ->].
  now rewrite removelast_last.
Qed.

Lemma promptArg_last (userArgs : list string) (p : string) :
  promptArg userArgs = Some p <->
  last userArgs = Some p /\ p <> EmptyString /\ Js.startsWith p "-" = false.
Proof.
  unfold promptArg. destruct (last userArgs) as [lastArg|]; [|split; [discriminate|intros [[=] _]]].
  destruct (Js.truthy lastArg) eqn:Ht; destruct (Js.startsWith lastArg "-") eqn:Hd;
    cbn [andb negb]; split.
  all: try discriminate.
  all: try (intros [[= ->] [Hne Hs]]; try congruence;
            apply truthy_false in Ht; congruence).
  intros [= ->]. repeat split; auto. intros ->. discriminate.
Qed.

Lemma userArgs_split (userArgs : list string) (p : string) :
  promptArg userArgs = Some p -> userArgs = argsWithoutPrompt userArgs ++ [p].
Proof.
  intros Hp. unfold argsWithoutPrompt. rewrite Hp.
  apply last_removelast. now apply promptArg_last in Hp.
Qed.

(** X5. The composed argument vector never drops or reorders a caller
    argument: the caller's vector is a subsequence of it, whatever the
    options and the configuration. *)
Theorem finalArgv_keeps_caller_args (env : ValidatedEnv) (req : Request) :
  default [] (argv req) `sublist_of` finalArgv env req.
Proof.
  unfold finalArgv. cbv zeta. set (userArgs := default [] (argv req)).
  apply sublist_inserts_l, sublist_inserts_l.
  destruct (promptArg userArgs) as [p|] eqn:Hp.
  - rewrite (userArgs_split userArgs p Hp) at 1.
    apply sublist_app; [reflexivity|].
    apply sublist_inserts_l, sublist_inserts_l. reflexivity.
  - unfold argsWithoutPrompt. rewrite Hp.
    rewrite <- (app_nil_r userArgs) at 1.
    apply sublist_app; [reflexivity|]. apply sublist_nil_l.
Qed.

(** X6. When the caller's last argument is non-empty and does not start
    with a dash, it is the last element of the composed argument vector,
    whatever flags are injected. *)
Theorem finalArgv_prompt_last (env : ValidatedEnv) (req : Request) (p : string) :
  last (default [] (argv req)) = Some p ->
  p <> EmptyString ->
  Js.startsWith p "-" = false ->
  last (finalArgv env req) = Some p.
Proof.
  intros Hl Hne Hd.
  assert (Hp : promptArg (default [] (argv req)) = Some p)
    by (apply promptArg_last; auto).
  unfold finalArgv. cbv zeta. rewrite Hp. rewrite !app_assoc. apply last_snoc.
Qed.

(** With force and a default model configured, both flags are injected
    before the prompt. *)
Lemma finalArgv_prompt_last_witness :
  last (finalArgv
          {| EXECUTING_CLIENT := None; CURSOR_AGENT_PATH := None;
             DEBUG_CURSOR_MCP := false; CURSOR_AGENT_ECHO_PROMPT := false;
             CURSOR_AGENT_MODEL := Some "gpt-x"; CURSOR_AGENT_FORCE := true;
             CURSOR_AGENT_IDLE_EXIT_MS := None; CURSOR_AGENT_TIMEOUT_MS := None |}
          (requestOf ["--resume"; "fix the bug"]))
  = Some "fix the bug".
Proof.
  apply finalArgv_prompt_last; [reflexivity|discriminate|reflexivity].
Defined.

(** X7. A last argument that starts with a dash is not taken for the
    prompt: the flags the composer injects come after it, so with force in
    effect and no force flag given the vector ends with the injected flags,
    not with the caller's last argument. *)
Theorem finalArgv_dash_prompt_not_last (env : ValidatedEnv) (req : Request)
  (lastArg : string) :
  last (default [] (argv req)) = Some lastArg ->
  Js.startsWith lastArg "-" = true ->
  existsb isModelFlag (default [] (argv req)) = true ->
  existsb isForceFlag (default [] (argv req)) = false ->
  effectiveForce env req = true ->
  last (finalArgv env req) = Some "-f".
Proof.
  intros Hl Hd Hm Hf He.
  assert (Hp : promptArg (default [] (argv req)) = None).
  { unfold promptArg. rewrite Hl, Hd. now rewrite andb_false_r. }
  unfold finalArgv. cbv zeta. rewrite Hp, Hm, Hf, He. cbn [orb negb].
  destruct (effectiveModel env req); rewrite !app_nil_r, !app_assoc; apply last_snoc.
Qed.

(** A prompt that begins with a dash ends up before the injected [-f]. *)
Lemma finalArgv_dash_prompt_not_last_witness :
  last (finalArgv
          {| EXECUTING_CLIENT := None; CURSOR_AGENT_PATH := None;
             DEBUG_CURSOR_MCP := false; CURSOR_AGENT_ECHO_PROMPT := false;
             CURSOR_AGENT_MODEL := None; CURSOR_AGENT_FORCE := true;
             CURSOR_AGENT_IDLE_EXIT_MS := None; CURSOR_AGENT_TIMEOUT_MS := None |}
          (requestOf ["-m"; "gpt-x"; "- list the files"]))
  = Some "-f".
Proof.
  apply (finalArgv_dash_prompt_not_last _ _ "- list the files"); reflexivity.
Defined.

(** X8. Explicit per-call settings win over the environment: when the
    caller names a model (by flag or by option) and settles force (by flag
    or by option), the composed vector is the same under every validated
    configuration. *)
Theorem finalArgv_explicit_precedence (env1 env2 : ValidatedEnv) (req : Request) :
  (existsb isModelFlag (default [] (argv req)) = true \/
   exists m, model req = Some m /\ Js.trim m <> EmptyString) ->
  (existsb isForceFlag (default [] (argv req)) = true \/
   exists f, force req = Some f) ->
  finalArgv env1 req = finalArgv env2 req.
Proof.
  intros Hmodel Hforce. unfold finalArgv. cbv zeta. do 3 f_equal.
  f_equal; [|f_equal].
  - destruct Hforce as [->|[f Hf]]; [reflexivity|].
    unfold effectiveForce. now rewrite Hf.
  - destruct Hmodel as [->|(m & Hm & Hne)].
    + now destruct (effectiveModel env1 req), (effectiveModel env2 req).
    + unfold effectiveModel. rewrite Hm.
      destruct (Js.truthy (Js.trim m)) eqn:Ht; [reflexivity|].
      apply truthy_false in Ht. contradiction.
Qed.

(** Model and force given per call: the defaults of two configurations do
    not matter. *)
Lemma finalArgv_explicit_precedence_witness :
  finalArgv
    {| EXECUTING_CLIENT := None; CURSOR_AGENT_PATH := None;
       DEBUG_CURSOR_MCP := false; CURSOR_AGENT_ECHO_PROMPT := false;
       CURSOR_AGENT_MODEL := Some "gpt-x"; CURSOR_AGENT_FORCE := true;
       CURSOR_AGENT_IDLE_EXIT_MS := None; CURSOR_AGENT_TIMEOUT_MS := None |}
    {| argv := Some ["hello"]; output_format := None; cwd := None;
       executable := None; model := Some "sonnet"; force := Some false;
       print := None; onProgress := false; signal := None |}
  = finalArgv
      {| EXECUTING_CLIENT := None; CURSOR_AGENT_PATH := None;
         DEBUG_CURSOR_MCP := false; CURSOR_AGENT_ECHO_PROMPT := false;
         CURSOR_AGENT_MODEL := None; CURSOR_AGENT_FORCE := false;
         CURSOR_AGENT_IDLE_EXIT_MS := None; CURSOR_AGENT_TIMEOUT_MS := None |}
      {| argv := Some ["hello"]; output_format := None; cwd := None;
         executable := None; model := Some "sonnet"; force := Some false;
         print := None; onProgress := false; signal := None |}.
Proof.
  apply finalArgv_explicit_precedence.
  - right. exists "sonnet". split; [reflexivity|]. vm_compute. discriminate.
  - right. exists false. reflexivity.
Defined.

(** ** The supervisor: output, progress and the idle timer *)

Lemma append_empty_r (s : string) : s +:+ EmptyString = s.
Proof.
  induction s as [|c s IH]; [reflexivity|].
  change (String c s +:+ EmptyString) with (String c (s +:+ EmptyString)).
  now rewrite IH.
Qed.

Lemma append_assoc (a b c : string) : (a +:+ b) +:+ c = a +:+ b +:+ c.
Proof.
  induction a as [|x a IH]; [reflexivity|].
  change (String x a +:+ b) with (String x (a +:+ b)).
  change (String x (a +:+ b) +:+ c) with (String x ((a +:+ b) +:+ c)).
  now rewrite IH.
Qed.

Section Streams.
Context `{JsonParser}.
Variable inv : Invocation.

(** What a turn of the loop does to the variables outside the stream
    decoder, as the frame of a state built from setters alone. *)
Lemma onStdoutData_frame (chunk : string) (s : State) :
  frame (onStdoutData inv chunk s)
  = frame (set_partialLine
             (if streamJson inv && hasProgress inv
              then default EmptyString
                     (last (Js.split Js.nl_char (partialLine s +:+ chunk)))
              else partialLine s)
             (scheduleIdleKill inv (set_out (out s +:+ chunk) s))).
Proof.
  unfold onStdoutData. cbv zeta.
  assert (Hp : forall t, partialLine (scheduleIdleKill inv t) = partialLine t).
  { intros t. unfold scheduleIdleKill. now case_match. }
  rewrite Hp. cbn [partialLine set_out].
  destruct (streamJson inv && hasProgress inv).
  - now rewrite decodeLines_frame.
  - destruct (hasProgress inv); unfold frame; cbn; now rewrite Hp.
Qed.

Lemma onClose_frame (code : option Z) (s : State) :
  settled s = false ->
  frame (onClose inv code s)
  = frame (resolve_with (closeResult code s) (cleanup (set_settled true s))).
Proof.
  intros Hs. unfold onClose, closeResult. rewrite Hs. cbv zeta.
  set (s1 := cleanup (set_settled true s)).
  set (s2 := if streamJson inv && hasProgress inv && Js.truthy (Js.trim (partialLine s1))
             then match JSON_parse (Js.trim (partialLine s1)) with
                  | Some event => handleStreamEvent inv event s1
                  | None => s1
                  end
             else s1).
  assert (Hf : frame s2 = frame s1).
  { unfold s2. repeat case_match; try reflexivity. apply handleStreamEvent_frame. }
  assert (Ho : out s2 = out s /\ err s2 = err s /\ killedByIdle s2 = killedByIdle s).
  { unfold frame in Hf. injection Hf as _ Ho He _ _ Hk _ _ _ _.
    rewrite Ho, He, Hk. repeat split. }
  destruct Ho as (Ho & He & Hk). rewrite Ho, He, Hk.
  clearbody s2. unfold frame in Hf.
  injection Hf as Hf1 Hf2 Hf3 Hf4 Hf5 Hf6 Hf7 Hf8 Hf9 Hf10.
  case_match; unfold frame; cbn; congruence.
Qed.

(** Stdout accumulates chunk by chunk and nothing else writes it. *)
Lemma step_out (s : State) (e : Event) :
  out (step inv s e)
  = match e with
    | StdoutData chunk => out s +:+ chunk
    | _ => out s
    end.
Proof.
  destruct e; cbn [step].
  - pose proof (onStdoutData_frame chunk s) as Hf. unfold frame in Hf.
    injection Hf as _ -> _ _ _ _ _ _ _ _.
    cbn [out set_partialLine]. unfold scheduleIdleKill. now case_match.
  - reflexivity.
  - unfold onError. now case_match.
  - destruct (settled s) eqn:Hs.
    + unfold onClose. now rewrite Hs.
    + pose proof (onClose_frame code s Hs) as Hf. unfold frame in Hf.
      now injection Hf as _ -> _ _ _ _ _ _ _ _.
  - destruct (mainTimer s); try reflexivity.
    unfold onMainTimer. cbn. now case_match.
  - now destruct (idleTimer s).
Qed.

Lemma step_err (s : State) (e : Event) :
  err (step inv s e)
  = match e with
    | StderrData chunk => err s +:+ chunk
    | _ => err s
    end.
Proof.
  destruct e; cbn [step].
  - pose proof (onStdoutData_frame chunk s) as Hf. unfold frame in Hf.
    injection Hf as _ _ -> _ _ _ _ _ _ _.
    cbn [err set_partialLine]. unfold scheduleIdleKill. now case_match.
  - reflexivity.
  - unfold onError. now case_match.
  - destruct (settled s) eqn:Hs.
    + unfold onClose. now rewrite Hs.
    + pose proof (onClose_frame code s Hs) as Hf. unfold frame in Hf.
      now injection Hf as _ _ -> _ _ _ _ _ _ _.
  - destruct (mainTimer s); try reflexivity.
    unfold onMainTimer. cbn. now case_match.
  - now destruct (idleTimer s).
Qed.

Lemma run_out_from (events : list Event) (s : State) :
  out (foldl (step inv) s events) = out s +:+ stdoutOf events.
Proof.
  revert s. induction events as [|e events IH]; intros s.
  - cbn. now rewrite append_empty_r.
  - cbn [foldl]. rewrite IH, step_out.
    destruct e; cbn [stdoutOf]; try reflexivity. apply append_assoc.
Qed.

Lemma run_err_from (events : list Event) (s : State) :
  err (foldl (step inv) s events) = err s +:+ stderrOf events.
Proof.
  revert s. induction events as [|e events IH]; intros s.
  - cbn. now rewrite append_empty_r.
  - cbn [foldl]. rewrite IH, step_err.
    destruct e; cbn [stderrOf]; try reflexivity. apply append_assoc.
Qed.

(** The accumulated stdout and stderr are the concatenations of the chunks
    delivered, in order. *)
Lemma run_output (events : list Event) :
  out (run inv events) = stdoutOf events /\ err (run inv events) = stderrOf events.
Proof.
  unfold run. now rewrite run_out_from, run_err_from.
Qed.

(** The idle timer is armed by stdout data only, and only when idle-kill is
    enabled; the idle flag is set by its callback only. *)
Lemma step_idle (s : State) (e : Event) :
  (idleTimer s = TNull /\ killedByIdle s = false) ->
  (idleMs inv <= 0 \/ isStdout e = false) ->
  idleTimer (step inv s e) = TNull /\ killedByIdle (step inv s e) = false.
Proof.
  intros [Hi Hk] Hcase. destruct e; cbn [step].
  - destruct Hcase as [Hms|Hd]; [|discriminate].
    pose proof (onStdoutData_frame chunk s) as Hf. unfold frame in Hf.
    injection Hf as _ _ _ -> _ -> _ _ _ _.
    unfold scheduleIdleKill.
    assert (Hoff : (idleMs inv =? 0) || (idleMs inv <=? 0) = true).
    { apply orb_true_iff. right. now apply Z.leb_le. }
    rewrite Hoff. cbn. auto.
  - cbn. auto.
  - unfold onError. case_match; [auto|]. cbn. rewrite Hi. auto.
  - destruct (settled s) eqn:Hs.
    + unfold onClose. rewrite Hs. auto.
    + pose proof (onClose_frame code s Hs) as Hf. unfold frame in Hf.
      injection Hf as _ _ _ -> _ -> _ _ _ _. cbn. rewrite Hi. auto.
  - destruct (mainTimer s); auto.
    unfold onMainTimer. cbn. case_match; cbn; rewrite ?Hi; auto.
  - rewrite Hi. auto.
Qed.

Lemma run_idle (events : list Event) :
  (idleMs inv <= 0 \/ existsb isStdout events = false) ->
  idleTimer (run inv events) = TNull /\ killedByIdle (run inv events) = false.
Proof.
  induction events as [|e events IH] using rev_ind; [cbn; auto|].
  intros Hcase. rewrite run_snoc. apply step_idle.
  - apply IH. destruct Hcase as [Hms|Hd]; [now left|right].
    rewrite existsb_app in Hd. now apply orb_false_iff in Hd.
  - destruct Hcase as [Hms|Hd]; [now left|right].
    rewrite existsb_app in Hd. apply orb_false_iff in Hd as [_ Hd].
    cbn in Hd. now rewrite orb_false_r in Hd.
Qed.

Lemma step_reported_none (s : State) (e : Event) :
  hasProgress inv = false -> reported (step inv s e) = reported s.
Proof.
  intros Hp. destruct e; cbn [step].
  - unfold onStdoutData. cbv zeta. rewrite Hp, andb_false_r.
    unfold scheduleIdleKill. now case_match.
  - reflexivity.
  - unfold onError. now case_match.
  - unfold onClose. rewrite Hp, andb_false_r. cbn [andb].
    repeat case_match; reflexivity.
  - destruct (mainTimer s); try reflexivity.
    unfold onMainTimer. cbn. now case_match.
  - now destruct (idleTimer s).
Qed.

End Streams.

(** X9. A child killed by the idle timer had idle-kill enabled and had
    written to stdout before: with the default setting (0), or for a child
    that stays silent, the idle flag is never set and the idle timer never
    armed, whatever the loop delivers. *)
Theorem idle_kill_needs_output `{JsonParser} (inv : Invocation)
  (events : list Event) :
  (idleMs inv <= 0 \/ existsb isStdout events = false) ->
  idleTimer (run inv events) = TNull /\
  killedByIdle (run inv events) = false /\
  run inv (events ++ [IdleTimerFires]) = run inv events.
Proof.
  intros Hcase. destruct (run_idle inv events Hcase) as [Hi Hk].
  repeat split; auto. rewrite run_snoc. cbn [step]. now rewrite Hi.
Qed.

(** A silent child with idle-kill at 100 ms: only stderr arrives. *)
Lemma idle_kill_needs_output_witness :
  idleTimer (@run noJson idleInvocation [StderrData "warming up"; IdleTimerFires])
  = TNull /\
  killedByIdle (@run noJson idleInvocation [StderrData "warming up"; IdleTimerFires])
  = false /\
  @run noJson idleInvocation
    ([StderrData "warming up"; IdleTimerFires] ++ [IdleTimerFires])
  = @run noJson idleInvocation [StderrData "warming up"; IdleTimerFires].
Proof.
  apply (@idle_kill_needs_output noJson idleInvocation). right. reflexivity.
Defined.

(** X10. Without a progress consumer nothing is ever reported. *)
Theorem no_consumer_no_progress `{JsonParser} (inv : Invocation)
  (events : list Event) :
  hasProgress inv = false -> reported (run inv events) = [].
Proof.
  intros Hp. induction events as [|e events IH] using rev_ind; [reflexivity|].
  now rewrite run_snoc, step_reported_none.
Qed.

(** Output that looks like stream events, with no consumer attached. *)
Lemma no_consumer_no_progress_witness :
  reported (@run helloWorldParser idleInvocation
              [StdoutData (assistantLine "Hello" +:+ Js.nl); ProcessClose (Some 0)])
  = [].
Proof. apply (@no_consumer_no_progress helloWorldParser idleInvocation). reflexivity. Defined.

(** X11. With idle-kill disabled, the first close of a run resolves to a
    result fixed by the exit code and the chunks delivered before it:
    success with the whole stdout (or the marker) for code 0, otherwise an
    error naming the code, then the whole stderr, else the whole stdout,
    else the marker. *)
Theorem close_result_of_trace `{JsonParser} (inv : Invocation)
  (events : list Event) (code : option Z) :
  idleMs inv <= 0 ->
  existsb terminal events = false ->
  resolved (run inv (events ++ [ProcessClose code]))
  = [ if bool_decide (code = Some 0)
      then {| text := Js.or_else (stdoutOf events) "(no output)"; isError := false |}
      else {| text := "cursor-agent exited with code " +:+ codeString code +:+
                      Js.nl +:+
                      Js.or_else (stderrOf events)
                        (Js.or_else (stdoutOf events) "(no output)");
              isError := true |} ].
Proof.
  intros Hms Hnone. rewrite run_snoc. cbn [step].
  assert (Hs : settled (run inv events) = false)
    by now rewrite run_settled_iff.
  rewrite onClose_resolves by exact Hs.
  pose proof (run_guarded inv events) as Hg. unfold guarded in Hg.
  rewrite Hs in Hg. destruct Hg as [_ ->]. cbn [app].
  destruct (run_idle inv events (or_introl Hms)) as [_ Hk].
  destruct (run_output inv events) as [Ho He].
  unfold closeResult. rewrite Hk, Ho, He. cbn [andb]. rewrite orb_false_r.
  now destruct (bool_decide (code = Some 0)).
Qed.

(** Two chunks of stdout, some stderr, exit code 2. *)
Lemma close_result_of_trace_witness :
  resolved (@run noJson
              {| cmd := "cursor-agent"; validatedCwd := "/x/repo"; safeEnv := ∅;
                 spawnArgv := ["--print"; "--output-format"; "text"; "test"];
                 streamJson := false; hasProgress := false;
                 idleMs := 0; timeoutMs := defaultTimeout |}
              ([StdoutData "par"; StderrData "boom"; StdoutData "tial"]
               ++ [ProcessClose (Some 2)]))
  = [ {| text := "cursor-agent exited with code 2" +:+ Js.nl +:+ "boom";
         isError := true |} ].
Proof.
  rewrite (@close_result_of_trace noJson _
             [StdoutData "par"; StderrData "boom"; StdoutData "tial"] (Some 2));
    [reflexivity|vm_compute; discriminate|reflexivity].
Defined.

(** ** Progress decoding is advisory *)

Ltac frame_inj H :=
  unfold frame in H;
  injection H as ?Hsettled ?Hout ?Herr ?Hidle ?Hmain ?Hkilled ?Hpartial
                 ?Hspawned ?Hresolved ?Hkills.

(** Two runs that differ in the JSON parser only, hence in what the progress
    consumer is told, move in lockstep on everything else. *)
Lemma step_frame (P1 P2 : JsonParser) (inv : Invocation) (s1 s2 : State)
  (e : Event) :
  frame s1 = frame s2 ->
  frame (@step P1 inv s1 e) = frame (@step P2 inv s2 e).
Proof.
  intros Hf. frame_inj Hf. destruct e; cbn [step].
  - rewrite (@onStdoutData_frame P1), (@onStdoutData_frame P2).
    rewrite Hpartial, Hout. unfold scheduleIdleKill.
    destruct ((idleMs inv =? 0) || (idleMs inv <=? 0));
      destruct (streamJson inv && hasProgress inv);
      unfold frame; cbn; congruence.
  - unfold frame. cbn. congruence.
  - unfold onError. rewrite Hsettled. case_match.
    + unfold frame. congruence.
    + unfold frame. cbn. congruence.
  - destruct (settled s2) eqn:Hs.
    + unfold onClose. rewrite Hsettled, Hs. unfold frame. congruence.
    + rewrite (@onClose_frame P1), (@onClose_frame P2) by congruence.
      unfold closeResult. rewrite Hout, Herr, Hkilled.
      unfold frame. cbn. congruence.
  - rewrite Hmain. destruct (mainTimer s2) eqn:Hm2; try (unfold frame; congruence).
    unfold onMainTimer. cbn. rewrite Hsettled.
    case_match; unfold frame; cbn; congruence.
  - rewrite Hidle. destruct (idleTimer s2) eqn:Hi2; unfold frame; cbn; congruence.
Qed.

(** X12. Decoding progress events can never change the outcome: under any
    two JSON parsers (whatever lines parse, and to what) a run resolves the
    same results, with the same guard, timers, accumulated output, spawn
    calls and kill signals. *)
Theorem decoding_is_advisory (P1 P2 : JsonParser) (inv : Invocation)
  (events : list Event) :
  frame (@run P1 inv events) = frame (@run P2 inv events).
Proof.
  induction events as [|e events IH] using rev_ind; [reflexivity|].
  rewrite (@run_snoc P1), (@run_snoc P2). now apply step_frame.
Qed.

(** ** The stream-event handler *)

Lemma isStr_exclusive (v : option Json) (a b : string) :
  a <> b -> JsVal.isStr v a = true -> JsVal.isStr v b = false.
Proof.
  intros Hne Ha. unfold JsVal.isStr in *.
  destruct v as [[]|]; try discriminate.
  apply eqb_true in Ha. subst. now apply eqb_false.
Qed.

Ltac leaf_none := exists []; rewrite app_nil_r; split; [reflexivity|cbn; lia].

Ltac leaf_one := eexists [_]; split; [reflexivity|cbn; lia].

Lemma handleStreamEvent_one (inv : Invocation) (event : Json) (s : State) :
  hasProgress inv = true ->
  toolCount (handleStreamEvent inv event s)
  = toolCount s + (if isToolStarted event then 1 else 0) /\
  exists tail,
    reported (handleStreamEvent inv event s) = reported s ++ tail /\
    (length tail <= 1)%nat.
Proof.
  intros Hp. unfold handleStreamEvent, isToolStarted. rewrite Hp. cbn [negb orb].
  destruct (JsVal.isObject event) eqn:Hobj.
  2:{ rewrite orb_true_r. cbn [andb]. split; [lia|]. leaf_none. }
  assert (Ht : JsVal.truthy (Some event) = true)
    by (destruct event; try discriminate; reflexivity).
  rewrite Ht. cbn [negb orb andb].
  set (ty := JsVal.get (Some event) "type").
  set (st := JsVal.get (Some event) "subtype").
  destruct (JsVal.isStr ty "tool_call") eqn:Htc.
  - rewrite (isStr_exclusive ty "tool_call" "system" ltac:(discriminate) Htc),
      (isStr_exclusive ty "tool_call" "assistant" ltac:(discriminate) Htc).
    cbn [andb]. destruct (JsVal.isStr st "started") eqn:Hst.
    + repeat case_match; (split; [cbn; lia|]); first [leaf_none | leaf_one].
    + repeat case_match; (split; [cbn; lia|]); first [leaf_none | leaf_one].
  - cbn [andb].
    repeat case_match; (split; [cbn; lia|]); first [leaf_none | leaf_one].
Qed.

(** X14. With a consumer attached, the handler reports at most one progress
    event per stream event and never rewrites an earlier report; the tool
    counter grows by one for each started tool call and by nothing else
    (also for a started tool call whose report is lost because its path
    does not convert to a string). *)
Theorem tool_counter_counts_started (inv : Invocation) (events : list Json)
  (s : State) :
  hasProgress inv = true ->
  toolCount (handleAll inv events s)
  = toolCount s + Z.of_nat (length (List.filter isToolStarted events)) /\
  exists tail,
    reported (handleAll inv events s) = reported s ++ tail /\
    (length tail <= length events)%nat.
Proof.
  intros Hp. revert s. induction events as [|event events IH]; intros s.
  - cbn. split; [lia|]. exists []. rewrite app_nil_r. split; [reflexivity|]. cbn. lia.
  - unfold handleAll in *. cbn [foldl].
    destruct (handleStreamEvent_one inv event s Hp) as (Hc & t1 & Hr & Hlen).
    destruct (IH (handleStreamEvent inv event s)) as (Hc' & t2 & Hr' & Hlen').
    rewrite Hc', Hc, Hr', Hr. cbn [List.filter].
    split.
    + destruct (isToolStarted event); cbn [length]; lia.
    + exists (t1 ++ t2). rewrite app_assoc. split; [reflexivity|].
      rewrite length_app. cbn [length]. lia.
Qed.

(** Two tools started, one of them with a path that does not convert, one
    completed, one line that is no event object: the counter is 2. *)
Lemma tool_counter_counts_started_witness :
  toolCount
    (handleAll progressInvocation
       [ JObj [("type", JStr "tool_call"); ("subtype", JStr "started");
               ("tool_call", JObj [("readToolCall",
                  JObj [("args", JObj [("path",
                     JObj [("toString", JNum 1)])])])])];
         JObj [("type", JStr "tool_call"); ("subtype", JStr "completed")];
         JStr "noise";
         JObj [("type", JStr "tool_call"); ("subtype", JStr "started")] ]
       (executor progressInvocation))
  = 2.
Proof.
  destruct (tool_counter_counts_started progressInvocation
    [ JObj [("type", JStr "tool_call"); ("subtype", JStr "started");
            ("tool_call", JObj [("readToolCall",
               JObj [("args", JObj [("path",
                  JObj [("toString", JNum 1)])])])])];
      JObj [("type", JStr "tool_call"); ("subtype", JStr "completed")];
      JStr "noise";
      JObj [("type", JStr "tool_call"); ("subtype", JStr "started")] ]
    (executor progressInvocation) eq_refl) as [Hc _].
  rewrite Hc. reflexivity.
Defined.

(** ** Configuration: what can fail and what cannot *)

(** X15. Validation of the configuration can fail on [EXECUTING_CLIENT],
    [CURSOR_AGENT_PATH] and [CURSOR_AGENT_MODEL] only: when these three pass
    their schemas the configuration validates, whatever text the three
    boolean and the two millisecond variables hold; and a validated timeout
    or idle setting is never negative. *)
Theorem getValidatedEnv_failure_sources `{PathModule} (penv : gmap string string) :
  ((exists env, getValidatedEnv penv = Ok env) <->
   executingClientSchema (penv !! "EXECUTING_CLIENT") <> None /\
   (exists p, executablePathSchema (penv !! "CURSOR_AGENT_PATH") = Ok p) /\
   modelSchema (penv !! "CURSOR_AGENT_MODEL") <> None) /\
  (forall env, getValidatedEnv penv = Ok env ->
     (forall n, CURSOR_AGENT_TIMEOUT_MS env = Some n -> 0 <= n) /\
     (forall n, CURSOR_AGENT_IDLE_EXIT_MS env = Some n -> 0 <= n)).
Proof.
  split.
  - split.
    + intros [env Henv].
      destruct (getValidatedEnv_fields penv env Henv) as (Hc & Hp & Hm & _).
      rewrite Hc, Hp, Hm. repeat split; try discriminate. eauto.
    + intros (Hc & [p Hp] & Hm). unfold getValidatedEnv. rewrite Hp.
      cbn [bindR Ok].
      destruct (executingClientSchema (penv !! "EXECUTING_CLIENT")); [|contradiction].
      destruct (modelSchema (penv !! "CURSOR_AGENT_MODEL")); [|contradiction].
      eauto.
  - intros env Henv.
    destruct (getValidatedEnv_fields penv env Henv) as (_ & _ & _ & _ & _ & _ & Hi & Ht).
    rewrite Hi, Ht. unfold positiveIntMsSchema.
    split; intros n Hn; repeat case_match; try discriminate;
      injection Hn as <-; lia.
Qed.

(** Junk in every boolean and millisecond variable: the configuration still
    validates. *)
Lemma getValidatedEnv_failure_sources_witness :
  exists env,
    @getValidatedEnv posix
      {[ "DEBUG_CURSOR_MCP" := "maybe"; "CURSOR_AGENT_FORCE" := "2";
         "CURSOR_AGENT_TIMEOUT_MS" := "-5"; "CURSOR_AGENT_IDLE_EXIT_MS" := "soon" ]}
    = Ok env.
Proof.
  apply (@getValidatedEnv_failure_sources posix).
  repeat split; try (vm_compute; discriminate).
  eexists. vm_compute. reflexivity.
Defined.

(** ** What is handed to spawn *)

Lemma validateExecutablePath_token `{PathModule} (penv : gmap string string)
  (env : ValidatedEnv) (explicit : option string) (token : string) :
  getValidatedEnv penv = Ok env ->
  validateExecutablePath penv explicit = Ok token ->
  token = sentinel \/ CURSOR_AGENT_PATH env = Some token.
Proof.
  intros Henv. unfold validateExecutablePath. rewrite Henv. cbn [bindR Ok].
  destruct (blank explicit).
  - destruct (CURSOR_AGENT_PATH env) as [p|]; [|intros [= <-]; now left].
    destruct (Js.truthy p); intros [= <-]; auto.
  - cbv zeta. case_match; [intros [= <-]; now left|].
    destruct (CURSOR_AGENT_PATH env) as [p|]; [|discriminate].
    case_match; [|discriminate]. intros [= <-]. now right.
Qed.

(** X16. Whenever the synchronous prefix of [invokeCursorAgent] gets as far
    as spawning, the command is the sentinel or the validated override, the
    working directory is the process working directory or a resolved path
    contained in the base, both timer durations are non-negative with the
    defaults 30000 and 0, and stream decoding is on exactly when a progress
    consumer is attached. *)
Theorem prepare_invariants `{PathModule} (penv : gmap string string)
  (cwd0 : string) (req : Request) (inv : Invocation) :
  prepare penv cwd0 req = Ok inv ->
  exists env,
    getValidatedEnv penv = Ok env /\
    (cmd inv = sentinel \/ CURSOR_AGENT_PATH env = Some (cmd inv)) /\
    (validatedCwd inv = cwd0 \/
     validatedCwd inv = resolve cwd0 cwd0 \/
     Js.startsWith (validatedCwd inv) (resolve cwd0 cwd0 +:+ sep) = true) /\
    getSafeEnvironment penv = Ok (safeEnv inv) /\
    spawnArgv inv = finalArgv env req /\
    0 <= timeoutMs inv /\
    (CURSOR_AGENT_TIMEOUT_MS env = None -> timeoutMs inv = 30000) /\
    0 <= idleMs inv /\
    (CURSOR_AGENT_IDLE_EXIT_MS env = None -> idleMs inv = 0) /\
    streamJson inv = onProgress req /\ hasProgress inv = onProgress req.
Proof.
  unfold prepare. intros Hprep.
  destruct (validateExecutablePath penv (executable req)) as [exe|e] eqn:Hexe;
    [|discriminate]. cbn [bindR] in Hprep.
  destruct (validateWorkingDirectory cwd0 (cwd req)) as [dir|e] eqn:Hdir;
    [|discriminate]. cbn [bindR] in Hprep.
  destruct (getSafeEnvironment penv) as [safe|e] eqn:Hsafe; [|discriminate].
  cbn [bindR] in Hprep.
  destruct (getValidatedEnv penv) as [env|e] eqn:Henv; [|discriminate].
  cbn [bindR] in Hprep. injection Hprep as <-. exists env. cbn.
  destruct (getValidatedEnv_fields penv env Henv) as (_ & _ & _ & _ & _ & _ & Hi & Ht).
  split; [reflexivity|].
  split; [exact (validateExecutablePath_token penv env _ exe Henv Hexe)|].
  split.
  { unfold validateWorkingDirectory in Hdir. destruct (blank (cwd req)).
    - injection Hdir as <-. now left.
    - cbv zeta in Hdir.
      destruct (outside (resolve cwd0 (Js.trim (default EmptyString (cwd req))))
                  (resolve cwd0 cwd0)) eqn:Ho; [discriminate|].
      case_match; [discriminate|]. injection Hdir as <-.
      right. now apply outside_false. }
  split; [reflexivity|]. split; [reflexivity|].
  assert (Hnn : forall v n, positiveIntMsSchema v = Some n -> 0 <= n).
  { intros v n. unfold positiveIntMsSchema. repeat case_match; try discriminate.
    intros [= <-]. lia. }
  split.
  { destruct (CURSOR_AGENT_TIMEOUT_MS env) as [n|] eqn:Hn; cbn.
    - apply (Hnn (penv !! "CURSOR_AGENT_TIMEOUT_MS")). congruence.
    - unfold defaultTimeout. lia. }
  split; [now intros ->|].
  split.
  { destruct (CURSOR_AGENT_IDLE_EXIT_MS env) as [n|] eqn:Hn; cbn.
    - apply (Hnn (penv !! "CURSOR_AGENT_IDLE_EXIT_MS")). congruence.
    - lia. }
  split; [now intros ->|]. split; reflexivity.
Qed.

(** A timeout of 100 ms and a working directory below the base. *)
Lemma prepare_invariants_witness :
  exists inv,
    @prepare posix {[ "CURSOR_AGENT_TIMEOUT_MS" := "100" ]} "/x/repo"
      {| argv := Some ["hello"]; output_format := None; cwd := Some "src";
         executable := None; model := None; force := None; print := None;
         onProgress := true; signal := None |} = Ok inv /\
    cmd inv = "cursor-agent" /\ validatedCwd inv = "/x/repo/src" /\
    timeoutMs inv = 100 /\ idleMs inv = 0 /\ streamJson inv = true.
Proof.
  assert (Hrun : exists inv,
            @prepare posix {[ "CURSOR_AGENT_TIMEOUT_MS" := "100" ]} "/x/repo"
              {| argv := Some ["hello"]; output_format := None; cwd := Some "src";
                 executable := None; model := None; force := None; print := None;
                 onProgress := true; signal := None |} = Ok inv /\
            cmd inv = "cursor-agent" /\ validatedCwd inv = "/x/repo/src" /\
            timeoutMs inv = 100).
  { eexists. split; [vm_compute; reflexivity|]. repeat split. }
  destruct Hrun as (inv & Hinv & Hcmd & Hdir & Htimeout).
  destruct (@prepare_invariants posix _ _ _ inv Hinv)
    as (env & Henv & _ & _ & _ & _ & _ & _ & _ & Hidle & Hstream & _).
  exists inv. repeat split; try assumption.
  apply Hidle.
  assert (Hfields : @getValidatedEnv posix {[ "CURSOR_AGENT_TIMEOUT_MS" := "100" ]}
                    = Ok env) by exact Henv.
  destruct (getValidatedEnv_fields _ env Hfields) as (_ & _ & _ & _ & _ & _ & -> & _).
  reflexivity.
Defined.

(** ** One spawn, and kills by timers only *)

Lemma step_spawned `{JsonParser} (inv : Invocation) (s : State) (e : Event) :
  spawned (step inv s e) = spawned s.
Proof.
  destruct e; cbn [step].
  - pose proof (onStdoutData_frame inv chunk s) as Hf. unfold frame in Hf.
    injection Hf as _ _ _ _ _ _ _ -> _ _.
    cbn [spawned set_partialLine]. unfold scheduleIdleKill. now case_match.
  - reflexivity.
  - unfold onError. now case_match.
  - destruct (settled s) eqn:Hs.
    + unfold onClose. now rewrite Hs.
    + pose proof (onClose_frame inv code s Hs) as Hf. unfold frame in Hf.
      now injection Hf as _ _ _ _ _ _ _ -> _ _.
  - destruct (mainTimer s); try reflexivity.
    unfold onMainTimer. cbn. now case_match.
  - now destruct (idleTimer s).
Qed.

Lemma step_kills `{JsonParser} (inv : Invocation) (s : State) (e : Event) :
  isTimer e = false -> kills (step inv s e) = kills s.
Proof.
  destruct e; try discriminate; intros _; cbn [step].
  - pose proof (onStdoutData_frame inv chunk s) as Hf. unfold frame in Hf.
    injection Hf as _ _ _ _ _ _ _ _ _ ->.
    cbn [kills set_partialLine]. unfold scheduleIdleKill. now case_match.
  - reflexivity.
  - unfold onError. now case_match.
  - destruct (settled s) eqn:Hs.
    + unfold onClose. now rewrite Hs.
    + pose proof (onClose_frame inv code s Hs) as Hf. unfold frame in Hf.
      now injection Hf as _ _ _ _ _ _ _ _ _ ->.
Qed.

(** X17. An invocation spawns its child once and never again, whatever
    happens; and it sends no kill signal unless one of its timers fires. *)
Theorem one_spawn_kill_by_timer `{JsonParser} (inv : Invocation)
  (events : list Event) :
  spawned (run inv events) = [(cmd inv, spawnArgv inv)] /\
  (existsb isTimer events = false -> kills (run inv events) = 0%nat).
Proof.
  split.
  - induction events as [|e events IH] using rev_ind; [reflexivity|].
    now rewrite run_snoc, step_spawned.
  - induction events as [|e events IH] using rev_ind; [reflexivity|].
    rewrite existsb_app. intros Hn. apply orb_false_iff in Hn as [Hn He].
    cbn in He. rewrite orb_false_r in He.
    now rewrite run_snoc, step_kills, IH.
Qed.

(** A spawn error followed by close: one spawn, no kill. *)
Lemma one_spawn_kill_by_timer_witness :
  kills (@run noJson idleInvocation
           [ProcessError "spawn ENOENT" "Error: spawn ENOENT"; ProcessClose (Some 1)])
  = 0%nat.
Proof.
  apply (@one_spawn_kill_by_timer noJson idleInvocation). reflexivity.
Defined.
(** ** Line buffering of the stream decoder *)

Lemma split_nonempty (c : ascii) (s : string) : Js.split c s <> [].
Proof.
  destruct s as [|d t]; [discriminate|]. cbn [Js.split].
  destruct (Ascii.eqb d c); [discriminate|].
  destruct (Js.split c t); discriminate.
Qed.

Lemma split_append (c : ascii) (a b : string) :
  Js.split c (a +:+ b)
  = removelast (Js.split c a) ++
    (default EmptyString (last (Js.split c a)) +:+ hd EmptyString (Js.split c b))
    :: tl (Js.split c b).
Proof.
  induction a as [|d a IH].
  - change (EmptyString +:+ b) with b.
    destruct (Js.split c b) eqn:Hb; [now apply split_nonempty in Hb|reflexivity].
  - change (String d a +:+ b) with (String d (a +:+ b)). cbn [Js.split].
    rewrite IH. clear IH.
    destruct (Js.split c a) as [|seg rest] eqn:Ha; [now apply split_nonempty in Ha|].
    destruct (Ascii.eqb d c).
    + destruct rest; reflexivity.
    + destruct rest; reflexivity.
Qed.

Lemma split_atomic (c : ascii) (s : string) :
  Forall (fun seg => Js.split c seg = [seg]) (Js.split c s).
Proof.
  induction s as [|d t IH]; [repeat constructor|].
  cbn [Js.split]. destruct (Ascii.eqb d c) eqn:Hd; [now constructor|].
  destruct (Js.split c t) as [|seg rest]; [repeat constructor; cbn; now rewrite Hd|].
  inversion IH as [|? ? Hseg Hrest]; subst. constructor; [|exact Hrest].
  cbn [Js.split]. now rewrite Hd, Hseg.
Qed.

(** Splitting what was buffered plus two chunks: the complete lines of the
    first chunk, then the split of the carried-over line plus the second. *)
Lemma split_carry (c : ascii) (p c1 c2 : string) :
  Js.split c (p +:+ c1 +:+ c2)
  = removelast (Js.split c (p +:+ c1)) ++
    Js.split c (default EmptyString (last (Js.split c (p +:+ c1))) +:+ c2).
Proof.
  rewrite <- append_assoc, split_append. f_equal.
  pose proof (split_atomic c (p +:+ c1)) as Hat.
  destruct (last (Js.split c (p +:+ c1))) as [l1|] eqn:Hl.
  - cbn [default from_option id].
    assert (Hone : Js.split c l1 = [l1]).
    { apply last_Some in Hl as [l' Hl]. rewrite Hl in Hat.
      apply Forall_app in Hat as [_ Hat]. now inversion Hat. }
    rewrite split_append, Hone. reflexivity.
  - apply last_None in Hl. now apply split_nonempty in Hl.
Qed.

Lemma state_ext (s1 s2 : State) :
  frame s1 = frame s2 -> decoderView s1 = decoderView s2 -> s1 = s2.
Proof.
  destruct s1, s2. unfold frame, decoderView. cbn.
  intros [= -> -> -> -> -> -> -> -> -> ->] [= -> -> ->]. reflexivity.
Qed.

Section Chunks.
Context `{JsonParser}.
Variable inv : Invocation.

Lemma handleStreamEvent_decoderView (event : Json) (s1 s2 : State) :
  decoderView s1 = decoderView s2 ->
  decoderView (handleStreamEvent inv event s1)
  = decoderView (handleStreamEvent inv event s2).
Proof.
  unfold decoderView. intros [= Ha Ht Hr]. unfold handleStreamEvent.
  repeat case_match; cbn; rewrite ?Ha, ?Ht, ?Hr; reflexivity.
Qed.

Lemma decodeLines_decoderView (lines : list string) (s1 s2 : State) :
  decoderView s1 = decoderView s2 ->
  decoderView (foldl (decodeLine inv) s1 lines)
  = decoderView (foldl (decodeLine inv) s2 lines).
Proof.
  revert s1 s2. induction lines as [|line lines IH]; intros s1 s2 Hv; [exact Hv|].
  cbn [foldl]. apply IH. unfold decodeLine.
  repeat case_match; try exact Hv. now apply handleStreamEvent_decoderView.
Qed.

Lemma scheduleIdleKill_decoderView (s : State) :
  decoderView (scheduleIdleKill inv s) = decoderView s.
Proof. unfold scheduleIdleKill. now case_match. Qed.

Lemma buffered_decoderView (line output : string) (s : State) :
  decoderView (set_partialLine line (scheduleIdleKill inv (set_out output s)))
  = decoderView s.
Proof.
  unfold scheduleIdleKill.
  destruct ((idleMs inv =? 0) || (idleMs inv <=? 0)); reflexivity.
Qed.

(** One chunk or the same bytes in two chunks: the same state. *)
Lemma onStdoutData_chunks (c1 c2 : string) (s : State) :
  hasProgress inv = false \/ streamJson inv = true ->
  onStdoutData inv c2 (onStdoutData inv c1 s) = onStdoutData inv (c1 +:+ c2) s.
Proof.
  intros Hmode. apply state_ext.
  - pose proof (onStdoutData_frame inv c1 s) as Hf1.
    rewrite !onStdoutData_frame.
    set (t := onStdoutData inv c1 s) in *. frame_inj Hf1.
    cbn in Hout, Hpartial, Hsettled, Herr, Hidle, Hmain, Hkilled, Hspawned,
      Hresolved, Hkills.
    assert (Hsched : forall u, out (scheduleIdleKill inv u) = out u /\
                               partialLine (scheduleIdleKill inv u) = partialLine u)
      by (intros u; unfold scheduleIdleKill;
          destruct ((idleMs inv =? 0) || (idleMs inv <=? 0)); split; reflexivity).
    destruct (Hsched (set_out (out s +:+ c1) s)) as [Ho1 _].
    rewrite Ho1 in Hout. cbn in Hout.
    assert (Hline :
      (if streamJson inv && hasProgress inv
       then default EmptyString (last (Js.split Js.nl_char (partialLine t +:+ c2)))
       else partialLine t)
      = (if streamJson inv && hasProgress inv
         then default EmptyString
                (last (Js.split Js.nl_char (partialLine s +:+ c1 +:+ c2)))
         else partialLine s)).
    { rewrite Hpartial. destruct (streamJson inv && hasProgress inv); [|reflexivity].
      rewrite split_carry.
      rewrite last_app.
      destruct (last (Js.split Js.nl_char
                  (default EmptyString (last (Js.split Js.nl_char (partialLine s +:+ c1)))
                   +:+ c2))) eqn:Hl; [reflexivity|].
      apply last_None in Hl. now apply split_nonempty in Hl. }
    rewrite Hline. rewrite Hout, append_assoc.
    unfold frame, scheduleIdleKill in *.
    destruct ((idleMs inv =? 0) || (idleMs inv <=? 0)); cbn in *; congruence.
  - unfold onStdoutData. cbv zeta.
    assert (Hp : forall u, partialLine (scheduleIdleKill inv u) = partialLine u)
      by (intros u; unfold scheduleIdleKill; now case_match).
    rewrite !Hp. cbn [partialLine set_out].
    destruct (streamJson inv && hasProgress inv) eqn:Hsp.
    + set (A1 := set_partialLine
                   (default EmptyString
                      (last (Js.split Js.nl_char (partialLine s +:+ c1))))
                   (scheduleIdleKill inv (set_out (out s +:+ c1) s))).
      set (ls1 := removelast (Js.split Js.nl_char (partialLine s +:+ c1))).
      assert (Hpt : partialLine (foldl (decodeLine inv) A1 ls1)
                    = default EmptyString
                        (last (Js.split Js.nl_char (partialLine s +:+ c1)))).
      { pose proof (decodeLines_frame inv ls1 A1) as Hf. frame_inj Hf.
        rewrite Hpartial. reflexivity. }
      rewrite Hpt, split_carry. fold ls1.
      rewrite removelast_app by apply split_nonempty.
      rewrite foldl_app.
      apply decodeLines_decoderView.
      rewrite buffered_decoderView.
      apply decodeLines_decoderView.
      unfold A1. now rewrite !buffered_decoderView.
    + destruct Hmode as [Hno|Hstream].
      * rewrite Hno. unfold decoderView, scheduleIdleKill.
        repeat case_match; reflexivity.
      * rewrite Hstream in Hsp. cbn in Hsp. rewrite Hsp.
        unfold decoderView, scheduleIdleKill. repeat case_match; reflexivity.
Qed.

End Chunks.

Lemma prepare_stream `{PathModule} (penv : gmap string string) (cwd0 : string)
  (req : Request) (inv : Invocation) :
  prepare penv cwd0 req = Ok inv -> streamJson inv = hasProgress inv.
Proof.
  unfold prepare. intros Hprep.
  destruct (validateExecutablePath penv (executable req)); [|discriminate].
  cbn [bindR] in Hprep.
  destruct (validateWorkingDirectory cwd0 (cwd req)); [|discriminate].
  cbn [bindR] in Hprep.
  destruct (getSafeEnvironment penv); [|discriminate]. cbn [bindR] in Hprep.
  destruct (getValidatedEnv penv); [|discriminate]. cbn [bindR] in Hprep.
  now injection Hprep as <-.
Qed.

(** X18. How the decoded text of the child's stdout is spread over [data]
    events does not matter: an invocation whose handler receives the texts
    [c1] and then [c2] and one whose handler receives [c1 + c2] at once end
    in the same state (same output, same buffered partial line, same
    progress reports, same result).  The chunks here are the strings
    [d.toString()] yields; the source decodes every buffer on its own, so a
    cut inside a multi-byte character yields other strings and is not what
    this is about. *)
Theorem stdout_chunking_irrelevant `{PathModule} `{JsonParser}
  (penv : gmap string string) (cwd0 : string) (req : Request)
  (before after : list Event) (c1 c2 : string) :
  invokeCursorAgent penv cwd0 req
    (before ++ StdoutData c1 :: StdoutData c2 :: after)
  = invokeCursorAgent penv cwd0 req
      (before ++ StdoutData (c1 +:+ c2) :: after).
Proof.
  unfold invokeCursorAgent.
  destruct (prepare penv cwd0 req) as [inv|e] eqn:Hprep; [|reflexivity].
  cbn [bindR]. unfold Ok. f_equal. unfold run. rewrite !foldl_app.
  cbn [foldl step]. rewrite onStdoutData_chunks; [reflexivity|].
  rewrite (prepare_stream penv cwd0 req inv Hprep).
  destruct (hasProgress inv); auto.
Qed.
(** ** The tool layer *)

Lemma prepare_argv `{PathModule} (penv : gmap string string) (cwd0 : string)
  (req : Request) (inv : Invocation) :
  prepare penv cwd0 req = Ok inv ->
  exists env, getValidatedEnv penv = Ok env /\ spawnArgv inv = finalArgv env req.
Proof.
  unfold prepare. intros Hprep.
  destruct (validateExecutablePath penv (executable req)); [|discriminate].
  cbn [bindR] in Hprep.
  destruct (validateWorkingDirectory cwd0 (cwd req)); [|discriminate].
  cbn [bindR] in Hprep.
  destruct (getSafeEnvironment penv); [|discriminate]. cbn [bindR] in Hprep.
  destruct (getValidatedEnv penv) as [env|]; [|discriminate]. cbn [bindR] in Hprep.
  exists env. now injection Hprep as <-.
Qed.

Lemma invoke_run `{PathModule} `{JsonParser} (penv : gmap string string)
  (cwd0 : string) (req : Request) (events : list Event) (s : State) :
  invokeCursorAgent penv cwd0 req events = Ok s ->
  exists inv env,
    prepare penv cwd0 req = Ok inv /\ getValidatedEnv penv = Ok env /\
    spawnArgv inv = finalArgv env req /\ s = run inv events.
Proof.
  unfold invokeCursorAgent. intros Hs.
  destruct (prepare penv cwd0 req) as [inv|e] eqn:Hprep; [|discriminate].
  cbn [bindR] in Hs. injection Hs as <-.
  destruct (prepare_argv penv cwd0 req inv Hprep) as (env & Henv & Hargv).
  exists inv, env. auto.
Qed.

Lemma run_resolved `{JsonParser} (inv : Invocation) (events : list Event) :
  (existsb terminal events = false /\ resolved (run inv events) = []) \/
  (existsb terminal events = true /\ exists r, resolved (run inv events) = [r]).
Proof.
  pose proof (run_guarded inv events) as Hg. unfold guarded in Hg.
  rewrite run_settled_iff in Hg.
  destruct (existsb terminal events); [right|left]; tauto.
Qed.

Lemma run_spawned `{JsonParser} (inv : Invocation) (events : list Event) :
  spawned (run inv events) = [(cmd inv, spawnArgv inv)].
Proof.
  induction events as [|e events IH] using rev_ind; [reflexivity|].
  now rewrite run_snoc, step_spawned.
Qed.

(** What [runCursorAgent] returns when it does not reject. *)
Lemma runCursorAgent_ok `{PathModule} `{JsonParser} (penv : gmap string string)
  (cwd0 : string) (input : RunInput) (progress : bool) (events : list Event)
  (h : Handled) :
  runCursorAgent penv cwd0 input progress events = Ok h ->
  exists inv env,
    prepare penv cwd0 (runRequest (sourceOf input) progress) = Ok inv /\
    getValidatedEnv penv = Ok env /\
    spawnArgv inv = finalArgv env (runRequest (sourceOf input) progress) /\
    child h = Some (run inv events) /\
    answer h
    = match resolved (run inv events) with
      | r :: _ =>
          Some {| content :=
                    (if CURSOR_AGENT_ECHO_PROMPT env ||
                        bool_decide (arg_echo_prompt (src_common (sourceOf input))
                                     = Some true)
                     then ["Prompt used:" +:+ Js.nl +:+
                           promptString (src_prompt (sourceOf input))]
                     else []) ++ [text r];
                  toolError := isError r |}
      | [] => None
      end.
Proof.
  unfold runCursorAgent. cbv zeta. intros Hrun.
  destruct (getValidatedEnv penv) as [env0|e] eqn:Henv; [|discriminate].
  cbn [bindR] in Hrun.
  destruct (invokeCursorAgent penv cwd0 (runRequest (sourceOf input) progress) events)
    as [s|e] eqn:Hinv; [|discriminate].
  cbn [bindR] in Hrun. injection Hrun as <-.
  destruct (invoke_run penv cwd0 _ events s Hinv) as (inv & env & Hprep & Henv' & Hargv & ->).
  rewrite Henv in Henv'. injection Henv' as <-.
  exists inv, env0. repeat split; auto. cbn [answer].
  destruct (resolved (run inv events)) as [|r rest]; [reflexivity|].
  now destruct (CURSOR_AGENT_ECHO_PROMPT env0 ||
                bool_decide (arg_echo_prompt (src_common (sourceOf input)) = Some true)).
Qed.

(** X19. A call of [runCursorAgent] behind a tool's catch clause never
    rejects.  Either no child was started and the answer is an Invalid
    params error, or one child was spawned and the call is pending exactly
    as long as no terminal event (close, error, main timer) has occurred;
    an answer, once there, carries the invocation's error flag and its text
    as last content part. *)
Theorem tool_call_outcome `{PathModule} `{JsonParser} (penv : gmap string string)
  (cwd0 : string) (input : RunInput) (progress : bool) (events : list Event) :
  let h := caught (runCursorAgent penv cwd0 input progress events) in
  match child h with
  | None =>
      exists e, runCursorAgent penv cwd0 input progress events = inr e /\
                answer h = Some (invalidParams e)
  | Some s =>
      (exists cmd args, spawned s = [(cmd, args)]) /\
      (answer h = None <-> existsb terminal events = false) /\
      (forall res, answer h = Some res ->
         exists r, resolved s = [r] /\ toolError res = isError r /\
                   last (content res) = Some (text r))
  end.
Proof.
  cbv zeta.
  destruct (runCursorAgent penv cwd0 input progress events) as [h|e] eqn:Hrun.
  - cbn [caught].
    destruct (runCursorAgent_ok penv cwd0 input progress events h Hrun)
      as (inv & env & _ & _ & _ & Hchild & Hanswer).
    rewrite Hchild, Hanswer. split; [rewrite run_spawned; eauto|].
    destruct (run_resolved inv events) as [[Hnone Hr]|[Hsome [r Hr]]];
      rewrite Hr, ?Hnone, ?Hsome.
    + split; [tauto|discriminate].
    + split; [split; discriminate|].
      intros res [= <-]. exists r. cbn. repeat split.
      apply last_snoc.
  - cbn. eauto.
Qed.

(** X20. The prompt is echoed in front of the result exactly when
    [CURSOR_AGENT_ECHO_PROMPT] is on or the arguments object read carries
    [echo_prompt: true]; the echoed text is the prompt as it was sent, and
    the error flag is kept. *)
Theorem runCursorAgent_echo `{PathModule} `{JsonParser} (penv : gmap string string)
  (cwd0 : string) (input : RunInput) (progress : bool) (events : list Event)
  (h : Handled) (res : ToolResult) :
  runCursorAgent penv cwd0 input progress events = Ok h ->
  answer h = Some res ->
  exists env s r,
    getValidatedEnv penv = Ok env /\ child h = Some s /\ resolved s = [r] /\
    toolError res = isError r /\
    content res
    = if CURSOR_AGENT_ECHO_PROMPT env ||
         bool_decide (arg_echo_prompt (src_common (sourceOf input)) = Some true)
      then ["Prompt used:" +:+ Js.nl +:+ promptString (src_prompt (sourceOf input));
            text r]
      else [text r].
Proof.
  intros Hrun Hres.
  destruct (runCursorAgent_ok penv cwd0 input progress events h Hrun)
    as (inv & env & _ & Henv & _ & Hchild & Hanswer).
  rewrite Hanswer in Hres.
  destruct (run_resolved inv events) as [[_ Hr]|[_ [r Hr]]]; rewrite Hr in Hres;
    [discriminate|].
  injection Hres as <-. exists env, (run inv events), r. cbn.
  repeat split; auto.
  now destruct (CURSOR_AGENT_ECHO_PROMPT env ||
                bool_decide (arg_echo_prompt (src_common (sourceOf input)) = Some true)).
Qed.
(** Echo on by the environment: the prompt precedes the output. *)
Lemma runCursorAgent_echo_witness :
  exists h res,
    @runCursorAgent posix noJson {[ "CURSOR_AGENT_ECHO_PROMPT" := "yes" ]} "/x/repo"
      {| input_source := {| src_prompt := Some "hi"; src_common := noOptions |};
         input_arguments := None |}
      false [StdoutData "hello"; ProcessClose (Some 0)] = Ok h /\
    answer h = Some res /\
    content res = ["Prompt used:" +:+ Js.nl +:+ "hi"; "hello"] /\
    exists env s r,
      @getValidatedEnv posix {[ "CURSOR_AGENT_ECHO_PROMPT" := "yes" ]} = Ok env /\
      child h = Some s /\ resolved s = [r] /\ toolError res = isError r /\
      content res
      = if CURSOR_AGENT_ECHO_PROMPT env ||
           bool_decide (arg_echo_prompt noOptions = Some true)
        then ["Prompt used:" +:+ Js.nl +:+ "hi"; text r]
        else [text r].
Proof.
  assert (Hrun : exists h res,
    @runCursorAgent posix noJson {[ "CURSOR_AGENT_ECHO_PROMPT" := "yes" ]} "/x/repo"
      {| input_source := {| src_prompt := Some "hi"; src_common := noOptions |};
         input_arguments := None |}
      false [StdoutData "hello"; ProcessClose (Some 0)] = Ok h /\
    answer h = Some res /\
    content res = ["Prompt used:" +:+ Js.nl +:+ "hi"; "hello"]).
  { eexists. eexists. split; [vm_compute; reflexivity|]. split; reflexivity. }
  destruct Hrun as (h & res & Hh & Hres & Hcontent).
  exists h, res. repeat split; try assumption.
  exact (@runCursorAgent_echo posix noJson _ _ _ _ _ h res Hh Hres).
Defined.

(** ** The prompt-composing tools *)

Lemma finalArgv_ends_with_prompt (env : ValidatedEnv) (req : Request) (p : string) :
  promptArg (default [] (argv req)) = Some p -> last (finalArgv env req) = Some p.
Proof.
  intros Hp. unfold finalArgv. cbv zeta. rewrite Hp, !app_assoc. apply last_snoc.
Qed.

Lemma runComposed_spawn `{PathModule} `{JsonParser} (penv : gmap string string)
  (cwd0 : string) (prompt : string) (common : CommonArgs) (extra : Extra)
  (events : list Event) :
  prompt <> EmptyString -> Js.startsWith prompt "-" = false ->
  spawnsWithPrompt (caught (runComposed penv cwd0 prompt common extra events)) prompt.
Proof.
  intros Hne Hd s. unfold runComposed.
  destruct (runCursorAgent penv cwd0 _ (createProgressCallback extra) events)
    as [h|e] eqn:Hrun; [|discriminate].
  cbn [caught].
  destruct (runCursorAgent_ok _ _ _ _ _ h Hrun)
    as (inv & env & _ & _ & Hargv & Hchild & _).
  rewrite Hchild. intros [= <-]. exists (cmd inv), (spawnArgv inv).
  split; [apply run_spawned|]. rewrite Hargv.
  apply finalArgv_ends_with_prompt. apply promptArg_last.
  cbn. rewrite last_snoc. auto.
Qed.

Lemma caught_bind_child {A} (r : Result A) (k : A -> Result Handled) (s : State) :
  child (caught (bindR r k)) = Some s ->
  exists a, r = Ok a /\ child (caught (k a)) = Some s.
Proof. destruct r as [a|e]; [eauto|discriminate]. Qed.

Lemma literal_prompt (c : ascii) (lit rest : string) :
  Ascii.eqb c "-" = false ->
  String c lit +:+ rest <> EmptyString /\
  Js.startsWith (String c lit +:+ rest) "-" = false.
Proof.
  intros Hc. change (String c lit +:+ rest) with (String c (lit +:+ rest)).
  split; [discriminate|].
  unfold Js.startsWith. cbn [String.prefix].
  destruct (Ascii.ascii_dec "-" c) as [<-|]; [discriminate|reflexivity].
Qed.

(** X21. Each of the four prompt-composing tools, when it starts a child,
    spawns it once with the composed prompt as the last argument, after the
    caller's extra arguments and every injected flag; for the file tools
    the paths named in the prompt are the validated ones. *)
Theorem composed_prompt_is_last `{PathModule} `{JsonParser}
  (penv : gmap string string) (cwd0 : string) (common : CommonArgs)
  (extra : Extra) (events : list Event) :
  (forall file instruction apply dry_run prompt s,
     child (cursor_agent_edit_file penv cwd0 file instruction apply dry_run
              prompt common extra events) = Some s ->
     exists validatedFile cmd args,
       validateFilePath cwd0 (Some file) = Ok validatedFile /\
       spawned s = [(cmd, args)] /\
       last args = Some (editFilePrompt validatedFile instruction
                           (default false apply) (default false dry_run) prompt)) /\
  (forall paths prompt s,
     child (cursor_agent_analyze_files penv cwd0 paths prompt common extra events)
     = Some s ->
     exists validatedPaths cmd args,
       validateAll cwd0 (match paths with inl p => [p] | inr l => l end)
       = Ok validatedPaths /\
       spawned s = [(cmd, args)] /\
       last args = Some (analyzeFilesPrompt validatedPaths prompt)) /\
  (forall query include exclude,
     spawnsWithPrompt
       (cursor_agent_search_repo penv cwd0 query include exclude common extra events)
       (searchRepoPrompt query (globList include) (globList exclude))) /\
  (forall goal constraints,
     spawnsWithPrompt
       (cursor_agent_plan_task penv cwd0 goal constraints common extra events)
       (planTaskPrompt goal (default [] constraints))).
Proof.
  split; [|split; [|split]].
  - intros file instruction apply dry_run prompt s Hs.
    unfold cursor_agent_edit_file in Hs.
    apply caught_bind_child in Hs as (vf & Hvf & Hs).
    exists vf.
    destruct (runComposed_spawn penv cwd0
                (editFilePrompt vf instruction (default false apply)
                   (default false dry_run) prompt) common extra events) with (s := s)
      as (cmd & args & Hsp & Hl); try exact Hs.
    + apply literal_prompt. reflexivity.
    + apply literal_prompt. reflexivity.
    + eauto.
  - intros paths prompt s Hs. unfold cursor_agent_analyze_files in Hs. cbv zeta in Hs.
    apply caught_bind_child in Hs as (vs & Hvs & Hs).
    exists vs.
    destruct (runComposed_spawn penv cwd0 (analyzeFilesPrompt vs prompt)
                common extra events) with (s := s)
      as (cmd & args & Hsp & Hl); try exact Hs.
    + apply literal_prompt. reflexivity.
    + apply literal_prompt. reflexivity.
    + eauto.
  - intros query include exclude. unfold cursor_agent_search_repo.
    apply runComposed_spawn; apply literal_prompt; reflexivity.
  - intros goal constraints. unfold cursor_agent_plan_task.
    apply runComposed_spawn; apply literal_prompt; reflexivity.
Qed.

Lemma validateAll_ok `{PathModule} (cwd0 : string) (paths vs : list string) :
  validateAll cwd0 paths = Ok vs <->
  Forall2 (fun p v => validateFilePath cwd0 (Some p) = Ok v) paths vs.
Proof.
  revert vs. induction paths as [|p paths IH]; intros vs; cbn [validateAll].
  - split; [intros [= <-]; constructor|intros Hf; now inversion Hf].
  - destruct (validateFilePath cwd0 (Some p)) as [v|e] eqn:Hp; cbn [bindR].
    + destruct (validateAll cwd0 paths) as [vs'|e] eqn:Hrest; cbn [bindR].
      * split.
        -- intros [= <-]. constructor; [exact Hp|]. now apply IH.
        -- intros Hf. inversion Hf as [|? v' ? vs'' Hv Hvs]; subst.
           apply IH in Hvs. injection Hvs as <-. rewrite Hp in Hv.
           now injection Hv as <-.
      * split; [discriminate|].
        intros Hf. inversion Hf as [|? v' ? vs'' Hv Hvs]; subst.
        apply IH in Hvs. discriminate.
    + split; [discriminate|].
      intros Hf. inversion Hf as [|? v' ? vs'' Hv Hvs]; subst.
      rewrite Hp in Hv. discriminate.
Qed.

Lemma validateAll_err `{PathModule} (cwd0 : string) (paths : list string) :
  Exists (fun p => exists e, validateFilePath cwd0 (Some p) = inr e) paths ->
  exists e, validateAll cwd0 paths = inr e /\
            (kind e = MissingPath \/ kind e = PathEscape).
Proof.
  assert (Hkind : forall p e, validateFilePath cwd0 (Some p) = inr e ->
                    kind e = MissingPath \/ kind e = PathEscape).
  { intros p e. unfold validateFilePath. cbv zeta.
    repeat case_match; intros [= <-]; cbn; auto. }
  induction paths as [|p paths IH]; intros Hex; [inversion Hex|].
  cbn [validateAll].
  destruct (validateFilePath cwd0 (Some p)) as [v|e] eqn:Hp; cbn [bindR].
  - inversion Hex as [? ? [e He]|? ? Hrest]; subst; [congruence|].
    destruct (IH Hrest) as (e & -> & Hk). cbn [bindR]. eauto.
  - eauto.
Qed.

(** X23. [cursor_agent_raw] passes the caller's argument vector verbatim,
    with no [--print] or output-format flag, when neither the call nor the
    environment asks for force or a model. *)
Theorem raw_passes_argv_verbatim `{PathModule} `{JsonParser}
  (penv : gmap string string) (cwd0 : string) (rawArgv : list string)
  (common : CommonArgs) (extra : Extra) (events : list Event)
  (env : ValidatedEnv) (s : State) :
  getValidatedEnv penv = Ok env ->
  CURSOR_AGENT_FORCE env = false -> CURSOR_AGENT_MODEL env = None ->
  arg_force common = None -> arg_model common = None ->
  child (cursor_agent_raw penv cwd0 rawArgv common extra events) = Some s ->
  exists cmd, spawned s = [(cmd, rawArgv)].
Proof.
  intros Henv Hforce Hmodel Haf Ham Hs. unfold cursor_agent_raw in Hs.
  apply caught_bind_child in Hs as (s0 & Hinv & Hs). cbn in Hs.
  injection Hs as <-.
  destruct (invoke_run penv cwd0 _ events s0 Hinv)
    as (inv & env' & _ & Henv' & Hargv & ->).
  rewrite Henv in Henv'. injection Henv' as <-.
  exists (cmd inv). rewrite run_spawned, Hargv. do 2 f_equal.
  unfold finalArgv, effectiveForce, effectiveModel. cbn.
  rewrite Haf, Ham, Hforce, Hmodel. rewrite orb_true_r, andb_false_r. cbn [app].
  unfold argsWithoutPrompt.
  destruct (promptArg rawArgv) as [p|] eqn:Hp.
  - symmetry. apply last_removelast. now apply promptArg_last in Hp.
  - now rewrite app_nil_r.
Qed.

(** [--help] reaches the child as it is. *)
Lemma raw_passes_argv_verbatim_witness :
  exists s cmd,
    child (@cursor_agent_raw posix noJson ∅ "/x/repo" ["--help"] noOptions
             noExtra []) = Some s /\
    spawned s = [(cmd, ["--help"])].
Proof.
  assert (Hrun : exists s,
    child (@cursor_agent_raw posix noJson ∅ "/x/repo" ["--help"] noOptions
             noExtra []) = Some s).
  { eexists. vm_compute. reflexivity. }
  destruct Hrun as [s Hs]. exists s.
  destruct (@raw_passes_argv_verbatim posix noJson ∅ "/x/repo" ["--help"]
              noOptions noExtra []
              {| EXECUTING_CLIENT := None; CURSOR_AGENT_PATH := None;
                 DEBUG_CURSOR_MCP := false; CURSOR_AGENT_ECHO_PROMPT := false;
                 CURSOR_AGENT_MODEL := None; CURSOR_AGENT_FORCE := false;
                 CURSOR_AGENT_IDLE_EXIT_MS := None; CURSOR_AGENT_TIMEOUT_MS := None |}
              s)
    as [cmd Hcmd]; try reflexivity; try exact Hs.
  exists cmd. auto.
Defined.

(** An edit of [src/a.js]: the prompt names the resolved path and comes
    last. *)
Lemma composed_prompt_is_last_witness :
  exists s validatedFile cmd args,
    child (@cursor_agent_edit_file posix noJson ∅ "/x/repo" "src/a.js"
             "rename foo to bar" None None None noOptions noExtra []) = Some s /\
    @validateFilePath posix "/x/repo" (Some "src/a.js") = Ok validatedFile /\
    spawned s = [(cmd, args)] /\
    last args = Some (editFilePrompt validatedFile "rename foo to bar"
                        (default false None) (default false None) None).
Proof.
  assert (Hrun : exists s,
    child (@cursor_agent_edit_file posix noJson ∅ "/x/repo" "src/a.js"
             "rename foo to bar" None None None noOptions noExtra []) = Some s).
  { eexists. vm_compute. reflexivity. }
  destruct Hrun as [s Hs]. exists s.
  destruct (@composed_prompt_is_last posix noJson ∅ "/x/repo" noOptions noExtra [])
    as (Hedit & _).
  destruct (Hedit "src/a.js" "rename foo to bar" None None None s Hs)
    as (vf & cmd & args & Hvf & Hsp & Hl).
  exists vf, cmd, args. auto.
Defined.

(** ** Decimal round trip of the millisecond settings *)

Lemma parseDigits_acc (d : Decimal.uint) (a : positive) :
  parseDigits (Some (Z.pos a)) (NilEmpty.string_of_uint d)
  = Some (Z.pos (Pos.of_uint_acc d a)).
Proof.
  revert a. induction d; intros a; cbn [NilEmpty.string_of_uint Pos.of_uint_acc];
    [reflexivity|..];
    cbn [parseDigits Ascii.is_nat default from_option id]; rewrite <- IHd;
    do 2 f_equal; lia.
Qed.

Lemma parseDigits_zero (d : Decimal.uint) :
  parseDigits (Some 0) (NilEmpty.string_of_uint d) = Some (Z.of_N (Pos.of_uint d)).
Proof.
  induction d; cbn [NilEmpty.string_of_uint Pos.of_uint]; [reflexivity|exact IHd|..];
    cbn [parseDigits Ascii.is_nat default from_option id Z.of_N];
    rewrite <- parseDigits_acc; do 2 f_equal.
Qed.

Lemma isDigits_uint (d : Decimal.uint) : isDigits (NilEmpty.string_of_uint d) = true.
Proof. induction d; cbn; auto. Qed.

Lemma digit_not_ws (c : ascii) :
  Ascii.is_nat c <> None -> Js.is_ws c = false.
Proof.
  destruct c as [[] [] [] [] [] [] [] []]; cbn; intros Hd; try reflexivity;
    now destruct Hd.
Qed.

Lemma isDigits_trimStart (s : string) : isDigits s = true -> Js.trimStart s = s.
Proof.
  destruct s as [|c t]; [reflexivity|]. cbn [isDigits Js.trimStart].
  destruct (Ascii.is_nat c) eqn:Hc; [|discriminate].
  intros _. rewrite digit_not_ws; [reflexivity|congruence].
Qed.

Lemma isDigits_rev_app (s a : string) :
  isDigits s = true -> isDigits a = true -> isDigits (String.rev_app s a) = true.
Proof.
  revert a. induction s as [|c s IH]; intros a Hs Ha; [exact Ha|].
  cbn [String.rev_app]. cbn [isDigits] in Hs.
  destruct (Ascii.is_nat c) eqn:Hc; [|discriminate].
  apply IH; [exact Hs|]. cbn [isDigits]. now rewrite Hc.
Qed.

Lemma rev_app_rev_app (s a b : string) :
  String.rev_app (String.rev_app s a) b = String.rev_app a (s +:+ b).
Proof.
  revert a. induction s as [|c s IH]; intros a; [reflexivity|].
  cbn [String.rev_app]. rewrite IH. reflexivity.
Qed.

Lemma isDigits_trim (s : string) : isDigits s = true -> Js.trim s = s.
Proof.
  intros Hs. unfold Js.trim. rewrite (isDigits_trimStart s Hs).
  rewrite isDigits_trimStart by (now apply isDigits_rev_app).
  unfold String.rev. rewrite rev_app_rev_app. cbn [String.rev_app].
  apply append_empty_r.
Qed.

Lemma of_Z_digits (n : Z) : 0 <= n -> isDigits (Js.of_Z n) = true /\ Js.of_Z n <> EmptyString.
Proof.
  intros Hn. unfold Js.of_Z. destruct n as [|p|p]; [split; [reflexivity|discriminate]| |lia].
  cbn [Z.to_int NilZero.string_of_int]. unfold NilZero.string_of_uint.
  pose proof (Unsigned.of_to p) as Hp.
  destruct (Pos.to_uint p) eqn:Hd; [discriminate|..];
    (split; [apply (isDigits_uint (_ _))|discriminate]).
Qed.

Lemma parseInt10_of_Z (n : Z) : 0 <= n -> parseInt10 (Js.of_Z n) = Some n.
Proof.
  intros Hn. destruct (of_Z_digits n Hn) as [Hd Hne].
  unfold parseInt10. rewrite (isDigits_trimStart _ Hd).
  unfold Js.of_Z in *. destruct n as [|p|p]; [reflexivity| |lia].
  cbn [Z.to_int NilZero.string_of_int] in *. unfold NilZero.string_of_uint in *.
  pose proof (Unsigned.of_to p) as Hp.
  assert (Hz : parseDigits (Some 0) (NilEmpty.string_of_uint (Pos.to_uint p))
               = Some (Z.pos p)).
  { rewrite parseDigits_zero, Hp. reflexivity. }
  destruct (Pos.to_uint p) eqn:Hu; [discriminate|..]; exact Hz.
Qed.

Lemma positiveIntMsSchema_of_Z (n : Z) :
  0 <= n -> positiveIntMsSchema (Some (Js.of_Z n)) = Some n.
Proof.
  intros Hn. destruct (of_Z_digits n Hn) as [Hd Hne].
  unfold positiveIntMsSchema.
  rewrite (isDigits_trim _ Hd), (parseInt10_of_Z n Hn).
  destruct (Js.of_Z n) as [|c t]; [contradiction|]. cbn [Js.truthy negb].
  destruct (n <? 0) eqn:Hlt; [apply Z.ltb_lt in Hlt; lia|reflexivity].
Qed.

Lemma positiveIntMsSchema_nonneg (v : option string) (n : Z) :
  positiveIntMsSchema v = Some n -> 0 <= n.
Proof.
  unfold positiveIntMsSchema. repeat case_match; try discriminate.
  intros [= <-]. lia.
Qed.

(** X24. The child reads the same millisecond settings this process
    validated: for either of the two settings, as long as the value this
    process parsed is a safe integer (where a JS number and its decimal
    rendering are exact), parsing the sanitized environment's entry gives
    the value parsed from the ambient one, and no value where this process
    found none. *)
Theorem sanitized_milliseconds_roundtrip `{PathModule}
  (penv safe : gmap string string) (key : string) :
  key = "CURSOR_AGENT_TIMEOUT_MS" \/ key = "CURSOR_AGENT_IDLE_EXIT_MS" ->
  getSafeEnvironment penv = Ok safe ->
  (forall n, positiveIntMsSchema (penv !! key) = Some n -> n <= MAX_SAFE_INTEGER) ->
  positiveIntMsSchema (safe !! key) = positiveIntMsSchema (penv !! key).
Proof.
  unfold getSafeEnvironment. intros Hkey Hsafe _.
  destruct (getValidatedEnv penv) as [env|e] eqn:Henv; [|discriminate].
  cbn [bindR] in Hsafe. injection Hsafe as <-.
  destruct (getValidatedEnv_fields penv env Henv)
    as (_ & _ & _ & _ & _ & _ & Hidle & Htimeout).
  destruct Hkey as [-> | ->].
  - rewrite copied_lookup, validatedPart_timeout, Htimeout.
    destruct (positiveIntMsSchema (penv !! "CURSOR_AGENT_TIMEOUT_MS")) as [n|] eqn:Hn;
      cbn [fmap option_fmap option_map]; [|exact Hn].
    apply positiveIntMsSchema_of_Z. now apply (positiveIntMsSchema_nonneg _ _ Hn).
  - rewrite copied_lookup, validatedPart_idle, Hidle.
    destruct (positiveIntMsSchema (penv !! "CURSOR_AGENT_IDLE_EXIT_MS")) as [n|] eqn:Hn;
      cbn [fmap option_fmap option_map]; [|exact Hn].
    apply positiveIntMsSchema_of_Z. now apply (positiveIntMsSchema_nonneg _ _ Hn).
Qed.

(** A timeout written with sign, padding and unit. *)
Lemma sanitized_milliseconds_roundtrip_witness :
  exists safe,
    @getSafeEnvironment posix {[ "CURSOR_AGENT_TIMEOUT_MS" := " +0250ms" ]} = Ok safe /\
    safe !! "CURSOR_AGENT_TIMEOUT_MS" = Some "250" /\
    positiveIntMsSchema (safe !! "CURSOR_AGENT_TIMEOUT_MS") = Some 250.
Proof.
  assert (Hrun : exists safe,
    @getSafeEnvironment posix {[ "CURSOR_AGENT_TIMEOUT_MS" := " +0250ms" ]} = Ok safe /\
    safe !! "CURSOR_AGENT_TIMEOUT_MS" = Some "250").
  { eexists. split; vm_compute; reflexivity. }
  assert (Hparsed : positiveIntMsSchema
            (({[ "CURSOR_AGENT_TIMEOUT_MS" := " +0250ms" ]} : gmap string string)
               !! "CURSOR_AGENT_TIMEOUT_MS") = Some 250)
    by (vm_compute; reflexivity).
  destruct Hrun as (safe & Hsafe & Hv). exists safe. repeat split; try assumption.
  rewrite (@sanitized_milliseconds_roundtrip posix _ safe "CURSOR_AGENT_TIMEOUT_MS"
             (or_introl eq_refl) Hsafe).
  - exact Hparsed.
  - intros n Hn. rewrite Hparsed in Hn. injection Hn as <-. vm_compute. discriminate.
Defined.
(** ** POSIX: resolution is insensitive to normalization *)







Lemma segmentStack_inv (bi : bool) (st1 segs : list string) :
  Forall (fun seg => isDot seg = false /\ (Js.eqb seg ".." = true -> bi = true)) st1 ->
  Forall (fun seg => isDot seg = false /\ (Js.eqb seg ".." = true -> bi = true))
    (segmentStack bi st1 segs).
Proof.
  revert st1. induction segs as [|seg rest IH]; intros st1 Hst; [exact Hst|].
  cbn [segmentStack].
  destruct (isDot seg) eqn:Hdot; [now apply IH|].
  destruct (Js.eqb seg "..") eqn:Hdd.
  - destruct st1 as [|top below].
    + apply IH. destruct bi; repeat constructor.
    + inversion Hst as [|? ? [Htop Htopdd] Hbelow]; subst.
      destruct (Js.eqb top "..") eqn:Htd; apply IH; try exact Hbelow.
      pose proof (Htopdd eq_refl) as Hbi. subst bi.
      constructor; [|exact Hst]. split; reflexivity.
  - apply IH. constructor; [|exact Hst]. split; [exact Hdot|]. congruence.
Qed.



Lemma words_slash (b : string) : words (String "/" b) = words b.
Proof. reflexivity. Qed.











(** ** Every line of the stream is decoded once *)

Section Lines.
Context `{JsonParser}.
Variable inv : Invocation.
Hypothesis Hmode : streamJson inv && hasProgress inv = true.

Lemma stdoutOf_snoc (events : list Event) (e : Event) :
  stdoutOf (events ++ [e])
  = stdoutOf events +:+ match e with StdoutData c => c | _ => EmptyString end.
Proof.
  induction events as [|e' events IH].
  - destruct e; cbn [app stdoutOf]; now rewrite ?append_empty_r.
  - cbn [app]. destruct e'; cbn [stdoutOf]; rewrite IH; try reflexivity.
    now rewrite append_assoc.
Qed.

Lemma last_split_default (c : ascii) (s : string) :
  last (Js.split c s) = Some (default EmptyString (last (Js.split c s))).
Proof.
  destruct (last (Js.split c s)) eqn:Hl; [reflexivity|].
  apply last_None in Hl. now apply split_nonempty in Hl.
Qed.

(** Between chunks the decoder has handled the complete lines of the output
    so far, and buffers the line not yet ended. *)
Lemma run_lines (events : list Event) :
  existsb terminal events = false ->
  partialLine (run inv events)
  = default EmptyString (last (Js.split Js.nl_char (stdoutOf events))) /\
  decoderView (run inv events)
  = decoderView (foldl (decodeLine inv) (executor inv)
                   (removelast (Js.split Js.nl_char (stdoutOf events)))).
Proof.
  induction events as [|e events IH] using rev_ind; [split; reflexivity|].
  rewrite existsb_app. intros Hterm. apply orb_false_iff in Hterm as [Hev He].
  destruct (IH Hev) as [Hpartial Hview]. clear IH.
  rewrite run_snoc, stdoutOf_snoc.
  destruct e; try discriminate; cbn [step].
  - pose proof (split_carry Js.nl_char EmptyString (stdoutOf events) chunk) as Hcarry.
    change (EmptyString +:+ ?x) with x in Hcarry.
    rewrite Hcarry, <- Hpartial. split.
    + pose proof (onStdoutData_frame inv chunk (run inv events)) as Hf.
      frame_inj Hf. rewrite Hpartial0, Hmode. cbn [partialLine set_partialLine].
      rewrite last_app, last_split_default. reflexivity.
    + rewrite removelast_app by apply split_nonempty. rewrite foldl_app.
      unfold onStdoutData. cbv zeta. rewrite Hmode.
      assert (Hp : forall u, partialLine (scheduleIdleKill inv u) = partialLine u)
        by (intros u; unfold scheduleIdleKill; now case_match).
      rewrite Hp. cbn [partialLine set_out].
      apply decodeLines_decoderView. rewrite buffered_decoderView. exact Hview.
  - rewrite append_empty_r. split; [exact Hpartial|exact Hview].
  - rewrite append_empty_r.
    destruct (idleTimer (run inv events)); split; assumption.
Qed.

End Lines.

(** X27. With a progress consumer attached and stream decoding on, when
    the child closes before any other terminal event, what was reported is
    what decoding the lines of the complete stdout one by one reports:
    every line once, in order, the last one also when it has no line end,
    wherever the chunk boundaries fell. *)
Theorem every_line_decoded_once `{JsonParser} (inv : Invocation)
  (events : list Event) (code : option Z) :
  streamJson inv && hasProgress inv = true ->
  existsb terminal events = false ->
  reported (run inv (events ++ [ProcessClose code]))
  = reported (foldl (decodeLine inv) (executor inv)
                (Js.split Js.nl_char (stdoutOf events))).
Proof.
  intros Hmode Hterm.
  destruct (run_lines inv Hmode events Hterm) as [Hpartial Hview].
  assert (Hsettled : settled (run inv events) = false)
    by (now rewrite run_settled_iff).
  rewrite run_snoc. cbn [step].
  assert (Hclose : decoderView (onClose inv code (run inv events))
                   = decoderView (decodeLine inv (run inv events)
                                    (partialLine (run inv events)))).
  { unfold onClose, decodeLine. rewrite Hsettled, Hmode. cbv zeta.
    cbn [partialLine cleanup set_settled set_idleTimer set_mainTimer andb].
    destruct (Js.truthy (Js.trim (partialLine (run inv events)))); cbn [negb].
    - destruct (JSON_parse (Js.trim (partialLine (run inv events)))) as [event|].
      + repeat case_match;
          (etransitivity; [|apply (handleStreamEvent_decoderView inv event
                                     (cleanup (set_settled true (run inv events))))];
           reflexivity).
      + repeat case_match; reflexivity.
    - repeat case_match; reflexivity. }
  assert (Hall : decoderView (onClose inv code (run inv events))
                 = decoderView (foldl (decodeLine inv) (executor inv)
                                  (Js.split Js.nl_char (stdoutOf events)))).
  { rewrite Hclose.
    rewrite (app_removelast_last EmptyString
               (l := Js.split Js.nl_char (stdoutOf events)))
      by apply split_nonempty.
    rewrite foldl_app. cbn [foldl].
    rewrite Hpartial.
    replace (List.last (Js.split Js.nl_char (stdoutOf events)) EmptyString)
      with (default EmptyString (last (Js.split Js.nl_char (stdoutOf events)))).
    - unfold decodeLine. repeat case_match; try exact Hview.
      now apply handleStreamEvent_decoderView.
    - generalize (Js.split Js.nl_char (stdoutOf events)). intros l.
      induction l as [|x [|y l] IH]; try reflexivity. exact IH. }
  unfold decoderView in Hall. now injection Hall.
Qed.

(** Two assistant lines in three chunks, the second line without line end. *)
Lemma every_line_decoded_once_witness :
  List.map progress_message
    (reported (@run helloWorldParser progressInvocation
       [StdoutData (String.substring 0 10 (assistantLine "Hello"));
        StdoutData (String.substring 10 200 (assistantLine "Hello") +:+ Js.nl);
        StdoutData (assistantLine " world"); ProcessClose (Some 0)]))
  = ["Generating response... (5 characters)";
     "Generating response... (11 characters)"].
Proof.
  change [StdoutData (String.substring 0 10 (assistantLine "Hello"));
          StdoutData (String.substring 10 200 (assistantLine "Hello") +:+ Js.nl);
          StdoutData (assistantLine " world"); ProcessClose (Some 0)]
    with ([StdoutData (String.substring 0 10 (assistantLine "Hello"));
           StdoutData (String.substring 10 200 (assistantLine "Hello") +:+ Js.nl);
           StdoutData (assistantLine " world")] ++ [ProcessClose (Some 0)]).
  rewrite (@every_line_decoded_once helloWorldParser progressInvocation
             [StdoutData (String.substring 0 10 (assistantLine "Hello"));
              StdoutData (String.substring 10 200 (assistantLine "Hello") +:+ Js.nl);
              StdoutData (assistantLine " world")] (Some 0));
    [|vm_compute; reflexivity|vm_compute; reflexivity].
  vm_compute. reflexivity.
Defined.

(** ** Executable policy against the configured value (C3) *)

Lemma executablePathSchema_override `{PathModule} (raw p : option string) :
  executablePathSchema raw = Ok p ->
  match p with Some q => if Js.truthy q then Some q else None | None => None end
  = validatedOverride raw.
Proof.
  unfold executablePathSchema, validatedOverride.
  destruct raw as [v|]; [|now intros [= <-]]. cbv zeta.
  destruct (Js.truthy v) eqn:Hv; cbn [negb orb].
  - destruct (Js.truthy (Js.trim v)) eqn:Ht; cbn [negb andb]; [|now intros [= <-]].
    destruct (Js.includes (normalize (Js.trim v)) ".." ||
              negb (isAbsolute (normalize (Js.trim v))) &&
              Js.includes (normalize (Js.trim v)) "/"); [discriminate|].
    now intros [= <-].
  - intros [= <-]. destruct v; [reflexivity|discriminate].
Qed.

(** C3 (amended). [validateExecutablePath] validates the configuration
    first and throws its error when it is invalid, whatever the argument.
    Otherwise the override is the validated form of the configured
    [CURSOR_AGENT_PATH] (trimmed and, when absolute, normalized), and the
    function returns the override, or the sentinel when there is none, for
    an empty or whitespace argument; the sentinel when the argument trims to
    it; the override when the argument trims to exactly the override; and
    throws InvalidExecutable for every other argument. *)
Theorem validateExecutablePath_policy `{PathModule}
  (penv : gmap string string) (explicit : option string) :
  (forall e, getValidatedEnv penv = inr e ->
     validateExecutablePath penv explicit = inr e) /\
  (forall env, getValidatedEnv penv = Ok env ->
     let override := validatedOverride (penv !! "CURSOR_AGENT_PATH") in
     configuredOverride env = override /\
     (blank explicit = true ->
      validateExecutablePath penv explicit = Ok (default sentinel override)) /\
     (blank explicit = false ->
      let trimmed := Js.trim (default EmptyString explicit) in
      (trimmed = sentinel -> validateExecutablePath penv explicit = Ok sentinel) /\
      (override = Some trimmed ->
       validateExecutablePath penv explicit = Ok trimmed) /\
      (trimmed <> sentinel -> override <> Some trimmed ->
       exists msg,
         validateExecutablePath penv explicit = Throw InvalidExecutable msg))).
Proof.
  split.
  - intros e He. unfold validateExecutablePath. now rewrite He.
  - intros env Henv. cbv zeta.
    destruct (getValidatedEnv_fields penv env Henv) as (_ & Hpath & _).
    pose proof (executablePathSchema_override _ _ Hpath) as Hov.
    fold (configuredOverride env) in Hov. rewrite <- Hov.
    split; [reflexivity|].
    exact (validateExecutablePath_cases penv env explicit Henv).
Qed.

(** With [/opt//agent/] configured the override is [/opt/agent/]: it is
    returned for a missing argument and for the argument [ /opt/agent/ ],
    the sentinel is accepted, and [/usr/bin/evil] is refused. *)
Lemma validateExecutablePath_policy_witness :
  @validateExecutablePath posix {[ "CURSOR_AGENT_PATH" := "/opt//agent/" ]} None
  = Ok "/opt/agent/" /\
  @validateExecutablePath posix {[ "CURSOR_AGENT_PATH" := "/opt//agent/" ]}
    (Some " /opt/agent/ ") = Ok "/opt/agent/" /\
  @validateExecutablePath posix {[ "CURSOR_AGENT_PATH" := "/opt//agent/" ]}
    (Some "cursor-agent") = Ok "cursor-agent" /\
  exists msg,
    @validateExecutablePath posix {[ "CURSOR_AGENT_PATH" := "/opt//agent/" ]}
      (Some "/usr/bin/evil") = Throw InvalidExecutable msg.
Proof.
  pose (penv := ({[ "CURSOR_AGENT_PATH" := "/opt//agent/" ]} : gmap string string)).
  assert (Henv : exists env, @getValidatedEnv posix penv = Ok env)
    by (eexists; vm_compute; reflexivity).
  destruct Henv as [env Henv].
  assert (Hov : @validatedOverride posix (penv !! "CURSOR_AGENT_PATH")
                = Some "/opt/agent/") by (vm_compute; reflexivity).
  fold penv. split; [|split; [|split]].
  - destruct (@validateExecutablePath_policy posix penv None) as [_ Hok].
    destruct (Hok env Henv) as (_ & Hblank & _).
    rewrite Hov in Hblank. exact (Hblank eq_refl).
  - destruct (@validateExecutablePath_policy posix penv (Some " /opt/agent/ "))
      as [_ Hok].
    destruct (Hok env Henv) as (_ & _ & Hset).
    destruct (Hset eq_refl) as (_ & Hexact & _). rewrite Hov in Hexact.
    exact (Hexact eq_refl).
  - destruct (@validateExecutablePath_policy posix penv (Some "cursor-agent"))
      as [_ Hok].
    destruct (Hok env Henv) as (_ & _ & Hset).
    destruct (Hset eq_refl) as (Hsent & _). exact (Hsent eq_refl).
  - destruct (@validateExecutablePath_policy posix penv (Some "/usr/bin/evil"))
      as [_ Hok].
    destruct (Hok env Henv) as (_ & _ & Hset).
    destruct (Hset eq_refl) as (_ & _ & Hreject). rewrite Hov in Hreject.
    apply Hreject; vm_compute; discriminate.
Defined.

(** The claim as stated fails: with [CURSOR_AGENT_PATH=/opt//agent/] an
    argument that is exactly the configured value is refused, and the value
    returned for a missing argument is not the configured one; and with a
    configuration that does not validate a missing argument throws. *)
Lemma configured_value_is_refused :
  ({[ "CURSOR_AGENT_PATH" := "/opt//agent/" ]} : gmap string string)
    !! "CURSOR_AGENT_PATH" = Some "/opt//agent/" /\
  Js.trim "/opt//agent/" = "/opt//agent/" /\
  (exists msg,
     @validateExecutablePath posix {[ "CURSOR_AGENT_PATH" := "/opt//agent/" ]}
       (Some "/opt//agent/") = Throw InvalidExecutable msg) /\
  @validateExecutablePath posix {[ "CURSOR_AGENT_PATH" := "/opt//agent/" ]} None
  = Ok "/opt/agent/" /\
  @validateExecutablePath posix {[ "CURSOR_AGENT_PATH" := "../agent" ]} None
  = Throw InvalidConfig "CURSOR_AGENT_PATH contains invalid path traversal".
Proof.
  split; [reflexivity|]. split; [vm_compute; reflexivity|].
  split; [eexists; vm_compute; reflexivity|].
  split; vm_compute; reflexivity.
Qed.

(** ** Result on process close, over a trace (C5) *)

Section CloseOutcome.
Context `{JsonParser}.
Variable inv : Invocation.

Lemma scheduleIdleKill_timer (s : State) :
  idleTimer (scheduleIdleKill inv s)
  = (if 0 <? idleMs inv then TPending else idleTimer s) /\
  killedByIdle (scheduleIdleKill inv s) = killedByIdle s.
Proof.
  unfold scheduleIdleKill.
  destruct (idleMs inv =? 0) eqn:H0; destruct (idleMs inv <=? 0) eqn:H1;
    destruct (0 <? idleMs inv) eqn:H2; cbn; try (split; reflexivity); lia.
Qed.

(** The idle flag of a run that has not settled is set exactly when the
    idle timer has fired. *)
Lemma killedByIdle_idleFired (events : list Event) (s : State) :
  existsb terminal events = false ->
  killedByIdle (foldl (step inv) s events)
  = killedByIdle s ||
    idleFired (idleMs inv)
      (match idleTimer s with TPending => true | _ => false end) events.
Proof.
  revert s. induction events as [|e events IH]; intros s Hterm.
  - cbn. now rewrite orb_false_r.
  - cbn [existsb] in Hterm. apply orb_false_iff in Hterm as [He Hterm].
    cbn [foldl]. rewrite (IH _ Hterm). clear IH.
    destruct e; try discriminate; cbn [step idleFired].
    + pose proof (onStdoutData_frame inv chunk s) as Hf. frame_inj Hf.
      rewrite Hkilled, Hidle. cbn [killedByIdle idleTimer set_partialLine].
      destruct (scheduleIdleKill_timer (set_out (out s +:+ chunk) s)) as [-> ->].
      cbn [killedByIdle idleTimer set_out]. f_equal. f_equal.
      destruct (0 <? idleMs inv); [now rewrite orb_true_r|].
      now rewrite orb_false_r.
    + reflexivity.
    + destruct (idleTimer s) eqn:Hi; cbn; rewrite ?Hi; cbn;
        try reflexivity.
      now rewrite orb_true_r.
Qed.

End CloseOutcome.

(** C5. When the child process closes, as the first terminal event of an
    invocation, the promise resolves to one result: a success carrying the
    accumulated stdout, or the no-output marker when it is empty, exactly
    when the exit code is zero or the idle timer has fired and the
    accumulated stdout is non-empty; otherwise an error whose text gives the
    exit code, then the accumulated stderr when non-empty, else the stdout
    when non-empty, else the marker. *)
Theorem close_result_by_code_and_idle_kill `{JsonParser} (inv : Invocation)
  (events : list Event) (code : option Z) :
  existsb terminal events = false ->
  let stdout := stdoutOf events in
  let stderr := stderrOf events in
  let idleKilled := idleFired (idleMs inv) false events in
  resolved (run inv (events ++ [ProcessClose code]))
  = [ if bool_decide (code = Some 0) || (idleKilled && Js.truthy stdout)
      then {| text := if Js.truthy stdout then stdout else "(no output)";
              isError := false |}
      else {| text := "cursor-agent exited with code " +:+
                      match code with
                      | Some n => Js.of_Z n
                      | None => "null"
                      end +:+ Js.nl +:+
                      (if Js.truthy stderr then stderr
                       else if Js.truthy stdout then stdout else "(no output)");
              isError := true |} ].
Proof.
  intros Hterm. cbv zeta.
  assert (Hs : settled (run inv events) = false) by now rewrite run_settled_iff.
  pose proof (run_guarded inv events) as Hg. unfold guarded in Hg.
  rewrite Hs in Hg. destruct Hg as [_ Hr].
  rewrite run_snoc. cbn [step]. rewrite (onClose_resolves inv code _ Hs), Hr.
  cbn [app]. f_equal. unfold closeResult.
  destruct (run_output inv events) as [-> ->].
  unfold run at 1. rewrite (killedByIdle_idleFired inv events _ Hterm).
  cbn [executor killedByIdle idleTimer orb].
  unfold Js.or_else, codeString.
  destruct (bool_decide (code = Some 0) ||
            idleFired (idleMs inv) false events && Js.truthy (stdoutOf events));
    reflexivity.
Qed.

(** Idle-kill at 100 ms after one chunk of output: the close that follows
    the kill is a success carrying the partial output; and a child that
    writes to both streams and exits with code 2 gives the error naming the
    code and quoting stderr. *)
Lemma close_result_by_code_and_idle_kill_witness :
  resolved (@run noJson idleInvocation
              ([StdoutData "partial"; IdleTimerFires] ++ [ProcessClose None]))
  = [ {| text := "partial"; isError := false |} ] /\
  resolved (@run noJson idleInvocation
              ([StdoutData "half"; StderrData "boom"] ++ [ProcessClose (Some 2)]))
  = [ {| text := "cursor-agent exited with code 2" +:+ Js.nl +:+ "boom";
         isError := true |} ].
Proof.
  split.
  - rewrite (@close_result_by_code_and_idle_kill noJson idleInvocation
               [StdoutData "partial"; IdleTimerFires] None eq_refl).
    vm_compute. reflexivity.
  - rewrite (@close_result_by_code_and_idle_kill noJson idleInvocation
               [StdoutData "half"; StderrData "boom"] (Some 2) eq_refl).
    vm_compute. reflexivity.
Defined.
(** ** Error texts: what they are made of (C9) *)

(** C9 (amended). The results of an invocation are the same under any two
    ambient environments that agree on the eight recognised configuration
    variables, given the same request and the same events from the child;
    and each error text is made of its diagnostic and nothing else: for a
    spawn failure the command, the failure message, the argument vector
    and, when set, the line [CURSOR_AGENT_PATH=<value>]; for a timeout the
    configured duration; for a non-zero exit the exit code and the child's
    stderr, else its stdout, quoted as received. *)
Theorem error_text_configuration_only `{PathModule} `{JsonParser}
  (penv1 penv2 : gmap string string) (cwd0 : string) (req : Request)
  (events : list Event) :
  agreeOn recognized penv1 penv2 ->
  invokeCursorAgent penv1 cwd0 req events
  = invokeCursorAgent penv2 cwd0 req events /\
  (forall inv, prepare penv1 cwd0 req = Ok inv ->
     existsb terminal events = false ->
     (forall msg str,
        resolved (run inv (events ++ [ProcessError msg str]))
        = [ {| text :=
                 "Failed to start " +:+ Js.dq +:+ cmd inv +:+ Js.dq +:+ ": " +:+
                 (if Js.truthy msg then msg else str) +:+ Js.nl +:+
                 "Args: " +:+ JSON_stringify_strings (spawnArgv inv) +:+ Js.nl +:+
                 match safeEnv inv !! "CURSOR_AGENT_PATH" with
                 | Some p =>
                     if Js.truthy p
                     then "CURSOR_AGENT_PATH=" +:+ p +:+ Js.nl
                     else EmptyString
                 | None => EmptyString
                 end;
               isError := true |} ]) /\
     (timeoutMs inv <= MAX_SAFE_INTEGER ->
      resolved (run inv (events ++ [MainTimerFires]))
      = [ {| text := "cursor-agent timed out after " +:+
                     Js.of_Z (timeoutMs inv) +:+ "ms";
             isError := true |} ]) /\
     (forall code r,
        resolved (run inv (events ++ [ProcessClose code])) = [r] ->
        isError r = true ->
        text r
        = "cursor-agent exited with code " +:+
          match code with
          | Some n => Js.of_Z n
          | None => "null"
          end +:+ Js.nl +:+
          (if Js.truthy (stderrOf events) then stderrOf events
           else if Js.truthy (stdoutOf events) then stdoutOf events
                else "(no output)"))).
Proof.
  intros Ha. split; [exact (invoke_agree penv1 penv2 cwd0 req events Ha)|].
  intros inv _ Hterm.
  assert (Hs : settled (run inv events) = false) by now rewrite run_settled_iff.
  pose proof (run_guarded inv events) as Hg. unfold guarded in Hg.
  rewrite Hs in Hg. destruct Hg as [Hm Hr].
  split; [|split].
  - intros msg str. rewrite run_snoc. cbn [step]. unfold onError.
    rewrite Hs. cbn [resolved resolve_with cleanup set_settled set_idleTimer
                      set_mainTimer].
    rewrite Hr. cbn [app]. do 2 f_equal. unfold Js.or_else, Js.truthy_opt.
    do 9 f_equal.
    destruct (safeEnv inv !! "CURSOR_AGENT_PATH") as [p|]; [|reflexivity].
    now destruct (Js.truthy p).
  - intros _. rewrite run_snoc. cbn [step]. rewrite Hm.
    unfold onMainTimer. cbn. rewrite Hs. cbn. now rewrite Hr.
  - intros code r. rewrite run_snoc. cbn [step].
    rewrite (onClose_resolves inv code _ Hs), Hr. cbn [app].
    intros [= <-]. unfold closeResult.
    destruct (run_output inv events) as [-> ->].
    destruct (bool_decide (code = Some 0) ||
              killedByIdle (run inv events) && Js.truthy (stdoutOf events));
      [discriminate|].
    intros _. reflexivity.
Qed.

(** Two environments with different credentials and the same configuration
    give the same spawn-failure result. *)
Lemma error_text_configuration_only_witness :
  @invokeCursorAgent posix noJson ambientAlpha "/x/repo" (requestOf ["hello"])
    [ProcessError "spawn ENOENT" "Error: spawn ENOENT"]
  = @invokeCursorAgent posix noJson ambientBeta "/x/repo" (requestOf ["hello"])
      [ProcessError "spawn ENOENT" "Error: spawn ENOENT"].
Proof.
  apply (@error_text_configuration_only posix noJson ambientAlpha ambientBeta).
  intros key Hin. unfold recognized in Hin. cbn [In] in Hin.
  repeat (destruct Hin as [<-|Hin]; [vm_compute; reflexivity|]).
  contradiction.
Defined.

(** ** Sanitized environment: the validated values *)

(** X4. What the child process sees for validated variables: the model name
    trimmed, and each of the two millisecond settings re-rendered in decimal
    when it parses to a non-negative integer; a millisecond setting that
    does not parse is handed on verbatim.  Stated for values that parse to a
    safe integer, where a JS number and its decimal rendering are exact. *)
Theorem getSafeEnvironment_validated_values `{PathModule}
  (penv safe : gmap string string) :
  getSafeEnvironment penv = Ok safe ->
  (forall n, positiveIntMsSchema (penv !! "CURSOR_AGENT_TIMEOUT_MS") = Some n ->
             n <= MAX_SAFE_INTEGER) ->
  (forall n, positiveIntMsSchema (penv !! "CURSOR_AGENT_IDLE_EXIT_MS") = Some n ->
             n <= MAX_SAFE_INTEGER) ->
  safe !! "CURSOR_AGENT_MODEL" = Js.trim <$> penv !! "CURSOR_AGENT_MODEL" /\
  safe !! "CURSOR_AGENT_TIMEOUT_MS"
  = match positiveIntMsSchema (penv !! "CURSOR_AGENT_TIMEOUT_MS") with
    | Some n => Some (Js.of_Z n)
    | None => penv !! "CURSOR_AGENT_TIMEOUT_MS"
    end /\
  safe !! "CURSOR_AGENT_IDLE_EXIT_MS"
  = match positiveIntMsSchema (penv !! "CURSOR_AGENT_IDLE_EXIT_MS") with
    | Some n => Some (Js.of_Z n)
    | None => penv !! "CURSOR_AGENT_IDLE_EXIT_MS"
    end.
Proof.
  unfold getSafeEnvironment. intros Hsafe _ _.
  destruct (getValidatedEnv penv) as [env|e] eqn:Henv; [|discriminate].
  cbn [bindR] in Hsafe. injection Hsafe as <-.
  destruct (getValidatedEnv_fields penv env Henv)
    as (_ & _ & Hmodel & _ & _ & _ & Hidle & Htimeout).
  rewrite !copied_lookup, validatedPart_model, validatedPart_timeout,
    validatedPart_idle, <- Hidle, <- Htimeout.
  split; [|split].
  - unfold modelSchema in Hmodel.
    destruct (penv !! "CURSOR_AGENT_MODEL") as [raw|].
    + cbv zeta in Hmodel. destruct (Js.truthy (Js.trim raw)) eqn:Ht; [|discriminate].
      injection Hmodel as <-. now rewrite Ht.
    + injection Hmodel as <-. reflexivity.
  - now destruct (CURSOR_AGENT_TIMEOUT_MS env).
  - now destruct (CURSOR_AGENT_IDLE_EXIT_MS env).
Qed.

(** A padded model name, a timeout with trailing text and an idle setting
    that is no number. *)
Lemma getSafeEnvironment_validated_values_witness :
  exists safe,
    @getSafeEnvironment posix
      {[ "CURSOR_AGENT_MODEL" := " gpt-x "; "CURSOR_AGENT_TIMEOUT_MS" := "100ms";
         "CURSOR_AGENT_IDLE_EXIT_MS" := "soon" ]} = Ok safe /\
    safe !! "CURSOR_AGENT_MODEL" = Some "gpt-x" /\
    safe !! "CURSOR_AGENT_TIMEOUT_MS" = Some "100" /\
    safe !! "CURSOR_AGENT_IDLE_EXIT_MS" = Some "soon".
Proof.
  pose (penv := ({[ "CURSOR_AGENT_MODEL" := " gpt-x ";
                    "CURSOR_AGENT_TIMEOUT_MS" := "100ms";
                    "CURSOR_AGENT_IDLE_EXIT_MS" := "soon" ]} : gmap string string)).
  assert (Ht : positiveIntMsSchema (penv !! "CURSOR_AGENT_TIMEOUT_MS") = Some 100)
    by (vm_compute; reflexivity).
  assert (Hi : positiveIntMsSchema (penv !! "CURSOR_AGENT_IDLE_EXIT_MS") = None)
    by (vm_compute; reflexivity).
  assert (Hm : Js.trim <$> penv !! "CURSOR_AGENT_MODEL" = Some "gpt-x")
    by (vm_compute; reflexivity).
  assert (Hraw : penv !! "CURSOR_AGENT_IDLE_EXIT_MS" = Some "soon")
    by (vm_compute; reflexivity).
  assert (Hrun : exists safe, @getSafeEnvironment posix penv = Ok safe)
    by (eexists; vm_compute; reflexivity).
  destruct Hrun as [safe Hsafe]. exists safe. fold penv. split; [exact Hsafe|].
  destruct (@getSafeEnvironment_validated_values posix penv safe Hsafe)
    as (Hm' & Ht' & Hi').
  - intros n Hn. rewrite Ht in Hn. injection Hn as <-. vm_compute. discriminate.
  - intros n Hn. rewrite Hi in Hn. discriminate.
  - rewrite Hm', Ht', Hi', Hm, Ht, Hi, Hraw. repeat split.
Defined.

(** ** The timeout result *)

(** X13. When the main timer is the first terminal event of a run, the
    result is the timeout error naming the configured duration and nothing
    else: the output accumulated so far is not part of it; one kill signal
    is sent.  Stated for a duration that is a safe integer, where its
    decimal rendering is exact. *)
Theorem timeout_result_of_trace `{JsonParser} (inv : Invocation)
  (events : list Event) :
  0 <= timeoutMs inv <= MAX_SAFE_INTEGER ->
  existsb terminal events = false ->
  resolved (run inv (events ++ [MainTimerFires]))
  = [ {| text := "cursor-agent timed out after " +:+ Js.of_Z (timeoutMs inv) +:+ "ms";
         isError := true |} ] /\
  kills (run inv (events ++ [MainTimerFires])) = S (kills (run inv events)).
Proof.
  intros _ Hnone. rewrite run_snoc. cbn [step].
  assert (Hs : settled (run inv events) = false) by now rewrite run_settled_iff.
  pose proof (run_guarded inv events) as Hg. unfold guarded in Hg.
  rewrite Hs in Hg. destruct Hg as [Hm Hr]. rewrite Hm.
  unfold onMainTimer. cbn. rewrite Hs. cbn. now rewrite Hr.
Qed.

(** Output arrives, then the timer fires. *)
Lemma timeout_result_of_trace_witness :
  resolved (@run noJson idleInvocation
              ([StdoutData "half an answer"] ++ [MainTimerFires]))
  = [ {| text := "cursor-agent timed out after 30000ms"; isError := true |} ] /\
  kills (@run noJson idleInvocation ([StdoutData "half an answer"] ++ [MainTimerFires]))
  = S (kills (@run noJson idleInvocation [StdoutData "half an answer"])).
Proof.
  apply (@timeout_result_of_trace noJson idleInvocation [StdoutData "half an answer"]).
  - vm_compute. split; discriminate.
  - reflexivity.
Defined.

(** ** [cursor_agent_analyze_files] behind its schema *)

(** X22. A call of [cursor_agent_analyze_files] is all or nothing.
    Arguments the schema refuses (no path, an empty path, an unknown output
    format) never reach the handler.  For arguments that pass, the handler
    starts a child only when every listed path passes [validateFilePath],
    and one path that is blank or escapes the base makes the whole call an
    Invalid params error without any spawn. *)
Theorem analyze_files_all_or_nothing `{PathModule} `{JsonParser}
  (penv : gmap string string) (cwd0 : string) (paths : string + list string)
  (prompt : option string) (common : CommonArgs) (extra : Extra)
  (events : list Event) :
  let list := match paths with inl p => [p] | inr l => l end in
  match callTool (ANALYZE_FILES_SCHEMA paths common)
          (cursor_agent_analyze_files penv cwd0 paths prompt common extra events)
  with
  | None => list = [] \/ In EmptyString list \/ COMMON common = false
  | Some h =>
      list <> [] /\ ~ In EmptyString list /\ COMMON common = true /\
      (forall s, child h = Some s ->
         exists vs,
           Forall2 (fun p v => validateFilePath cwd0 (Some p) = Ok v) list vs) /\
      (Exists (fun p => exists e, validateFilePath cwd0 (Some p) = inr e) list ->
       child h = None /\
       exists e, answer h = Some (invalidParams e) /\
                 (kind e = MissingPath \/ kind e = PathEscape))
  end.
Proof.
  cbv zeta. unfold callTool, ANALYZE_FILES_SCHEMA.
  assert (Hall : forall l, forallb Js.truthy l = true -> ~ In EmptyString l).
  { induction l as [|x l IH]; [intros _ []|]. cbn [forallb In].
    intros Hx [->|Hin]; [discriminate|].
    apply andb_true_iff in Hx as [_ Hx]. now apply IH. }
  assert (Hsome : forall l, forallb Js.truthy l = false -> In EmptyString l).
  { induction l as [|x l IH]; [discriminate|]. cbn [forallb In].
    destruct x as [|c x]; [now left|]. cbn [Js.truthy andb]. intros Hl.
    right. now apply IH. }
  destruct (match paths with
            | inl p => Js.truthy p
            | inr l => negb (bool_decide (l = [])) && forallb Js.truthy l
            end) eqn:Hpaths; cbn [andb].
  - destruct (COMMON common) eqn:Hcommon; [|now right; right].
    split; [|split; [|split; [reflexivity|]]].
    + destruct paths as [p|l]; [discriminate|].
      apply andb_true_iff in Hpaths as [Hne _].
      apply negb_true_iff, bool_decide_eq_false in Hne. exact Hne.
    + destruct paths as [p|l].
      * intros [->|[]]. discriminate.
      * apply andb_true_iff in Hpaths as [_ Hl]. now apply Hall.
    + unfold cursor_agent_analyze_files. cbv zeta. split.
      * intros s Hs. apply caught_bind_child in Hs as (vs & Hvs & _).
        exists vs. now apply validateAll_ok.
      * intros Hex. destruct (validateAll_err cwd0 _ Hex) as (e & -> & Hk).
        cbn. eauto.
  - destruct paths as [p|l].
    + right. left. destruct p; [now left|discriminate].
    + apply andb_false_iff in Hpaths as [Hne|Hl].
      * left. apply negb_false_iff, bool_decide_eq_true in Hne. exact Hne.
      * right. left. now apply Hsome.
Qed.

(** ** Output format under progress reporting *)

(** X26. The legacy run tool starts its child with [--print
    --output-format F]: F is [stream-json], followed by
    [--stream-partial-output], when the call's progress token is truthy and
    a notification function is present, whatever format was requested; with
    a missing or falsy token (such as 0 or the empty string) or without the
    function, F is the requested output format, [text] by default. *)
Theorem progress_token_selects_stream_json `{PathModule} `{JsonParser}
  (penv : gmap string string) (cwd0 : string) (input : RunInput) (extra : Extra)
  (events : list Event) (s : State) :
  child (cursor_agent_run penv cwd0 input extra events) = Some s ->
  exists cmd rest,
    spawned s
    = [(cmd,
        "--print" :: "--output-format" ::
        (if JsVal.truthy (progressToken extra) && sendNotification extra
         then ["stream-json"; "--stream-partial-output"]
         else [default "text" (arg_output_format (src_common (sourceOf input)))])
        ++ rest)].
Proof.
  unfold cursor_agent_run. intros Hs.
  destruct (runCursorAgent penv cwd0 input (createProgressCallback extra) events)
    as [h|e] eqn:Hrun; [|discriminate].
  cbn [caught] in Hs.
  destruct (runCursorAgent_ok penv cwd0 input _ events h Hrun)
    as (inv & env & _ & _ & Hargv & Hchild & _).
  rewrite Hchild in Hs. injection Hs as <-.
  rewrite run_spawned, Hargv. exists (cmd inv).
  unfold finalArgv, finalOutputFormat, useStreamJson, createProgressCallback.
  cbn [print onProgress output_format runRequest default from_option id].
  destruct (JsVal.truthy (progressToken extra) && sendNotification extra);
    cbn [andb app]; eexists; reflexivity.
Qed.

(** A call asking for [json]: with the token ["t1"] the child gets
    [stream-json], with the token [0] it gets [json]. *)
Lemma progress_token_selects_stream_json_witness :
  let input :=
    {| input_source :=
         {| src_prompt := Some "hi";
            src_common :=
              {| arg_output_format := Some "json"; arg_extra_args := None;
                 arg_cwd := None; arg_executable := None;
                 arg_model := None; arg_force := None;
                 arg_echo_prompt := None |} |};
       input_arguments := None |} in
  (exists s cmd rest,
     child (@cursor_agent_run posix noJson ∅ "/x/repo" input
              {| progressToken := Some (JStr "t1"); sendNotification := true |} [])
     = Some s /\
     spawned s
     = [(cmd, "--print" :: "--output-format" :: "stream-json" ::
              "--stream-partial-output" :: rest)]) /\
  (exists s cmd rest,
     child (@cursor_agent_run posix noJson ∅ "/x/repo" input
              {| progressToken := Some (JNum 0); sendNotification := true |} [])
     = Some s /\
     spawned s = [(cmd, "--print" :: "--output-format" :: "json" :: rest)]).
Proof.
  intros input. split.
  - assert (Hrun : exists s,
      child (@cursor_agent_run posix noJson ∅ "/x/repo" input
               {| progressToken := Some (JStr "t1"); sendNotification := true |} [])
      = Some s) by (eexists; vm_compute; reflexivity).
    destruct Hrun as [s Hs]. exists s.
    destruct (@progress_token_selects_stream_json posix noJson ∅ "/x/repo" input
                _ [] s Hs) as (cmd & rest & Hsp).
    exists cmd, rest. split; [exact Hs|exact Hsp].
  - assert (Hrun : exists s,
      child (@cursor_agent_run posix noJson ∅ "/x/repo" input
               {| progressToken := Some (JNum 0); sendNotification := true |} [])
      = Some s) by (eexists; vm_compute; reflexivity).
    destruct Hrun as [s Hs]. exists s.
    destruct (@progress_token_selects_stream_json posix noJson ∅ "/x/repo" input
                _ [] s Hs) as (cmd & rest & Hsp).
    exists cmd, rest. split; [exact Hs|exact Hsp].
Defined.
